(** * EquityReview: the escalation rule engine, the result writer and the
      job orchestrator

    A shallow embedding of
    - [MockLLMProvider.analyze], which routes.ts imports from
      ./llm/provider (its text is the second part of
      server/integrations/sharepoint/types.ts),
    - [generateResultsExcel]    (server/excel/writer.ts),
    - [updateJob], [storeJobResults] (server/storage.ts) and
    - [processJob]              (server/routes.ts),
    and of the code around them,
    - [parseExcelFile]          (server/excel/parser.ts),
    - [getStats]                (server/storage.ts),
    - the download handler      (server/routes.ts) and
    - [getEvents]               (server/services/audit.ts),
    followed by the properties of these functions.

    Conventions of the embedding.
    - A JavaScript string is a sequence of UTF-16 code units.  The embedding
      covers the strings whose code units are below 256 (Latin-1), held in
      Rocq's [string]; [length] then counts code units as [String.length].
    - [undefined] in an optional field is [None].
    - Promises are run to completion: [await e] is the value of [e]; a
      rejected promise is a thrown exception.
    - Numbers are IEEE 754 binary64, after [SpecFloat] of the Standard
      Library; paths are joined as [path.join] of Node.js does on POSIX. *)

From Stdlib Require Import String Ascii List ZArith QArith Qpower Qround Bool Lia Lqa Sorted.
From Stdlib Require Import DecimalString SpecFloat.
Import ListNotations.

Local Open Scope string_scope.
Local Open Scope list_scope.

(* ================================================================== *)
(** * JavaScript strings *)
(* ================================================================== *)

Module Js.

(** Code units that [String.prototype.toLowerCase] changes, below 256:
    A-Z, and the Latin-1 capitals U+00C0..U+00DE without U+00D7. *)
Definition isUpper (c : ascii) : bool :=
  let n := nat_of_ascii c in
  ((65 <=? n) && (n <=? 90))%nat
  || ((192 <=? n) && (n <=? 222) && negb (n =? 215))%nat.

Definition lowerChar (c : ascii) : ascii :=
  if isUpper c then ascii_of_nat (nat_of_ascii c + 32) else c.

(** [s.toLowerCase()] *)
Fixpoint toLowerCase (s : string) : string :=
  match s with
  | EmptyString => EmptyString
  | String c s' => String (lowerChar c) (toLowerCase s')
  end.

(** WhiteSpace and LineTerminator code units below 256:
    TAB, LF, VT, FF, CR, SP and NBSP. *)
Definition isWhiteSpace (c : ascii) : bool :=
  let n := nat_of_ascii c in
  ((9 <=? n) && (n <=? 13) || (n =? 32) || (n =? 160))%nat.

Fixpoint trimStart (s : string) : string :=
  match s with
  | EmptyString => EmptyString
  | String c s' => if isWhiteSpace c then trimStart s' else s
  end.

Fixpoint trimEnd (s : string) : string :=
  match s with
  | EmptyString => EmptyString
  | String c s' =>
      match trimEnd s' with
      | EmptyString => if isWhiteSpace c then EmptyString else String c EmptyString
      | t => String c t
      end
  end.

(** [s.trim()] *)
Definition trim (s : string) : string := trimEnd (trimStart s).

(** [s.includes(t)]: [t] occurs in [s] as a substring. *)
Fixpoint includes (s t : string) : bool :=
  String.prefix t s ||
  match s with
  | EmptyString => false
  | String _ s' => includes s' t
  end.

(** [\d] without the [u] flag: 0-9. *)
Definition isDigit (c : ascii) : bool :=
  let n := nat_of_ascii c in ((48 <=? n) && (n <=? 57))%nat.

Definition isSlash (c : ascii) : bool := (nat_of_ascii c =? 47)%nat.

(** The regular expression [/\d{1,2}\/\d{1,2}|\d{4}/] matched at the start
    of [s].  First alternative: one or two digits, a slash, then one or
    two digits (one digit after the slash already gives a match); second
    alternative: four digits. *)
Definition dateLikeHere (s : string) : bool :=
  match s with
  | String d1 (String c2 (String c3 rest)) =>
      isDigit d1 &&
      ((isSlash c2 && isDigit c3)
       || (isDigit c2 && isSlash c3 &&
           match rest with String c4 _ => isDigit c4 | EmptyString => false end)
       || (isDigit c2 && isDigit c3 &&
           match rest with String c4 _ => isDigit c4 | EmptyString => false end))
  | _ => false
  end.

(** [/\d{1,2}\/\d{1,2}|\d{4}/.test(s)]: a match at some position. *)
Fixpoint dateLikeTest (s : string) : bool :=
  dateLikeHere s ||
  match s with
  | EmptyString => false
  | String _ s' => dateLikeTest s'
  end.

(** [xs.join(sep)] *)
Fixpoint join (sep : string) (xs : list string) : string :=
  match xs with
  | [] => EmptyString
  | [x] => x
  | x :: rest => x ++ sep ++ join sep rest
  end.

(** [arr.some(p)] *)
Definition some {A} (p : A -> bool) (xs : list A) : bool := existsb p xs.

(** [Array.from(new Set(xs))]: the first occurrence of every element, in
    insertion order. *)
Fixpoint dedupeFrom (seen : list string) (xs : list string) : list string :=
  match xs with
  | [] => []
  | x :: rest =>
      if in_dec string_dec x seen then dedupeFrom seen rest
      else x :: dedupeFrom (x :: seen) rest
  end.

Definition arrayFromSet (xs : list string) : list string := dedupeFrom [] xs.

(** [a || b] on an optional string: [undefined] and the empty string are
    falsy. *)
Definition orElse (a : option string) (b : string) : string :=
  match a with
  | None => b
  | Some EmptyString => b
  | Some s => s
  end.

(** [!s] on an optional string. *)
Definition falsy (a : option string) : bool :=
  match a with
  | None => true
  | Some EmptyString => true
  | Some _ => false
  end.

(** Template-literal rendering of a non-negative integer. *)
Definition showNat (n : nat) : string := NilEmpty.string_of_uint (Nat.to_uint n).

(** The numbers of the rule engine: integers, or NaN where an operand is
    not numeric. *)
Inductive num : Type :=
| Num (z : Z)
| NaN.

Definition sub (a b : num) : num :=
  match a, b with
  | Num x, Num y => Num (x - y)
  | _, _ => NaN
  end.

(** [Math.abs] *)
Definition abs (a : num) : num :=
  match a with
  | Num x => Num (Z.abs x)
  | NaN => NaN
  end.

(** [a >= b]; false when either side is NaN. *)
Definition ge (a b : num) : bool :=
  match a, b with
  | Num x, Num y => (y <=? x)%Z
  | _, _ => false
  end.

(** [a === b] on numbers; false when either side is NaN. *)
Definition strictEq (a b : num) : bool :=
  match a, b with
  | Num x, Num y => (x =? y)%Z
  | _, _ => false
  end.

End Js.

(* ================================================================== *)
(** * shared/schema.ts *)
(* ================================================================== *)

Inductive ValuesAlignment := Aligned | PartiallyAligned | Misaligned.
Inductive RatingConsistency := Consistent | Inconsistent.
Inductive AIRecommendation := GREEN | RED.
Inductive JobStatus := queued | running | done | error.

Record AnalysisResult := {
  r_employeeId : string;
  biasAssessment : string;
  valuesAlignment : ValuesAlignment;
  ratingConsistency : RatingConsistency;
  ratingConsistencyRationale : string;
  aiRecommendation : AIRecommendation;
  flagsTriggered : list string;
}.

Record EmployeeData := {
  employeeId : string;
  goalEmployeeRating : option string;
  goalManagerRating : option string;
  valuesEmployeeRating : option string;
  valuesManagerRating : option string;
  overallRatingEmployee : option string;
  overallRatingManager : option string;
  managerComments : option string;
}.

Definition showValuesAlignment (v : ValuesAlignment) : string :=
  match v with
  | Aligned => "Aligned"
  | PartiallyAligned => "Partially aligned"
  | Misaligned => "Misaligned"
  end.

Definition showRatingConsistency (c : RatingConsistency) : string :=
  match c with
  | Consistent => "Consistent"
  | Inconsistent => "Inconsistent"
  end.

Definition showRecommendation (r : AIRecommendation) : string :=
  match r with
  | GREEN => "GREEN"
  | RED => "RED"
  end.

(* ================================================================== *)
(** * server/llm/provider.ts: the rule engine *)
(* ================================================================== *)

Module Provider.

(** The own properties of the object literal [ratingMap]. *)
Definition ratingMap : list (string * Z) :=
  [ ("does not meet expectations", 1%Z);
    ("does not meet", 1%Z);
    ("below expectations", 1%Z);
    ("below", 1%Z);
    ("needs improvement", 1%Z);
    ("meets expectations", 2%Z);
    ("meets", 2%Z);
    ("meeting expectations", 2%Z);
    ("meeting", 2%Z);
    ("satisfactory", 2%Z);
    ("exceeds expectations", 3%Z);
    ("exceeds", 3%Z);
    ("exceeding expectations", 3%Z);
    ("exceeding", 3%Z);
    ("outstanding", 3%Z);
    ("exceptional", 3%Z) ].

(** [ratingMap] is a plain object, so [ratingMap[k]] also finds the members
    of [Object.prototype].  A key that went through [toLowerCase] can only
    name the two members spelt without capitals. *)
Definition inheritedKeys : list string := [ "constructor"; "__proto__" ].

(** What [ratingMap[k]] evaluates to when it is not [undefined]: one of the
    sixteen ordinals, or an inherited member (a function or an object,
    which arithmetic turns into NaN). *)
Inductive RatingValue : Type :=
| Ordinal (n : Z)
| Inherited.

Fixpoint ownProperty (k : string) (m : list (string * Z)) : option Z :=
  match m with
  | [] => None
  | (k', v) :: rest => if string_dec k k' then Some v else ownProperty k rest
  end.

(** [ratingMap[k]], with [None] for [undefined]. *)
Definition getRating (k : string) : option RatingValue :=
  match ownProperty k ratingMap with
  | Some n => Some (Ordinal n)
  | None => if in_dec string_dec k inheritedKeys then Some Inherited else None
  end.

Definition toNumber (v : RatingValue) : Js.num :=
  match v with
  | Ordinal n => Js.Num n
  | Inherited => Js.NaN
  end.

(** The closure [normalizeRating]: it returns the rating ([None] for
    [null]) and pushes onto the captured array [flags], which is threaded
    through here. *)
Definition normalizeRating (flags : list string) (rating : option string)
  : option RatingValue * list string :=
  if Js.falsy rating then (None, flags)
  else
    match rating with
    | None => (None, flags)
    | Some r =>
        let normalized := Js.trim (Js.toLowerCase r) in
        match getRating normalized with
        | Some v => (Some v, flags)
        | None => (None, flags ++ ["UnknownRatingLabel"])
        end
    end.

(** [emp !== null && mgr !== null && Math.abs(emp - mgr) >= 2] *)
Definition twoLevelsApart (emp mgr : option RatingValue) : bool :=
  match emp, mgr with
  | Some e, Some m => Js.ge (Js.abs (Js.sub (toNumber e) (toNumber m))) (Js.Num 2)
  | _, _ => false
  end.

Definition loadedTerms : list string :=
  [ "abrasive"; "emotional"; "not a culture fit"; "too aggressive";
    "lacks executive presence"; "difficult"; "temperamental" ].

Definition policySensitiveTerms : list string :=
  [ "medical"; "disability"; "pregnant"; "pregnancy"; "religion"; "religious";
    "race"; "racial"; "age"; "gender"; "gender identity"; "harassment";
    "discrimination"; "retaliation"; "ada"; "fmla"; "eeoc" ].

Definition hasLoadedLanguage (comments : string) : bool :=
  Js.some (fun term => Js.includes comments term) loadedTerms.

Definition hasConcreteEvidence (comments : string) : bool :=
  Js.includes comments "example" || Js.includes comments "instance" ||
  Js.includes comments "specifically" || Js.includes comments "on [date]" ||
  Js.dateLikeTest comments.

Definition hasPolicySensitive (comments : string) : bool :=
  Js.some (fun term => Js.includes comments term) policySensitiveTerms.

(** [ratings.some((r1, i) => ratings.slice(i + 1).some(r2 => |r1 - r2| >= 2))] *)
Fixpoint hasLargeDiff (ratings : list RatingValue) : bool :=
  match ratings with
  | [] => false
  | r1 :: later =>
      Js.some (fun r2 => Js.ge (Js.abs (Js.sub (toNumber r1) (toNumber r2))) (Js.Num 2)) later
      || hasLargeDiff later
  end.

(** [[...].filter(r => r !== null)] *)
Fixpoint nonNull (rs : list (option RatingValue)) : list RatingValue :=
  match rs with
  | [] => []
  | Some r :: rest => r :: nonNull rest
  | None :: rest => nonNull rest
  end.

(** [!employee.managerComments || employee.managerComments.trim().length < 20] *)
Definition narrativeInsufficient (managerComments : option string) : bool :=
  Js.falsy managerComments ||
  match managerComments with
  | Some c => (String.length (Js.trim c) <? 20)%nat
  | None => true
  end.

(** One [if (cond) { flags.push(flag); recommendation = "RED"; }]. *)
Definition escalateIf (cond : bool) (flag : string)
  (st : list string * AIRecommendation) : list string * AIRecommendation :=
  if cond then (fst st ++ [flag], RED) else st.

(** [MockLLMProvider.analyze], without its artificial delay.  The final
    [analysisResultSchema.parse(result)] validates a value that has the
    schema's shape by construction and returns it. *)
Definition analyze (employee : EmployeeData) : AnalysisResult :=
  let flags : list string := [] in
  let recommendation := GREEN in
  let '(overallEmp, flags) := normalizeRating flags (overallRatingEmployee employee) in
  let '(overallMgr, flags) := normalizeRating flags (overallRatingManager employee) in
  let '(goalEmp, flags) := normalizeRating flags (goalEmployeeRating employee) in
  let '(goalMgr, flags) := normalizeRating flags (goalManagerRating employee) in
  let '(valuesEmp, flags) := normalizeRating flags (valuesEmployeeRating employee) in
  let '(valuesMgr, flags) := normalizeRating flags (valuesManagerRating employee) in
  let st := (flags, recommendation) in
  let st := escalateIf (twoLevelsApart overallEmp overallMgr)
              "RatingMismatch_Overall_2+Levels" st in
  let st := escalateIf (twoLevelsApart goalEmp goalMgr)
              "RatingMismatch_Goals_2+Levels" st in
  let st := escalateIf (twoLevelsApart valuesEmp valuesMgr)
              "RatingMismatch_Values_2+Levels" st in
  let comments := Js.toLowerCase (Js.orElse (managerComments employee) EmptyString) in
  let st := escalateIf (narrativeInsufficient (managerComments employee))
              "NarrativeInsufficient" st in
  let st := escalateIf (hasLoadedLanguage comments && negb (hasConcreteEvidence comments))
              "LoadedLanguage_NoEvidence" st in
  let st := escalateIf (hasPolicySensitive comments)
              "PolicySensitive_EscalateHR" st in
  let ratings := nonNull [overallEmp; overallMgr; goalEmp; goalMgr; valuesEmp; valuesMgr] in
  let '(ratingConsistency, ratingConsistencyRationale) :=
    if (2 <=? List.length ratings)%nat && hasLargeDiff ratings
    then (Inconsistent,
          "Significant variance detected between employee and manager ratings.")
    else (Consistent,
          "All ratings appear consistent within expected variance.") in
  let valuesAlignment :=
    match valuesEmp, valuesMgr with
    | Some e, Some m =>
        let diff := Js.abs (Js.sub (toNumber e) (toNumber m)) in
        if Js.ge diff (Js.Num 2) then Misaligned
        else if Js.strictEq diff (Js.Num 1) then PartiallyAligned
        else Aligned
    | _, _ => Aligned
    end in
  let biasAssessment :=
    "No significant bias indicators detected in the review narrative." in
  let biasAssessment :=
    if hasLoadedLanguage comments
    then "Potential bias indicators present: subjective language used without supporting evidence."
    else biasAssessment in
  let biasAssessment :=
    if hasPolicySensitive comments
    then "Policy-sensitive content detected - requires HR review for compliance."
    else biasAssessment in
  {| r_employeeId := employeeId employee;
     biasAssessment := biasAssessment;
     valuesAlignment := valuesAlignment;
     ratingConsistency := ratingConsistency;
     ratingConsistencyRationale := ratingConsistencyRationale;
     aiRecommendation := snd st;
     flagsTriggered := Js.arrayFromSet (fst st) |}.

End Provider.

(* ================================================================== *)
(** * Numbers of the progress formula *)
(* ================================================================== *)

(** [Math.round(10 + ((i + 1) / totalEmployees) * 70)] divides, so its
    intermediate values are binary64 numbers that need not be integers.
    The orchestrator is written over the operations it uses; [Binary64]
    below gives them their IEEE 754 meaning and [ExactArith] the meaning
    they have over the rationals. *)
Class JsNumber (F : Type) : Type := {
  (** a non-negative integer as a number *)
  ofNat : nat -> F;
  fadd : F -> F -> F;
  fmul : F -> F -> F;
  fdiv : F -> F -> F;
  (** [x <= y] *)
  fle : F -> F -> Prop;
  (** [Math.round(x)] for a finite [x] *)
  mathRound : F -> Z;
}.

(** IEEE 754 binary64, round to nearest even, after the executable
    specification [SpecFloat] of the Standard Library. *)
Module Binary64.

Definition prec : Z := 53.
Definition emax : Z := 1024.

Definition fromNat (n : nat) : spec_float :=
  binary_normalize prec emax (Z.of_nat n) 0 false.

(** [Math.round]: the integer nearest to [x], ties towards plus infinity,
    which is the floor of [x + 1/2] computed exactly.  A finite number is
    [m * 2^e].  (On infinities and NaN [Math.round] returns its argument,
    which is no integer; those get 0 here.) *)
Definition round (x : spec_float) : Z :=
  match x with
  | S754_finite s m e =>
      let v := cond_Zopp s (Zpos m) in
      match e with
      | Zneg p => ((2 * v + 2 ^ Zpos p) / 2 ^ (Zpos p + 1))%Z
      | _ => (v * 2 ^ e)%Z
      end
  | _ => 0%Z
  end.

#[export] Instance binary64 : JsNumber spec_float := {|
  ofNat := fromNat;
  fadd := SFadd prec emax;
  fmul := SFmul prec emax;
  fdiv := SFdiv prec emax;
  fle := fun x y => SFleb x y = true;
  mathRound := round;
|}.

End Binary64.

(** Exact arithmetic over the rationals. *)
Module ExactArith.

Definition fromNat (n : nat) : Q := inject_Z (Z.of_nat n).

(** [Math.round]: the floor of [x + 1/2]. *)
Definition round (x : Q) : Z := Qfloor (x + (1 # 2)).

#[export] Instance exactNumber : JsNumber Q := {|
  ofNat := fromNat;
  fadd := Qplus;
  fmul := Qmult;
  fdiv := Qdiv;
  fle := Qle;
  mathRound := round;
|}.

End ExactArith.

(* ================================================================== *)
(** * Effects: the job row, thrown exceptions and the event trace *)
(* ================================================================== *)

(** A thrown value: an [Error] with its message, or anything else. *)
Inductive Exn : Type :=
| ErrorObject (message : string)
| OtherValue.

(** [error instanceof Error ? error.message : dflt] *)
Definition errorMessageOr (e : Exn) (dflt : string) : string :=
  match e with
  | ErrorObject m => m
  | OtherValue => dflt
  end.

(** The row type of table [jobs]; [None] is SQL null. *)
Record Job := {
  id : string;
  reviewBatch : string;
  status : JobStatus;
  progress : Z;
  message : option string;
  resultFileName : option string;
  totalEmployees : option nat;
  processedEmployees : option nat;
  results : option (list AnalysisResult);
  createdAt : nat;
}.

(** [Partial<Job>] as [updateJob] reads it. *)
Record JobUpdate := {
  u_status : option JobStatus;
  u_progress : option Z;
  u_message : option string;
  u_resultFileName : option string;
  u_totalEmployees : option nat;
  u_processedEmployees : option nat;
}.

Module Excel.

Record Column := { header : string; key : string; width : nat }.

(** A cell: its value ([None] for an empty cell) and the ARGB colour of
    its solid fill, if any.  Fonts are not modelled. *)
Record Cell := { value : option string; fill : option string }.

Definition Row := list Cell.

Record Worksheet := {
  name : string;
  columns : list Column;
  rows : list Row;                            (* row 1 first *)
  autoFilter : (nat * nat) * (nat * nat);     (* from (row, column) to (row, column) *)
}.

End Excel.

(** The item sent to SharePoint, without [submittedAt] (the clock). *)
Record RunHistoryItem := {
  h_reviewBatch : string;
  h_runId : string;
  h_submittedBy : string;
  h_fileName : string;
  h_totalEmployees : nat;
  h_redCount : nat;
  h_greenCount : nat;
  h_status : string;
  h_outputFileUrl : string;
  h_errorMessage : option string;
}.

Inductive AuditEvent : Type :=
| ANALYSIS_STARTED (jobId : string)
| ANALYSIS_COMPLETED (jobId : string) (totalEmployees redCount greenCount : nat)
| ANALYSIS_FAILED (jobId : string) (error : string)
| SHAREPOINT_WRITE_SUCCESS (jobId : string)
| SHAREPOINT_WRITE_FAILED (jobId : string) (error : string).

(** What the orchestrator does to the outside, in order. *)
Inductive Event : Type :=
| JobUpdated (u : JobUpdate)
| ResultsStored (rs : list AnalysisResult)
| FileWritten (filePath : string) (sheet : Excel.Worksheet)
| Audited (e : AuditEvent)
| HistoryRecorded (item : RunHistoryItem).

(** [processJob] always addresses the row whose id is its [jobId]; that
    row is [job].  [dbCalls] counts the statements sent to the database. *)
Record World := {
  job : Job;
  dbCalls : nat;
  trace : list Event;
}.

Record ParseResult := {
  p_success : bool;
  p_employees : option (list EmployeeData);
  p_error : option string;
}.

(** The collaborators of one run of [processJob]. *)
Record Env := {
  (** [parseExcelFile(buffer)], which catches its own exceptions *)
  parseExcelFile : string -> ParseResult;
  (** [llmProvider.analyze]: the result, or the exception it throws *)
  llmProvider : EmployeeData -> Exn + AnalysisResult;
  (** the exception thrown by the k-th database statement, if any *)
  dbFault : nat -> option Exn;
  (** the exception thrown while writing the workbook, if any *)
  fsFault : option Exn;
  (** [process.cwd()] *)
  cwd : string;
  (** [None] when SharePoint is not configured, else the exception
      [createRunHistory] throws for an item, if any *)
  sharePoint : option (RunHistoryItem -> option Exn);
}.

(** Computations that read and change the world and may throw. *)
Definition M (A : Type) : Type := World -> (Exn + A) * World.

Definition ret {A} (a : A) : M A := fun w => (inr a, w).

Definition bind {A B} (m : M A) (k : A -> M B) : M B :=
  fun w =>
    match m w with
    | (inl e, w') => (inl e, w')
    | (inr a, w') => k a w'
    end.

Definition throw {A} (e : Exn) : M A := fun w => (inl e, w).

(** [try { body } catch (error) { handler }] *)
Definition tryCatch {A} (body : M A) (handler : Exn -> M A) : M A :=
  fun w =>
    match body w with
    | (inl e, w') => handler e w'
    | (inr a, w') => (inr a, w')
    end.

Definition emit (ev : Event) : M unit :=
  fun w => (inr tt, {| job := job w; dbCalls := dbCalls w; trace := trace w ++ [ev] |}).

Declare Scope monad_scope.
Delimit Scope monad_scope with monad.
Notation "x <- m ;; k" := (bind m (fun x => k))
  (at level 61, m at next level, right associativity) : monad_scope.
Notation "m ;; k" := (bind m (fun _ => k))
  (at level 61, right associativity) : monad_scope.

Local Open Scope monad_scope.

(* ================================================================== *)
(** * Paths *)
(* ================================================================== *)

(** [path.join] of Node.js on POSIX, with the [path.normalize] it ends
    in.  [normalizeString] reads the path one segment at a time; the
    segments are the pieces between the slashes. *)
Module Path.

(** The segments of [path]: what stands between its slashes. *)
Fixpoint split (path : string) : list string :=
  match path with
  | EmptyString => [EmptyString]
  | String c rest =>
      if Ascii.eqb c "/" then EmptyString :: split rest
      else match split rest with
           | seg :: segs => String c seg :: segs
           | [] => [String c EmptyString]
           end
  end.

(** One segment in [normalizeString].  [res] holds the segments kept so
    far, the last one first.  An empty segment and [.] are dropped; [..]
    removes the segment before it, and where there is none to remove it
    stays, in a relative path only. *)
Definition resolveSegment (allowAboveRoot : bool) (res : list string) (seg : string)
  : list string :=
  if (seg =? EmptyString) || (seg =? ".") then res
  else if seg =? ".." then
    match res with
    | last :: before =>
        if last =? ".." then (if allowAboveRoot then ".." :: res else res)
        else before
    | [] => if allowAboveRoot then [".."] else []
    end
  else seg :: res.

Definition resolve (allowAboveRoot : bool) (path : string) : list string :=
  fold_left (resolveSegment allowAboveRoot) (split path) [].

Definition render (res : list string) : string := String.concat "/" (rev res).

Definition isAbsolute (path : string) : bool :=
  match path with
  | String c _ => Ascii.eqb c "/"
  | EmptyString => false
  end.

Fixpoint endsWithSlash (path : string) : bool :=
  match path with
  | EmptyString => false
  | String c EmptyString => Ascii.eqb c "/"
  | String _ rest => endsWithSlash rest
  end.

(** The end of [normalize], from the kept segments. *)
Definition finish (absolute trailingSeparator : bool) (res : list string) : string :=
  let path := render res in
  if path =? EmptyString then
    if absolute then "/" else if trailingSeparator then "./" else "."
  else
    let path := if trailingSeparator then (path ++ "/")%string else path in
    if absolute then ("/" ++ path)%string else path.

(** [path.normalize(path)] *)
Definition normalize (path : string) : string :=
  if path =? EmptyString then "."
  else
    let absolute := isAbsolute path in
    finish absolute (endsWithSlash path) (resolve (negb absolute) path).

(** [path.join(...paths)]: the arguments that are not empty, joined by
    slashes and normalized. *)
Definition join (paths : list string) : string :=
  match filter (fun p => negb (p =? EmptyString)) paths with
  | [] => "."
  | parts => normalize (String.concat "/" parts)
  end.

End Path.

(* ================================================================== *)
(** * server/excel/writer.ts *)
(* ================================================================== *)

Module Writer.
Import Excel.

Record WriteResult := {
  success : bool;
  filePath : option string;
  fileName : option string;
  error : option string;
}.

(** [worksheet.columns = [...]] *)
Definition resultColumns : list Column :=
  [ {| header := "ReviewBatch"; key := "reviewBatch"; width := 25 |};
    {| header := "EmployeeId"; key := "employeeId"; width := 15 |};
    {| header := "AI_Output"; key := "aiOutput"; width := 80 |};
    {| header := "AI_Recommendation"; key := "aiRecommendation"; width := 20 |};
    {| header := "ReviewStatus"; key := "reviewStatus"; width := 15 |};
    {| header := "ReviewerNotes"; key := "reviewerNotes"; width := 30 |};
    {| header := "FlagsTriggered"; key := "flagsTriggered"; width := 40 |} ].

(** Setting [columns] writes the headers into row 1; [headerRow.fill]
    colours its cells. *)
Definition headerRow (cols : list Column) : Row :=
  map (fun c => {| value := Some (header c); fill := Some "FF4472C4" |}) cols.

Fixpoint property (k : string) (obj : list (string * string)) : option string :=
  match obj with
  | [] => None
  | (k', v) :: rest => if string_dec k k' then Some v else property k rest
  end.

(** [worksheet.addRow(obj)]: one cell per column, holding the property of
    [obj] named by the column's key. *)
Definition addRow (cols : list Column) (obj : list (string * string)) : Row :=
  map (fun c => {| value := property (key c) obj; fill := None |}) cols.

(** [row.getCell(k).fill = solid colour] *)
Fixpoint fillCell (cols : list Column) (k : string) (argb : string) (row : Row) : Row :=
  match cols, row with
  | c :: cols', cell :: row' =>
      (if string_dec (key c) k then {| value := value cell; fill := Some argb |} else cell)
      :: fillCell cols' k argb row'
  | _, _ => row
  end.

(** The template literal assigned to [aiOutput]. *)
Definition aiOutput (result : AnalysisResult) : string :=
  ("Bias Assessment: " ++ biasAssessment result ++
   " | Values Alignment: " ++ showValuesAlignment (valuesAlignment result) ++
   " | Rating Consistency: " ++ showRatingConsistency (ratingConsistency result) ++
   " (" ++ ratingConsistencyRationale result ++ ")")%string.

(** The body of [for (const result of results)]. *)
Definition resultRow (reviewBatch : string) (result : AnalysisResult) : Row :=
  let row := addRow resultColumns
    [ ("reviewBatch", reviewBatch);
      ("employeeId", r_employeeId result);
      ("aiOutput", aiOutput result);
      ("aiRecommendation", showRecommendation (aiRecommendation result));
      ("reviewStatus", "Pending");
      ("reviewerNotes", EmptyString);
      ("flagsTriggered", Js.join ", " (flagsTriggered result)) ] in
  match aiRecommendation result with
  | RED => fillCell resultColumns "aiRecommendation" "FFFF6B6B" row
  | GREEN => fillCell resultColumns "aiRecommendation" "FF51CF66" row
  end.

(** The worksheet as it stands when the workbook is written. *)
Definition resultsWorksheet (reviewBatch : string) (results : list AnalysisResult)
  : Worksheet :=
  {| name := "Analysis Results";
     columns := resultColumns;
     rows := headerRow resultColumns :: map (resultRow reviewBatch) results;
     autoFilter := ((1, 1), (List.length results + 1, 7))%nat |}.

(** The rows after the header row. *)
Definition dataRows (sheet : Worksheet) : list Row := tl (rows sheet).

Definition cellValues (row : Row) : list (option string) := map value row.

Section WithEnv.
Variable env : Env.

(** [generateResultsExcel]: the file system is the only part that can
    throw, and the function's own [catch] turns that into a failed
    [WriteResult]. *)
Definition generateResultsExcel (reviewBatch : string) (results : list AnalysisResult)
  (jobId : string) : M WriteResult :=
  tryCatch
    (let tmpDir := Path.join [cwd env; "tmp"] in
     let fileName := ("analysis-results-" ++ jobId ++ ".xlsx")%string in
     let filePath := Path.join [tmpDir; fileName] in
     let worksheet := resultsWorksheet reviewBatch results in
     match fsFault env with
     | Some e => throw e
     | None =>
         emit (FileWritten filePath worksheet) ;;
         ret {| success := true; filePath := Some filePath;
                fileName := Some fileName; error := None |}
     end)
    (fun e =>
       ret {| success := false; filePath := None; fileName := None;
              error := Some ("Failed to generate results Excel: " ++
                             errorMessageOr e "Unknown error")%string |}).

End WithEnv.
End Writer.

(* ================================================================== *)
(** * server/storage.ts *)
(* ================================================================== *)

Module Storage.

Definition orKeep {A} (u : option A) (old : A) : A :=
  match u with
  | Some v => v
  | None => old
  end.

Definition orKeepOpt {A} (u : option A) (old : option A) : option A :=
  match u with
  | Some v => Some v
  | None => old
  end.

(** The [set] clause [updateJob] builds: only the fields of [updates] that
    are not [undefined] are assigned. *)
Definition applyUpdate (updates : JobUpdate) (j : Job) : Job :=
  {| id := id j;
     reviewBatch := reviewBatch j;
     status := orKeep (u_status updates) (status j);
     progress := orKeep (u_progress updates) (progress j);
     message := orKeepOpt (u_message updates) (message j);
     resultFileName := orKeepOpt (u_resultFileName updates) (resultFileName j);
     totalEmployees := orKeepOpt (u_totalEmployees updates) (totalEmployees j);
     processedEmployees := orKeepOpt (u_processedEmployees updates) (processedEmployees j);
     results := results j;
     createdAt := createdAt j |}.

Definition setResults (rs : list AnalysisResult) (j : Job) : Job :=
  {| id := id j;
     reviewBatch := reviewBatch j;
     status := status j;
     progress := progress j;
     message := message j;
     resultFileName := resultFileName j;
     totalEmployees := totalEmployees j;
     processedEmployees := processedEmployees j;
     results := Some rs;
     createdAt := createdAt j |}.

(** The row [createJob] inserts. *)
Definition createJob (newId : string) (now : nat) (batch : string) : Job :=
  {| id := newId;
     reviewBatch := batch;
     status := queued;
     progress := 0;
     message := None;
     resultFileName := None;
     totalEmployees := None;
     processedEmployees := None;
     results := None;
     createdAt := now |}.

Section WithEnv.
Variable env : Env.

(** One statement on the job's row: it throws when the database does, and
    otherwise changes the row and is recorded. *)
Definition statement (change : Job -> Job) (ev : Event) : M unit :=
  fun w =>
    match dbFault env (dbCalls w) with
    | Some e => (inl e, {| job := job w; dbCalls := S (dbCalls w); trace := trace w |})
    | None => (inr tt, {| job := change (job w); dbCalls := S (dbCalls w);
                          trace := trace w ++ [ev] |})
    end.

Definition updateJob (updates : JobUpdate) : M unit :=
  statement (applyUpdate updates) (JobUpdated updates).

Definition storeJobResults (rs : list AnalysisResult) : M unit :=
  statement (setResults rs) (ResultsStored rs).

End WithEnv.
End Storage.

(* ================================================================== *)
(** * server/routes.ts *)
(* ================================================================== *)

Module Routes.
Import Storage.

(** The object literal [{ status, progress, message }] passed to [updateJob]. *)
Definition statusUpdate (s : JobStatus) (p : Z) (m : string) : JobUpdate :=
  {| u_status := Some s; u_progress := Some p; u_message := Some m;
     u_resultFileName := None; u_totalEmployees := None;
     u_processedEmployees := None |}.

(** The result pushed in the [catch] of the per-employee [try]. *)
Definition analysisFailed (employee : EmployeeData) : AnalysisResult :=
  {| r_employeeId := employeeId employee;
     biasAssessment := "Analysis failed";
     valuesAlignment := Misaligned;
     ratingConsistency := Inconsistent;
     ratingConsistencyRationale := "Unable to complete analysis";
     aiRecommendation := RED;
     flagsTriggered := ["AnalysisError"] |}.

Definition isRed (r : AnalysisResult) : bool :=
  match aiRecommendation r with RED => true | GREEN => false end.

Definition isGreen (r : AnalysisResult) : bool :=
  match aiRecommendation r with GREEN => true | RED => false end.

Section WithEnv.
Context {F : Type} {arith : JsNumber F}.
Variable env : Env.

(** [Math.round(10 + ((i + 1) / totalEmployees) * 70)] *)
Definition progressAfter (i totalEmployees : nat) : Z :=
  mathRound (fadd (ofNat 10)
                  (fmul (fdiv (ofNat (i + 1)) (ofNat totalEmployees)) (ofNat 70))).

(** The per-employee [try { push(await analyze) } catch { push(failed) }]:
    the element pushed onto [results]. *)
Definition analyzeOrFail (employee : EmployeeData) : AnalysisResult :=
  match llmProvider env employee with
  | inr result => result
  | inl _ => analysisFailed employee
  end.

Definition audit (e : AuditEvent) : M unit := emit (Audited e).

Definition recordSharePointHistory (jobId batch file : string)
  (total redCount greenCount : nat) (st : string) (errorMessage : option string)
  : M unit :=
  match sharePoint env with
  | None => ret tt
  | Some createRunHistory =>
      let item :=
        {| h_reviewBatch := batch; h_runId := jobId; h_submittedBy := "System";
           h_fileName := file; h_totalEmployees := total;
           h_redCount := redCount; h_greenCount := greenCount; h_status := st;
           h_outputFileUrl := ("/api/jobs/" ++ jobId ++ "/download")%string;
           h_errorMessage := errorMessage |} in
      tryCatch
        (match createRunHistory item with
         | Some e => throw e
         | None => emit (HistoryRecorded item)
         end ;;
         audit (SHAREPOINT_WRITE_SUCCESS jobId))
        (fun e => audit (SHAREPOINT_WRITE_FAILED jobId (errorMessageOr e "Unknown error")))
  end.

(** The [for] loop of [processJob], from index [i] on: [pending] is
    [employees.slice(i)] and [results] the array built so far. *)
Fixpoint analyzeFrom (totalEmployees i : nat) (pending : list EmployeeData)
  (results : list AnalysisResult) : M (list AnalysisResult) :=
  match pending with
  | [] => ret results
  | employee :: rest =>
      let results := results ++ [analyzeOrFail employee] in
      let progress := progressAfter i totalEmployees in
      updateJob env
        {| u_status := None; u_progress := Some progress;
           u_message := Some ("Analyzed " ++ Js.showNat (i + 1) ++ " of " ++
                              Js.showNat totalEmployees ++ " employees...")%string;
           u_resultFileName := None; u_totalEmployees := None;
           u_processedEmployees := Some (i + 1)%nat |} ;;
      analyzeFrom totalEmployees (S i) rest results
  end.

(** The statements of [processJob] after a successful parse. *)
Definition analyzeAndWrite (jobId batch file : string) (employees : list EmployeeData)
  : M unit :=
  let totalEmployees := List.length employees in
  updateJob env
    {| u_status := Some running; u_progress := Some 10%Z;
       u_message := Some ("Found " ++ Js.showNat totalEmployees ++
                          " employees. Starting analysis...")%string;
       u_resultFileName := None; u_totalEmployees := Some totalEmployees;
       u_processedEmployees := Some 0%nat |} ;;
  results <- analyzeFrom totalEmployees 0 employees [] ;;
  updateJob env
    {| u_status := None; u_progress := Some 85%Z;
       u_message := Some "Generating results Excel file...";
       u_resultFileName := None; u_totalEmployees := None;
       u_processedEmployees := None |} ;;
  writeResult <- Writer.generateResultsExcel env batch results jobId ;;
  if negb (Writer.success writeResult) then
    let errorMsg := Js.orElse (Writer.error writeResult) "Failed to generate results file" in
    updateJob env (statusUpdate error 0 errorMsg) ;;
    audit (ANALYSIS_FAILED jobId errorMsg) ;;
    recordSharePointHistory jobId batch file totalEmployees 0 0 "Failed" (Some errorMsg)
  else
    storeJobResults env results ;;
    let redCount := List.length (filter isRed results) in
    let greenCount := List.length (filter isGreen results) in
    updateJob env
      {| u_status := Some done; u_progress := Some 100%Z;
         u_message := Some "Analysis complete";
         u_resultFileName := Writer.fileName writeResult;
         u_totalEmployees := None; u_processedEmployees := None |} ;;
    audit (ANALYSIS_COMPLETED jobId totalEmployees redCount greenCount) ;;
    recordSharePointHistory jobId batch file totalEmployees redCount greenCount
      "Completed" None.

(** [processJob(jobId, buffer, reviewBatch, fileName)] *)
Definition processJob (jobId buffer batch file : string) : M unit :=
  tryCatch
    (audit (ANALYSIS_STARTED jobId) ;;
     updateJob env (statusUpdate running 5 "Parsing Excel file...") ;;
     let parseResult := parseExcelFile env buffer in
     match p_success parseResult, p_employees parseResult with
     | true, Some employees => analyzeAndWrite jobId batch file employees
     | _, _ =>
         let errorMsg := Js.orElse (p_error parseResult) "Failed to parse Excel file" in
         updateJob env (statusUpdate error 0 errorMsg) ;;
         audit (ANALYSIS_FAILED jobId errorMsg) ;;
         recordSharePointHistory jobId batch file 0 0 0 "Failed" (Some errorMsg)
     end)
    (fun e =>
       let errorMsg := errorMessageOr e "An unexpected error occurred" in
       updateJob env (statusUpdate error 0 errorMsg) ;;
       audit (ANALYSIS_FAILED jobId errorMsg)).

(** The job row and the trace once [processJob] has settled, for a job
    that [createJob] has just inserted. *)
Definition initialWorld (jobId : string) (now : nat) (batch : string) : World :=
  {| job := createJob jobId now batch; dbCalls := 0; trace := [] |}.

Definition runJob (jobId : string) (now : nat) (buffer batch file : string)
  : (Exn + unit) * World :=
  processJob jobId buffer batch file (initialWorld jobId now batch).

End WithEnv.

(** The values of [progress] written to the job's row, in order. *)
Definition progressWrites (tr : list Event) : list Z :=
  flat_map (fun ev =>
              match ev with
              | JobUpdated u =>
                  match u_progress u with Some p => [p] | None => [] end
              | _ => []
              end) tr.

(** The values of [status] written to the job's row, in order. *)
Definition statusWrites (tr : list Event) : list JobStatus :=
  flat_map (fun ev =>
              match ev with
              | JobUpdated u =>
                  match u_status u with Some s => [s] | None => [] end
              | _ => []
              end) tr.

End Routes.

(* ================================================================== *)
(** * server/excel/parser.ts *)
(* ================================================================== *)

(** [columnAliases] of shared/schema.ts. *)
Module ColumnAliases.

Definition employeeId : list string :=
  [ "employeeid"; "employee_id"; "emp_id"; "empid"; "id"; "employee id"; "employee" ].
Definition goalEmployeeRating : list string :=
  [ "goal employee rating"; "goals employee rating"; "goal_employee_rating";
    "goals_employee_rating"; "employee goal rating" ].
Definition goalManagerRating : list string :=
  [ "goal manager rating"; "goals manager rating"; "goal_manager_rating";
    "goals_manager_rating"; "manager goal rating" ].
Definition valuesEmployeeRating : list string :=
  [ "values employee rating"; "value employee rating"; "values_employee_rating";
    "employee values rating" ].
Definition valuesManagerRating : list string :=
  [ "values manager rating"; "value manager rating"; "values_manager_rating";
    "manager values rating" ].
Definition overallRatingEmployee : list string :=
  [ "overall rating - employee"; "overall rating employee"; "overall_rating_employee";
    "employee overall rating"; "overall employee rating" ].
Definition overallRatingManager : list string :=
  [ "overall rating - manager"; "overall rating manager"; "overall_rating_manager";
    "manager overall rating"; "overall manager rating" ].
Definition managerComments : list string :=
  [ "manager comments"; "manager_comments"; "comments"; "manager feedback";
    "feedback"; "manager notes"; "notes" ].

End ColumnAliases.

Module Parser.

(** A cell value: [None] for [null], else the text [String(value)] of the
    cell.  A row is its cells from column 1 on; a worksheet is its rows
    from row 1 on. *)
Definition CellValue : Type := option string.
Definition SheetRow : Type := list CellValue.
Definition Sheet : Type := list SheetRow.

(** [s.replace(/\s+/g, " ")]: every run of white space becomes one
    blank.  [inRun] tells that the previous code unit was white space. *)
Fixpoint collapseFrom (inRun : bool) (s : string) : string :=
  match s with
  | EmptyString => EmptyString
  | String c s' =>
      if Js.isWhiteSpace c
      then (if inRun then collapseFrom true s' else String " " (collapseFrom true s'))
      else String c (collapseFrom false s')
  end.

Definition collapseWhiteSpace (s : string) : string := collapseFrom false s.

Definition normalizeColumnName (name : string) : string :=
  collapseWhiteSpace (Js.trim (Js.toLowerCase name)).

(** The test of [findColumnIndex] on one header: [headers[i]], or the
    empty string when that is falsy, is normalized and compared with
    every alias.  (A header cell holding 0
    or [false] reads as the empty string in the source and as its text
    here; neither matches an alias.) *)
Definition headerMatches (targetAliases : list string) (header : option string) : bool :=
  let normalized := normalizeColumnName (Js.orElse header EmptyString) in
  Js.some (fun alias => String.eqb normalized alias || Js.includes normalized alias)
          targetAliases.

(** The loop of [findColumnIndex] from index [i] on. *)
Fixpoint findColumnFrom (i : Z) (headers : list (option string))
  (targetAliases : list string) : Z :=
  match headers with
  | [] => (-1)%Z
  | header :: rest =>
      if headerMatches targetAliases header then i
      else findColumnFrom (i + 1) rest targetAliases
  end.

Definition findColumnIndex (headers : list (option string)) (targetAliases : list string)
  : Z :=
  findColumnFrom 0 headers targetAliases.

Record ColumnIndices := {
  c_employeeId : Z;
  c_goalEmployeeRating : Z;
  c_goalManagerRating : Z;
  c_valuesEmployeeRating : Z;
  c_valuesManagerRating : Z;
  c_overallRatingEmployee : Z;
  c_overallRatingManager : Z;
  c_managerComments : Z;
}.

Definition resolveColumns (headers : list (option string)) : ColumnIndices :=
  {| c_employeeId := findColumnIndex headers ColumnAliases.employeeId;
     c_goalEmployeeRating := findColumnIndex headers ColumnAliases.goalEmployeeRating;
     c_goalManagerRating := findColumnIndex headers ColumnAliases.goalManagerRating;
     c_valuesEmployeeRating := findColumnIndex headers ColumnAliases.valuesEmployeeRating;
     c_valuesManagerRating := findColumnIndex headers ColumnAliases.valuesManagerRating;
     c_overallRatingEmployee := findColumnIndex headers ColumnAliases.overallRatingEmployee;
     c_overallRatingManager := findColumnIndex headers ColumnAliases.overallRatingManager;
     c_managerComments := findColumnIndex headers ColumnAliases.managerComments |}.

(** The closure [getCellValue] of one row. *)
Definition getCellValue (row : SheetRow) (index : Z) : option string :=
  if (index =? -1)%Z then None
  else
    match nth_error row (Z.to_nat index) with
    | Some (Some value) => Some (Js.trim value)
    | _ => None
    end.

(** The callback of [worksheet.eachRow] for a row after row 1: the
    employee it pushes, if any. *)
Definition extractRow (ix : ColumnIndices) (row : SheetRow) : option EmployeeData :=
  let id := getCellValue row (c_employeeId ix) in
  if Js.falsy id then None
  else
    match id with
    | None => None
    | Some employeeId =>
        Some {| employeeId := employeeId;
                goalEmployeeRating := getCellValue row (c_goalEmployeeRating ix);
                goalManagerRating := getCellValue row (c_goalManagerRating ix);
                valuesEmployeeRating := getCellValue row (c_valuesEmployeeRating ix);
                valuesManagerRating := getCellValue row (c_valuesManagerRating ix);
                overallRatingEmployee := getCellValue row (c_overallRatingEmployee ix);
                overallRatingManager := getCellValue row (c_overallRatingManager ix);
                managerComments := getCellValue row (c_managerComments ix) |}
    end.

Fixpoint extractRows (ix : ColumnIndices) (rows : list SheetRow) : list EmployeeData :=
  match rows with
  | [] => []
  | row :: rest =>
      match extractRow ix row with
      | Some employee => employee :: extractRows ix rest
      | None => extractRows ix rest
      end
  end.

Definition failure (message : string) : ParseResult :=
  {| p_success := false; p_employees := None; p_error := Some message |}.

Definition missingIdColumn : string :=
  "EmployeeId column not found. Please ensure your Excel file has a column named 'EmployeeId', 'Employee ID', or similar.".

(** The body of [parseExcelFile] once the workbook is loaded. *)
Definition parseWorksheets (worksheets : list Sheet) : ParseResult :=
  match worksheets with
  | [] => failure "No worksheet found in the Excel file"
  | worksheet :: _ =>
      let headers := hd [] worksheet in
      let columnIndices := resolveColumns headers in
      if (c_employeeId columnIndices =? -1)%Z then failure missingIdColumn
      else
        let employees := extractRows columnIndices (tl worksheet) in
        if (List.length employees =? 0)%nat
        then failure "No employee data found in the Excel file"
        else {| p_success := true; p_employees := Some employees; p_error := None |}
  end.

(** [parseExcelFile]; [load] is [workbook.xlsx.load], which gives the
    worksheets of the workbook or throws. *)
Definition parseExcelFile (load : string -> Exn + list Sheet) (buffer : string)
  : ParseResult :=
  match load buffer with
  | inl e => failure ("Failed to parse Excel file: " ++ errorMessageOr e "Unknown error")
  | inr worksheets => parseWorksheets worksheets
  end.

End Parser.

(* ================================================================== *)
(** * server/storage.ts: statistics over the table *)
(* ================================================================== *)

Module JobTable.

Record JobStats := {
  totalAnalyzed : nat;
  totalRedFlags : nat;
  completedJobs : nat;
}.

(** [eq(jobs.status, "done")] *)
Definition isDone (j : Job) : bool :=
  match status j with
  | done => true
  | _ => false
  end.

(** The [for] loop of [getStats] over the selected rows; a row whose
    [results] column is null is skipped. *)
Fixpoint tally (completedJobs : list Job) (totalAnalyzed totalRedFlags : nat)
  : nat * nat :=
  match completedJobs with
  | [] => (totalAnalyzed, totalRedFlags)
  | job :: rest =>
      match results job with
      | Some rs =>
          tally rest (totalAnalyzed + List.length rs)
                     (totalRedFlags + List.length (filter Routes.isRed rs))
      | None => tally rest totalAnalyzed totalRedFlags
      end
  end.

(** [getStats], over the rows of table [jobs]. *)
Definition getStats (table : list Job) : JobStats :=
  let completed := filter isDone table in
  let totals := tally completed 0 0 in
  {| totalAnalyzed := fst totals;
     totalRedFlags := snd totals;
     completedJobs := List.length completed |}.

End JobTable.

(* ================================================================== *)
(** * server/routes.ts: the download of a result file *)
(* ================================================================== *)

Module Api.

(** What a handler sends: a status code with a JSON message, or the
    result file as an attachment. *)
Inductive Response : Type :=
| Json (code : nat) (message : string)
| Attachment (filePath fileName : string).

(** [GET /api/jobs/:jobId/download].  [getJob] is [storage.getJob],
    which gives the row, if any, or throws; [existsSync] is
    [fs.existsSync]. *)
Definition download (getJob : string -> Exn + option Job) (cwd : string)
  (existsSync : string -> bool) (jobId : string) : Response :=
  match getJob jobId with
  | inl _ => Json 500 "Internal server error"
  | inr None => Json 404 "Job not found"
  | inr (Some job) =>
      match status job with
      | done =>
          match resultFileName job with
          | None | Some EmptyString => Json 404 "Result file not found"
          | Some resultFileName =>
              let filePath := Path.join [cwd; "tmp"; resultFileName] in
              if negb (existsSync filePath)
              then Json 404 "Result file not found on disk"
              else Attachment filePath resultFileName
          end
      | _ => Json 400 "Job is not complete yet"
      end
  end.

End Api.

(* ================================================================== *)
(** * server/services/audit.ts: reading the log *)
(* ================================================================== *)

Module AuditLog.

(** One event of the log, as [JSON.parse] gives it back. *)
Record Entry := {
  entryId : string;
  timestamp : string;
  eventType : string;
  details : string;
}.

(** [xs.slice(start)] for an integer [start]: a negative [start] counts
    from the end. *)
Definition sliceFrom {A} (start : Z) (xs : list A) : list A :=
  let len := Z.of_nat (List.length xs) in
  let from := if (start <? 0)%Z then Z.max (len + start) 0 else Z.min start len in
  skipn (Z.to_nat from) xs.

(** [lines.map(parse).filter(e => e !== null)]: a line is [None] when
    [JSON.parse] throws on it or gives [null]. *)
Fixpoint parsedEvents (lines : list (option Entry)) : list Entry :=
  match lines with
  | [] => []
  | Some e :: rest => e :: parsedEvents rest
  | None :: rest => parsedEvents rest
  end.

(** [getEvents(top, eventType)].  [log] is what reading the file gives:
    the exception thrown, [None] when the file does not exist, or its
    non-empty lines, oldest first. *)
Definition getEvents (top : Z) (eventType : option string)
  (log : Exn + option (list (option Entry))) : list Entry :=
  match log with
  | inl _ => []
  | inr None => []
  | inr (Some lines) =>
      let events := parsedEvents lines in
      let events :=
        if Js.falsy eventType then events
        else filter (fun e => String.eqb (AuditLog.eventType e)
                                (Js.orElse eventType EmptyString)) events in
      rev (sliceFrom (- top) events)
  end.

End AuditLog.

(* ================================================================== *)
(** * Safe integers *)
(* ================================================================== *)

(** The integers that binary64 holds exactly
    ([n <= Number.MAX_SAFE_INTEGER]). *)
Definition safe (n : nat) : Prop := (Z.of_nat n < 2 ^ 53)%Z.

(* ================================================================== *)
(** * Properties of the string operations *)
(* ================================================================== *)

Module JsFacts.
Import Js.

Lemma dedupeFrom_In (x : string) (xs seen : list string) :
  In x (dedupeFrom seen xs) <-> In x xs /\ ~ In x seen.
Proof.
  revert seen. induction xs as [|y ys IH]; intros seen; simpl.
  - tauto.
  - destruct (in_dec string_dec y seen) as [Hy|Hy].
    + rewrite IH. split.
      * intros [H1 H2]. auto.
      * intros [[->|H1] H2]; [contradiction | auto].
    + simpl. rewrite IH. simpl. split.
      * intros [->|[H1 H2]]; auto.
      * intros [[->|H1] H2]; [now left|].
        destruct (string_dec y x) as [->|Hne]; [now left|].
        right. split; [assumption|]. intros [E|E]; contradiction.
Qed.

(** [Array.from(new Set(xs))] has the elements of [xs]. *)
Lemma arrayFromSet_In (x : string) (xs : list string) :
  In x (arrayFromSet xs) <-> In x xs.
Proof.
  unfold arrayFromSet. rewrite dedupeFrom_In. simpl. tauto.
Qed.

Lemma orElse_empty (a : option string) :
  orElse a EmptyString = match a with Some s => s | None => EmptyString end.
Proof.
  destruct a as [[|c s]|]; reflexivity.
Qed.

(** A string that [toLowerCase] leaves alone. *)
Definition lowerCased (t : string) : Prop := toLowerCase t = t.

Lemma prefix_toLowerCase (t s : string) :
  lowerCased t -> String.prefix t s = true ->
  String.prefix t (toLowerCase s) = true.
Proof.
  unfold lowerCased. revert s. induction t as [|c t IH]; intros s Ht Hp.
  - destruct s; reflexivity.
  - destruct s as [|d s]; [discriminate|]. simpl in *.
    injection Ht as Hc Ht.
    destruct (ascii_dec c d) as [->|Hne]; [|discriminate].
    rewrite Hc. destruct (ascii_dec d d) as [_|Hne]; [|contradiction].
    now apply IH.
Qed.

(** A lower-case needle found in [s] is found in [s.toLowerCase()]. *)
Lemma includes_toLowerCase (s t : string) :
  lowerCased t -> includes s t = true -> includes (toLowerCase s) t = true.
Proof.
  intros Ht. induction s as [|c s IH]; simpl; intros H.
  - apply orb_true_iff in H. destruct H as [H|H]; [|discriminate].
    apply orb_true_iff. left. now apply (prefix_toLowerCase t EmptyString).
  - apply orb_true_iff in H. apply orb_true_iff. destruct H as [H|H].
    + left. now apply (prefix_toLowerCase t (String c s)).
    + right. now apply IH.
Qed.

Lemma some_true {A} (p : A -> bool) (xs : list A) (x : A) :
  In x xs -> p x = true -> some p xs = true.
Proof.
  intros Hin Hp. unfold some. apply existsb_exists. now exists x.
Qed.

(** The operations on concrete strings. *)
Example toLowerCase_mixed : toLowerCase "Exceeds EXPECTATIONS" = "exceeds expectations".
Proof. reflexivity. Qed.

Example trim_both_ends : trim "  Meets expectations   " = "Meets expectations".
Proof. reflexivity. Qed.

Example trim_blank : trim "   " = EmptyString.
Proof. reflexivity. Qed.

Example includes_inside_word : includes "the manager" "age" = true.
Proof. reflexivity. Qed.

Example includes_missing : includes "the team lead" "age" = false.
Proof. reflexivity. Qed.

Example dateLike_day_month : dateLikeTest "on 3/14 she" = true.
Proof. reflexivity. Qed.

Example dateLike_year : dateLikeTest "during 2023" = true.
Proof. reflexivity. Qed.

Example dateLike_none : dateLikeTest "3 of 14 goals, 202 tickets" = false.
Proof. reflexivity. Qed.

Example arrayFromSet_keeps_first :
  arrayFromSet ["u"; "a"; "u"; "b"; "a"] = ["u"; "a"; "b"].
Proof. reflexivity. Qed.

Example join_flags : join ", " ["a"; "b"; "c"] = "a, b, c".
Proof. reflexivity. Qed.

End JsFacts.

(* ================================================================== *)
(** * Properties of the rule engine *)
(* ================================================================== *)

Module ProviderFacts.
Import Provider.

(** What [normalizeRating] returns for a label, and what it pushes. *)
Definition ratingOf (rating : option string) : option RatingValue :=
  fst (normalizeRating [] rating).

Definition labelFlags (rating : option string) : list string :=
  snd (normalizeRating [] rating).

(** The label normalizes to a known ordinal. *)
Definition known (rating : option string) (n : Z) : Prop :=
  ratingOf rating = Some (Ordinal n).

(** The label is absent, unrecognised, or names no ordinal. *)
Definition unknown (rating : option string) : Prop :=
  forall n, ratingOf rating <> Some (Ordinal n).

Lemma normalizeRating_eq (flags : list string) (rating : option string) :
  normalizeRating flags rating = (ratingOf rating, flags ++ labelFlags rating).
Proof.
  unfold ratingOf, labelFlags, normalizeRating.
  destruct (Js.falsy rating); simpl.
  - now rewrite app_nil_r.
  - destruct rating as [r|]; simpl.
    + destruct (getRating (Js.trim (Js.toLowerCase r))); simpl.
      * now rewrite app_nil_r.
      * reflexivity.
    + now rewrite app_nil_r.
Qed.

Lemma labelFlags_In (rating : option string) (f : string) :
  In f (labelFlags rating) -> f = "UnknownRatingLabel".
Proof.
  unfold labelFlags, normalizeRating.
  destruct (Js.falsy rating); simpl; [tauto|].
  destruct rating as [r|]; simpl; [|tauto].
  destruct (getRating (Js.trim (Js.toLowerCase r))); simpl; [tauto|].
  intros [H|[]]. now symmetry.
Qed.

Lemma ownProperty_range (k : string) (n : Z) :
  ownProperty k ratingMap = Some n -> (1 <= n <= 3)%Z.
Proof.
  unfold ratingMap. simpl.
  repeat (destruct (string_dec k _) as [_|_];
          [intros H; injection H as <-; lia|]).
  discriminate.
Qed.

(** A known ordinal is 1, 2 or 3. *)
Lemma known_range (rating : option string) (n : Z) :
  known rating n -> (1 <= n <= 3)%Z.
Proof.
  unfold known, ratingOf, normalizeRating.
  destruct (Js.falsy rating); simpl; [discriminate|].
  destruct rating as [r|]; simpl; [|discriminate].
  unfold getRating.
  destruct (ownProperty (Js.trim (Js.toLowerCase r)) ratingMap) as [m|] eqn:E.
  - simpl. intros H. injection H as <-. now apply (ownProperty_range _ _ E).
  - destruct (in_dec string_dec _ inheritedKeys); simpl; discriminate.
Qed.

(** [twoLevelsApart] on known ordinals is the comparison of the claim. *)
Lemma twoLevelsApart_known (a b : Z) :
  twoLevelsApart (Some (Ordinal a)) (Some (Ordinal b)) = (2 <=? Z.abs (a - b))%Z.
Proof. reflexivity. Qed.

Lemma twoLevelsApart_true (emp mgr : option RatingValue) :
  twoLevelsApart emp mgr = true ->
  exists a b, emp = Some (Ordinal a) /\ mgr = Some (Ordinal b) /\ (2 <= Z.abs (a - b))%Z.
Proof.
  destruct emp as [[a|]|], mgr as [[b|]|]; simpl; try discriminate.
  intros H. exists a, b. repeat split. now apply Z.leb_le.
Qed.

(** The six conditions under which [analyze] pushes an escalation flag. *)
Definition comments (e : EmployeeData) : string :=
  Js.toLowerCase (Js.orElse (managerComments e) EmptyString).

Definition overallMismatch (e : EmployeeData) : bool :=
  twoLevelsApart (ratingOf (overallRatingEmployee e)) (ratingOf (overallRatingManager e)).

Definition goalsMismatch (e : EmployeeData) : bool :=
  twoLevelsApart (ratingOf (goalEmployeeRating e)) (ratingOf (goalManagerRating e)).

Definition valuesMismatch (e : EmployeeData) : bool :=
  twoLevelsApart (ratingOf (valuesEmployeeRating e)) (ratingOf (valuesManagerRating e)).

Definition loadedNoEvidence (e : EmployeeData) : bool :=
  hasLoadedLanguage (comments e) && negb (hasConcreteEvidence (comments e)).

(** The array [flags] just before it is deduplicated. *)
Definition pushed (e : EmployeeData) : list string :=
  ((((((((((([] ++ labelFlags (overallRatingEmployee e))
   ++ labelFlags (overallRatingManager e))
   ++ labelFlags (goalEmployeeRating e))
   ++ labelFlags (goalManagerRating e))
   ++ labelFlags (valuesEmployeeRating e))
   ++ labelFlags (valuesManagerRating e))
   ++ (if overallMismatch e then ["RatingMismatch_Overall_2+Levels"] else []))
   ++ (if goalsMismatch e then ["RatingMismatch_Goals_2+Levels"] else []))
   ++ (if valuesMismatch e then ["RatingMismatch_Values_2+Levels"] else []))
   ++ (if narrativeInsufficient (managerComments e) then ["NarrativeInsufficient"] else []))
   ++ (if loadedNoEvidence e then ["LoadedLanguage_NoEvidence"] else []))
   ++ (if hasPolicySensitive (comments e) then ["PolicySensitive_EscalateHR"] else []).

Definition escalated (e : EmployeeData) : bool :=
  overallMismatch e || goalsMismatch e || valuesMismatch e ||
  narrativeInsufficient (managerComments e) || loadedNoEvidence e ||
  hasPolicySensitive (comments e).

Lemma escalateIf_fst (c : bool) (f : string) (st : list string * AIRecommendation) :
  fst (escalateIf c f st) = fst st ++ (if c then [f] else []).
Proof.
  destruct c; simpl; [reflexivity | now rewrite app_nil_r].
Qed.

Lemma escalateIf_snd (c : bool) (f : string) (st : list string * AIRecommendation) :
  snd (escalateIf c f st) = if c then RED else snd st.
Proof.
  destruct c; reflexivity.
Qed.

Ltac step_normalize :=
  rewrite normalizeRating_eq; cbv beta iota.

Lemma analyze_flags (e : EmployeeData) :
  flagsTriggered (analyze e) = Js.arrayFromSet (pushed e).
Proof.
  unfold analyze. do 6 step_normalize.
  destruct (_ && hasLargeDiff _); cbv beta iota; cbn [flagsTriggered];
    rewrite !escalateIf_fst; reflexivity.
Qed.

Lemma analyze_recommendation (e : EmployeeData) :
  aiRecommendation (analyze e) = if escalated e then RED else GREEN.
Proof.
  unfold analyze. do 6 step_normalize.
  destruct (_ && hasLargeDiff _); cbv beta iota; cbn [aiRecommendation];
    rewrite !escalateIf_snd; unfold escalated;
    fold (comments e); fold (overallMismatch e); fold (goalsMismatch e);
    fold (valuesMismatch e); fold (loadedNoEvidence e);
    destruct (hasPolicySensitive (comments e)), (loadedNoEvidence e),
      (narrativeInsufficient (managerComments e)), (valuesMismatch e),
      (goalsMismatch e), (overallMismatch e); reflexivity.
Qed.

End ProviderFacts.

Module RuleEngine.
Import Provider ProviderFacts.

(** The [UnknownRatingLabel] pushes of the six [normalizeRating] calls. *)
Definition labelPushes (e : EmployeeData) : list string :=
  labelFlags (overallRatingEmployee e) ++ labelFlags (overallRatingManager e) ++
  labelFlags (goalEmployeeRating e) ++ labelFlags (goalManagerRating e) ++
  labelFlags (valuesEmployeeRating e) ++ labelFlags (valuesManagerRating e).

Lemma labelPushes_In (e : EmployeeData) (f : string) :
  In f (labelPushes e) -> f = "UnknownRatingLabel".
Proof.
  unfold labelPushes. rewrite !in_app_iff.
  intros H; repeat destruct H as [H|H]; exact (labelFlags_In _ _ H).
Qed.

Lemma In_optional_flag (f g : string) (c : bool) :
  In f (if c then [g] else []) <-> f = g /\ c = true.
Proof.
  destruct c; simpl; split.
  - intros [H|[]]. now split.
  - intros [-> _]. now left.
  - tauto.
  - intros [_ H]. discriminate.
Qed.

(** Which flags [analyze] reports. *)
Lemma flagsTriggered_In (e : EmployeeData) (f : string) :
  In f (flagsTriggered (analyze e)) <->
  In f (labelPushes e)
  \/ (f = "RatingMismatch_Overall_2+Levels" /\ overallMismatch e = true)
  \/ (f = "RatingMismatch_Goals_2+Levels" /\ goalsMismatch e = true)
  \/ (f = "RatingMismatch_Values_2+Levels" /\ valuesMismatch e = true)
  \/ (f = "NarrativeInsufficient" /\ narrativeInsufficient (managerComments e) = true)
  \/ (f = "LoadedLanguage_NoEvidence" /\ loadedNoEvidence e = true)
  \/ (f = "PolicySensitive_EscalateHR" /\ hasPolicySensitive (comments e) = true).
Proof.
  rewrite analyze_flags, JsFacts.arrayFromSet_In.
  unfold pushed, labelPushes. rewrite !in_app_iff, !In_optional_flag.
  simpl. tauto.
Qed.

Ltac not_the_label :=
  match goal with
  | H : In _ (labelPushes _) |- _ => apply labelPushes_In in H; discriminate H
  end.

(** Each escalation flag is reported exactly under its own condition. *)
Lemma flag_overall (e : EmployeeData) :
  In "RatingMismatch_Overall_2+Levels" (flagsTriggered (analyze e)) <->
  overallMismatch e = true.
Proof.
  rewrite flagsTriggered_In. split.
  - intros H. repeat destruct H as [H|H]; try not_the_label;
      destruct H as [E H]; (discriminate E || exact H).
  - intros H. right. left. now split.
Qed.

Lemma flag_goals (e : EmployeeData) :
  In "RatingMismatch_Goals_2+Levels" (flagsTriggered (analyze e)) <->
  goalsMismatch e = true.
Proof.
  rewrite flagsTriggered_In. split.
  - intros H. repeat destruct H as [H|H]; try not_the_label;
      destruct H as [E H]; (discriminate E || exact H).
  - intros H. right. right. left. now split.
Qed.

Lemma flag_values (e : EmployeeData) :
  In "RatingMismatch_Values_2+Levels" (flagsTriggered (analyze e)) <->
  valuesMismatch e = true.
Proof.
  rewrite flagsTriggered_In. split.
  - intros H. repeat destruct H as [H|H]; try not_the_label;
      destruct H as [E H]; (discriminate E || exact H).
  - intros H. do 3 right. left. now split.
Qed.

Lemma flag_narrative (e : EmployeeData) :
  In "NarrativeInsufficient" (flagsTriggered (analyze e)) <->
  narrativeInsufficient (managerComments e) = true.
Proof.
  rewrite flagsTriggered_In. split.
  - intros H. repeat destruct H as [H|H]; try not_the_label;
      destruct H as [E H]; (discriminate E || exact H).
  - intros H. do 4 right. left. now split.
Qed.

Lemma flag_loaded (e : EmployeeData) :
  In "LoadedLanguage_NoEvidence" (flagsTriggered (analyze e)) <->
  loadedNoEvidence e = true.
Proof.
  rewrite flagsTriggered_In. split.
  - intros H. repeat destruct H as [H|H]; try not_the_label;
      destruct H as [E H]; (discriminate E || exact H).
  - intros H. do 5 right. left. now split.
Qed.

Lemma flag_policy (e : EmployeeData) :
  In "PolicySensitive_EscalateHR" (flagsTriggered (analyze e)) <->
  hasPolicySensitive (comments e) = true.
Proof.
  rewrite flagsTriggered_In. split.
  - intros H. repeat destruct H as [H|H]; try not_the_label;
      destruct H as [E H]; (discriminate E || exact H).
  - intros H. do 6 right. now split.
Qed.

Lemma recommendation_RED (e : EmployeeData) :
  aiRecommendation (analyze e) = RED <-> escalated e = true.
Proof.
  rewrite analyze_recommendation. destruct (escalated e); split; congruence.
Qed.

Lemma escalated_iff (e : EmployeeData) :
  escalated e = true <->
  overallMismatch e = true \/ goalsMismatch e = true \/ valuesMismatch e = true \/
  narrativeInsufficient (managerComments e) = true \/ loadedNoEvidence e = true \/
  hasPolicySensitive (comments e) = true.
Proof.
  unfold escalated. rewrite !orb_true_iff. tauto.
Qed.

Lemma analyze_valuesAlignment (e : EmployeeData) :
  valuesAlignment (analyze e) =
  match ratingOf (valuesEmployeeRating e), ratingOf (valuesManagerRating e) with
  | Some a, Some b =>
      let diff := Js.abs (Js.sub (toNumber a) (toNumber b)) in
      if Js.ge diff (Js.Num 2) then Misaligned
      else if Js.strictEq diff (Js.Num 1) then PartiallyAligned
      else Aligned
  | _, _ => Aligned
  end.
Proof.
  unfold analyze. do 6 step_normalize.
  destruct (_ && hasLargeDiff _); reflexivity.
Qed.

Definition noBiasSentence : string :=
  "No significant bias indicators detected in the review narrative.".
Definition biasIndicatorSentence : string :=
  "Potential bias indicators present: subjective language used without supporting evidence.".
Definition complianceSentence : string :=
  "Policy-sensitive content detected - requires HR review for compliance.".

Lemma analyze_biasAssessment (e : EmployeeData) :
  biasAssessment (analyze e) =
  if hasPolicySensitive (comments e) then complianceSentence
  else if hasLoadedLanguage (comments e) then biasIndicatorSentence
  else noBiasSentence.
Proof.
  unfold analyze. do 6 step_normalize.
  destruct (_ && hasLargeDiff _); reflexivity.
Qed.

Lemma narrativeInsufficient_iff (mc : option string) :
  narrativeInsufficient mc = true <->
  mc = None \/ exists c, mc = Some c /\ (String.length (Js.trim c) < 20)%nat.
Proof.
  unfold narrativeInsufficient. destruct mc as [c|]; simpl.
  - destruct c as [|a c].
    + simpl. split; [|reflexivity]. intros _. right. exists EmptyString.
      split; [reflexivity | simpl; lia].
    + cbn [orb]. rewrite Nat.ltb_lt. split.
      * intros H. right. now exists (String a c).
      * intros [H|[c' [H1 H2]]]; [discriminate|]. now injection H1 as <-.
  - split; [now left | reflexivity].
Qed.

End RuleEngine.

(* ================================================================== *)
(** * The rule engine: recommendation and flags *)
(* ================================================================== *)

Import Provider ProviderFacts RuleEngine.

Definition record (employeeId : string)
  (goalEmp goalMgr valuesEmp valuesMgr overallEmp overallMgr comments : option string)
  : EmployeeData :=
  {| employeeId := employeeId;
     goalEmployeeRating := goalEmp; goalManagerRating := goalMgr;
     valuesEmployeeRating := valuesEmp; valuesManagerRating := valuesMgr;
     overallRatingEmployee := overallEmp; overallRatingManager := overallMgr;
     managerComments := comments |}.

(** A record with one unrecognised label and an unremarkable narrative. *)
Definition unrecognisedLabelRecord : EmployeeData :=
  record "E-100" None None None None (Some "Great") (Some "Meets")
    (Some "Delivered the quarterly plan on schedule.").

(** C1, as stated, fails: for [unrecognisedLabelRecord] the engine reports
    the flag [UnknownRatingLabel] and still recommends GREEN. *)
Lemma C1_red_iff_flags_counterexample :
  flagsTriggered (analyze unrecognisedLabelRecord) = ["UnknownRatingLabel"] /\
  aiRecommendation (analyze unrecognisedLabelRecord) = GREEN /\
  ~ (aiRecommendation (analyze unrecognisedLabelRecord) = RED <->
     flagsTriggered (analyze unrecognisedLabelRecord) <> []).
Proof.
  assert (flagsTriggered (analyze unrecognisedLabelRecord) = ["UnknownRatingLabel"])
    as Hf by reflexivity.
  assert (aiRecommendation (analyze unrecognisedLabelRecord) = GREEN)
    as Hr by reflexivity.
  repeat split; try assumption.
  intros [_ H]. rewrite Hf, Hr in H.
  assert (GREEN = RED) as Habs by (apply H; discriminate).
  discriminate Habs.
Qed.

(** C1, amended: for every employee record the recommendation is RED if
    and only if the flags contain a flag other than [UnknownRatingLabel];
    so a RED result always has flags, and a result without flags is
    GREEN. *)
Theorem C1_red_iff_escalation_flag (e : EmployeeData) :
  (aiRecommendation (analyze e) = RED <->
   exists f, In f (flagsTriggered (analyze e)) /\ f <> "UnknownRatingLabel")
  /\ (aiRecommendation (analyze e) = RED -> flagsTriggered (analyze e) <> [])
  /\ (flagsTriggered (analyze e) = [] -> aiRecommendation (analyze e) = GREEN).
Proof.
  assert (aiRecommendation (analyze e) = RED <->
          exists f, In f (flagsTriggered (analyze e)) /\ f <> "UnknownRatingLabel")
    as Hiff.
  { rewrite recommendation_RED, escalated_iff. split.
    - intros H.
      destruct H as [H|[H|[H|[H|[H|H]]]]].
      + exists "RatingMismatch_Overall_2+Levels". split; [now apply flag_overall | discriminate].
      + exists "RatingMismatch_Goals_2+Levels". split; [now apply flag_goals | discriminate].
      + exists "RatingMismatch_Values_2+Levels". split; [now apply flag_values | discriminate].
      + exists "NarrativeInsufficient". split; [now apply flag_narrative | discriminate].
      + exists "LoadedLanguage_NoEvidence". split; [now apply flag_loaded | discriminate].
      + exists "PolicySensitive_EscalateHR". split; [now apply flag_policy | discriminate].
    - intros [f [Hin Hne]]. apply flagsTriggered_In in Hin.
      destruct Hin as [H|[H|[H|[H|[H|[H|H]]]]]].
      + apply labelPushes_In in H. contradiction.
      + left. apply H.
      + right. left. apply H.
      + do 2 right. left. apply H.
      + do 3 right. left. apply H.
      + do 4 right. left. apply H.
      + do 5 right. apply H. }
  split; [exact Hiff|]. split.
  - intros H. apply Hiff in H. destruct H as [f [Hin _]].
    intros E. rewrite E in Hin. destruct Hin.
  - intros E. destruct (aiRecommendation (analyze e)) eqn:R; [reflexivity|].
    assert (RED = RED) as H by reflexivity.
    apply Hiff in H. destruct H as [f [Hin _]]. rewrite E in Hin. destruct Hin.
Qed.

(** The scenarios of the specification that the engine meets as
    written. *)
Example scenario_A :
  let r := analyze (record "A" None None None None
                      (Some "Exceeds Expectations") (Some "Does Not Meet Expectations")
                      (Some "Great job this quarter, exceeded every goal.")) in
  flagsTriggered r = ["RatingMismatch_Overall_2+Levels"] /\ aiRecommendation r = RED.
Proof. split; reflexivity. Qed.

Example scenario_B :
  let r := analyze (record "B" None None None None None None (Some EmptyString)) in
  In "NarrativeInsufficient" (flagsTriggered r) /\ aiRecommendation r = RED.
Proof. split; [vm_compute; now left | reflexivity]. Qed.

Example scenario_C :
  let r := analyze (record "C" None None None None None None
                      (Some "Too aggressive in meetings, needs to learn to collaborate.")) in
  In "LoadedLanguage_NoEvidence" (flagsTriggered r) /\ aiRecommendation r = RED.
Proof. split; [vm_compute; now left | reflexivity]. Qed.

Example scenario_D :
  let r := analyze (record "D" (Some "Meets") (Some "Meets") (Some "Meets") (Some "Meets")
                      (Some "Meets") (Some "Meets")
                      (Some "She told the team that she is pregnant.")) in
  In "PolicySensitive_EscalateHR" (flagsTriggered r) /\ aiRecommendation r = RED.
Proof. split; [vm_compute; now left | reflexivity]. Qed.

Example scenario_E :
  let r := analyze (record "E" (Some "Meets") (Some "Meets") (Some "Meets") (Some "Meets")
                      (Some "Meets") (Some "Meets")
                      (Some "Delivered the quarterly plan on schedule.")) in
  flagsTriggered r = [] /\ aiRecommendation r = GREEN /\ ratingConsistency r = Consistent.
Proof. repeat split; reflexivity. Qed.

(** A label that names a member of [Object.prototype] is neither an
    ordinal nor flagged as unknown. *)
Example inherited_label :
  let r := analyze (record "P" None None (Some "Constructor") (Some "Exceeds")
                      None None (Some "Delivered the quarterly plan on schedule.")) in
  ratingOf (Some "Constructor") = Some Inherited /\
  flagsTriggered r = [] /\ valuesAlignment r = Aligned.
Proof. repeat split; reflexivity. Qed.

(* ================================================================== *)
(** * The rule engine: bias assessment *)
(* ================================================================== *)

(** A loaded term with an evidence marker and no policy-sensitive term. *)
Definition loadedWithEvidenceRecord : EmployeeData :=
  record "E-200" None None None None (Some "Meets") (Some "Meets")
    (Some "She was abrasive, for example in the March planning review.").

(** C2 on the code: for [loadedWithEvidenceRecord] neither the
    loaded-language flag nor the policy-sensitive flag is set, and the
    bias assessment is the bias-indicator sentence, not the no-bias
    sentence. *)
Theorem C2_bias_sentence_with_evidence :
  hasLoadedLanguage (comments loadedWithEvidenceRecord) = true /\
  hasConcreteEvidence (comments loadedWithEvidenceRecord) = true /\
  hasPolicySensitive (comments loadedWithEvidenceRecord) = false /\
  flagsTriggered (analyze loadedWithEvidenceRecord) = [] /\
  biasAssessment (analyze loadedWithEvidenceRecord) = biasIndicatorSentence /\
  biasAssessment (analyze loadedWithEvidenceRecord) <> noBiasSentence.
Proof.
  repeat split; try reflexivity.
  intros H. vm_compute in H. discriminate H.
Qed.

(* ================================================================== *)
(** * The rule engine: rating pairs *)
(* ================================================================== *)

Inductive RatingPair := OverallPair | GoalsPair | ValuesPair.

Definition employeeLabel (p : RatingPair) (e : EmployeeData) : option string :=
  match p with
  | OverallPair => overallRatingEmployee e
  | GoalsPair => goalEmployeeRating e
  | ValuesPair => valuesEmployeeRating e
  end.

Definition managerLabel (p : RatingPair) (e : EmployeeData) : option string :=
  match p with
  | OverallPair => overallRatingManager e
  | GoalsPair => goalManagerRating e
  | ValuesPair => valuesManagerRating e
  end.

Definition mismatchFlag (p : RatingPair) : string :=
  match p with
  | OverallPair => "RatingMismatch_Overall_2+Levels"
  | GoalsPair => "RatingMismatch_Goals_2+Levels"
  | ValuesPair => "RatingMismatch_Values_2+Levels"
  end.

Definition pairMismatch (p : RatingPair) (e : EmployeeData) : bool :=
  twoLevelsApart (ratingOf (employeeLabel p e)) (ratingOf (managerLabel p e)).

Lemma mismatchFlag_In (p : RatingPair) (e : EmployeeData) :
  In (mismatchFlag p) (flagsTriggered (analyze e)) <-> pairMismatch p e = true.
Proof.
  destruct p; [apply flag_overall | apply flag_goals | apply flag_values].
Qed.

Lemma pairMismatch_escalates (p : RatingPair) (e : EmployeeData) :
  pairMismatch p e = true -> aiRecommendation (analyze e) = RED.
Proof.
  intros H. apply recommendation_RED, escalated_iff.
  destruct p; [left | right; left | right; right; left]; exact H.
Qed.

(** C3: for each of the three rating pairs, when both labels normalize to
    known ordinals (which are then in 1..3) that differ by at least 2, the
    pair's mismatch flag is reported and the recommendation is RED; when
    either label is unknown, or both are known and differ by at most 1,
    the pair's mismatch flag is not reported. *)
Theorem C3_rating_mismatch (e : EmployeeData) (p : RatingPair) :
  (forall a b, known (employeeLabel p e) a -> known (managerLabel p e) b ->
     (1 <= a <= 3)%Z /\ (1 <= b <= 3)%Z)
  /\ (forall a b, known (employeeLabel p e) a -> known (managerLabel p e) b ->
        (2 <= Z.abs (a - b))%Z ->
        In (mismatchFlag p) (flagsTriggered (analyze e)) /\
        aiRecommendation (analyze e) = RED)
  /\ (unknown (employeeLabel p e) \/ unknown (managerLabel p e) ->
        ~ In (mismatchFlag p) (flagsTriggered (analyze e)))
  /\ (forall a b, known (employeeLabel p e) a -> known (managerLabel p e) b ->
        (Z.abs (a - b) <= 1)%Z ->
        ~ In (mismatchFlag p) (flagsTriggered (analyze e))).
Proof.
  split; [|split; [|split]].
  - intros a b Ha Hb. split; eapply known_range; eassumption.
  - intros a b Ha Hb Hd.
    assert (pairMismatch p e = true) as Hm.
    { unfold pairMismatch. unfold known in Ha, Hb. rewrite Ha, Hb.
      rewrite twoLevelsApart_known. now apply Z.leb_le. }
    split; [now apply mismatchFlag_In | now apply (pairMismatch_escalates p)].
  - intros Hu Hin. apply mismatchFlag_In in Hin.
    apply twoLevelsApart_true in Hin. destruct Hin as [a [b [Ha [Hb _]]]].
    destruct Hu as [Hu|Hu]; [exact (Hu a Ha) | exact (Hu b Hb)].
  - intros a b Ha Hb Hd Hin. apply mismatchFlag_In in Hin.
    unfold pairMismatch in Hin. unfold known in Ha, Hb. rewrite Ha, Hb in Hin.
    rewrite twoLevelsApart_known in Hin. apply Z.leb_le in Hin. lia.
Qed.

(** Scenario A of the specification. *)
Definition twoLevelsRecord : EmployeeData :=
  record "E-300" None None None None
    (Some "Exceeds Expectations") (Some "Does Not Meet Expectations")
    (Some "Great job this quarter, exceeded every goal.").

(** One level apart on the goals pair, manager's values label missing. *)
Definition oneLevelRecord : EmployeeData :=
  record "E-301" (Some "Exceeds") (Some "Meets") (Some "Outstanding") None None None
    (Some "Great job this quarter, exceeded every goal.").

(** C3 at concrete records: two levels apart on the overall pair; one
    level apart on the goals pair; an absent label on the values pair. *)
Lemma C3_rating_mismatch_witness :
  (In "RatingMismatch_Overall_2+Levels" (flagsTriggered (analyze twoLevelsRecord)) /\
   aiRecommendation (analyze twoLevelsRecord) = RED)
  /\ ~ In "RatingMismatch_Goals_2+Levels" (flagsTriggered (analyze oneLevelRecord))
  /\ ~ In "RatingMismatch_Values_2+Levels" (flagsTriggered (analyze oneLevelRecord)).
Proof.
  split; [|split].
  - apply (proj1 (proj2 (C3_rating_mismatch twoLevelsRecord OverallPair)) 3%Z 1%Z).
    + reflexivity.
    + reflexivity.
    + simpl. lia.
  - apply (proj2 (proj2 (proj2 (C3_rating_mismatch oneLevelRecord GoalsPair))) 3%Z 2%Z).
    + reflexivity.
    + reflexivity.
    + simpl. lia.
  - apply (proj1 (proj2 (proj2 (C3_rating_mismatch oneLevelRecord ValuesPair)))).
    right. intros n H. discriminate H.
Defined.

(* ================================================================== *)
(** * The rule engine: narrative length *)
(* ================================================================== *)

(** The narrative is absent, or shorter than 20 code units once trimmed. *)
Definition narrativeShort (e : EmployeeData) : Prop :=
  managerComments e = None \/
  exists c, managerComments e = Some c /\ (String.length (Js.trim c) < 20)%nat.

(** C4: [NarrativeInsufficient] is reported exactly when the narrative is
    absent or its trimmed length is below 20, and the recommendation is
    then RED; a narrative of trimmed length 19 gets the flag and one of
    trimmed length 20 does not. *)
Theorem C4_narrative_insufficient (e : EmployeeData) :
  (In "NarrativeInsufficient" (flagsTriggered (analyze e)) <-> narrativeShort e)
  /\ (narrativeShort e -> aiRecommendation (analyze e) = RED)
  /\ (forall c, managerComments e = Some c -> String.length (Js.trim c) = 19%nat ->
        In "NarrativeInsufficient" (flagsTriggered (analyze e)))
  /\ (forall c, managerComments e = Some c -> String.length (Js.trim c) = 20%nat ->
        ~ In "NarrativeInsufficient" (flagsTriggered (analyze e))).
Proof.
  assert (In "NarrativeInsufficient" (flagsTriggered (analyze e)) <-> narrativeShort e)
    as Hiff.
  { rewrite flag_narrative. apply narrativeInsufficient_iff. }
  split; [exact Hiff|]. split; [|split].
  - intros H. apply recommendation_RED, escalated_iff.
    do 3 right. left. now apply narrativeInsufficient_iff.
  - intros c Hc Hlen. apply Hiff. right. exists c. split; [exact Hc | lia].
  - intros c Hc Hlen Hin. apply Hiff in Hin.
    destruct Hin as [Hn|[c' [Hc' Hlt]]].
    + rewrite Hn in Hc. discriminate Hc.
    + rewrite Hc in Hc'. injection Hc' as <-. lia.
Qed.

(** Nineteen code units between the surrounding blanks. *)
Definition nineteenRecord : EmployeeData :=
  record "E-400" None None None None None None (Some "  Solid work all year  ").

(** Twenty code units between the surrounding blanks. *)
Definition twentyRecord : EmployeeData :=
  record "E-401" None None None None None None (Some "  Solid work all year.  ").

(** C4 at the boundary: trimmed lengths 19 and 20. *)
Lemma C4_narrative_insufficient_witness :
  In "NarrativeInsufficient" (flagsTriggered (analyze nineteenRecord))
  /\ aiRecommendation (analyze nineteenRecord) = RED
  /\ ~ In "NarrativeInsufficient" (flagsTriggered (analyze twentyRecord)).
Proof.
  split; [|split].
  - apply (proj1 (proj2 (proj2 (C4_narrative_insufficient nineteenRecord)))
             "  Solid work all year  "); reflexivity.
  - apply (proj1 (proj2 (C4_narrative_insufficient nineteenRecord))).
    right. exists "  Solid work all year  ". split; [reflexivity | simpl; lia].
  - apply (proj2 (proj2 (proj2 (C4_narrative_insufficient twentyRecord)))
             "  Solid work all year.  "); reflexivity.
Defined.

(* ================================================================== *)
(** * The rule engine: values alignment *)
(* ================================================================== *)

(** C5: [valuesAlignment] depends on the two values labels only.  When
    both normalize to known ordinals, a difference of 0 gives Aligned, of
    1 Partially aligned, and of 2 or more Misaligned; when either is
    unknown or absent the result is Aligned. *)
Theorem C5_values_alignment (e : EmployeeData) :
  (forall a b, known (valuesEmployeeRating e) a -> known (valuesManagerRating e) b ->
     (Z.abs (a - b) = 0%Z -> valuesAlignment (analyze e) = Aligned) /\
     (Z.abs (a - b) = 1%Z -> valuesAlignment (analyze e) = PartiallyAligned) /\
     ((2 <= Z.abs (a - b))%Z -> valuesAlignment (analyze e) = Misaligned))
  /\ (unknown (valuesEmployeeRating e) \/ unknown (valuesManagerRating e) ->
        valuesAlignment (analyze e) = Aligned)
  /\ (forall e', valuesEmployeeRating e' = valuesEmployeeRating e ->
        valuesManagerRating e' = valuesManagerRating e ->
        valuesAlignment (analyze e') = valuesAlignment (analyze e)).
Proof.
  split; [|split].
  - intros a b Ha Hb. unfold known in Ha, Hb.
    rewrite analyze_valuesAlignment, Ha, Hb. cbn.
    repeat split; intros H.
    + rewrite H. reflexivity.
    + rewrite H. reflexivity.
    + apply Z.leb_le in H. rewrite H. reflexivity.
  - intros Hu. rewrite analyze_valuesAlignment.
    destruct (ratingOf (valuesEmployeeRating e)) as [[a|]|] eqn:Ea;
      destruct (ratingOf (valuesManagerRating e)) as [[b|]|] eqn:Eb;
      try reflexivity.
    destruct Hu as [Hu|Hu]; [destruct (Hu a Ea) | destruct (Hu b Eb)].
  - intros e' He Hm. rewrite !analyze_valuesAlignment, He, Hm. reflexivity.
Qed.

Definition valuesRecord (emp mgr : option string) : EmployeeData :=
  record "E-500" None None emp mgr None None
    (Some "Great job this quarter, exceeded every goal.").

(** C5 at concrete labels: equal, one apart, two apart, and one side
    absent. *)
Lemma C5_values_alignment_witness :
  valuesAlignment (analyze (valuesRecord (Some "Meets") (Some "satisfactory"))) = Aligned
  /\ valuesAlignment (analyze (valuesRecord (Some "Meets") (Some "Exceeds"))) = PartiallyAligned
  /\ valuesAlignment (analyze (valuesRecord (Some "Below") (Some "Exceeds"))) = Misaligned
  /\ valuesAlignment (analyze (valuesRecord (Some "Below") None)) = Aligned.
Proof.
  split; [|split; [|split]].
  - apply (proj1 (C5_values_alignment _) 2%Z 2%Z); reflexivity.
  - apply (proj1 (C5_values_alignment _) 2%Z 3%Z); reflexivity.
  - apply (proj1 (C5_values_alignment _) 1%Z 3%Z); [reflexivity | reflexivity | simpl; lia].
  - apply (proj1 (proj2 (C5_values_alignment _))).
    right. intros n H. discriminate H.
Defined.

(* ================================================================== *)
(** * The rule engine: policy-sensitive terms *)
(* ================================================================== *)

(** C10: policy-sensitive terms are matched as substrings of the
    lower-cased narrative, so every record whose narrative contains "age"
    (in any letter case, and inside any word) gets
    [PolicySensitive_EscalateHR] and RED, whatever its ratings and
    whatever evidence markers the narrative has. *)
Theorem C10_age_substring_escalates (e : EmployeeData) (c : string) :
  managerComments e = Some c ->
  Js.includes c "age" = true \/ Js.includes (Js.toLowerCase c) "age" = true ->
  In "PolicySensitive_EscalateHR" (flagsTriggered (analyze e)) /\
  aiRecommendation (analyze e) = RED.
Proof.
  intros Hc Hage.
  assert (Js.includes (Js.toLowerCase c) "age" = true) as Hlow.
  { destruct Hage as [H|H]; [|exact H].
    apply JsFacts.includes_toLowerCase; [reflexivity | exact H]. }
  assert (hasPolicySensitive (comments e) = true) as Hp.
  { unfold hasPolicySensitive, comments. rewrite Hc, JsFacts.orElse_empty.
    apply (JsFacts.some_true _ _ "age"); [|exact Hlow].
    unfold policySensitiveTerms. simpl. tauto. }
  split.
  - now apply flag_policy.
  - apply recommendation_RED, escalated_iff. do 5 right. exact Hp.
Qed.

(** All ratings equal, a narrative with an evidence marker, and "age"
    only inside the words manager, manage and average. *)
Definition managerWordRecord : EmployeeData :=
  record "E-600" (Some "Meets") (Some "Meets") (Some "Meets") (Some "Meets")
    (Some "Meets") (Some "Meets")
    (Some "For example, the manager can manage an average workload.").

(** C10 at [managerWordRecord]. *)
Lemma C10_age_substring_escalates_witness :
  In "PolicySensitive_EscalateHR" (flagsTriggered (analyze managerWordRecord)) /\
  aiRecommendation (analyze managerWordRecord) = RED.
Proof.
  apply (C10_age_substring_escalates managerWordRecord
           "For example, the manager can manage an average workload.").
  - reflexivity.
  - left. reflexivity.
Defined.

(* ================================================================== *)
(** * The result writer *)
(* ================================================================== *)

(** The cell values of a data row whose reviewer-status cell holds
    [reviewStatus]. *)
Definition rowCells (reviewStatus batch : string) (result : AnalysisResult)
  : list (option string) :=
  [ Some batch;
    Some (r_employeeId result);
    Some (Writer.aiOutput result);
    Some (showRecommendation (aiRecommendation result));
    Some reviewStatus;
    Some EmptyString;
    Some (Js.join ", " (flagsTriggered result)) ].

Lemma resultRow_cells (batch : string) (result : AnalysisResult) :
  Writer.cellValues (Writer.resultRow batch result) = rowCells "Pending" batch result.
Proof.
  unfold Writer.resultRow, rowCells. destruct (aiRecommendation result); reflexivity.
Qed.

Lemma dataRows_cells (batch : string) (results : list AnalysisResult) :
  map Writer.cellValues (Writer.dataRows (Writer.resultsWorksheet batch results)) =
  map (rowCells "Pending" batch) results.
Proof.
  unfold Writer.dataRows, Writer.resultsWorksheet. simpl. rewrite map_map.
  apply map_ext. intros r. apply resultRow_cells.
Qed.

(** The canned result of a failed analysis, as a one-element batch. *)
Definition oneFailedResult : list AnalysisResult :=
  [ Routes.analysisFailed (record "E-900" None None None None None None None) ].

(** C9, as stated, fails: the reviewer-status cell of a data row is not
    blank, it holds "Pending". *)
Lemma C9_blank_status_counterexample :
  map Writer.cellValues (Writer.dataRows (Writer.resultsWorksheet "2024-H1" oneFailedResult)) <>
  map (rowCells EmptyString "2024-H1") oneFailedResult
  /\ map (fun row => nth_error (Writer.cellValues row) 4)
         (Writer.dataRows (Writer.resultsWorksheet "2024-H1" oneFailedResult)) =
     [ Some (Some "Pending") ].
Proof.
  split; [|reflexivity].
  intros H. vm_compute in H. discriminate H.
Qed.

(** C9, amended: for every batch label, ordered result list and job id,
    the workbook that [generateResultsExcel] writes has the seven columns
    ReviewBatch, EmployeeId, AI_Output, AI_Recommendation, ReviewStatus,
    ReviewerNotes, FlagsTriggered and one data row per result, in order,
    holding: the batch label, the identifier, the concatenated AI-output
    summary, the recommendation, the reviewer status "Pending", a blank
    reviewer-notes cell and the flags joined by ", ". *)
Theorem C9_result_rows (env : Env) (batch : string) (results : list AnalysisResult)
  (jobId : string) (w : World) :
  fsFault env = None ->
  exists path sheet wr,
    Writer.generateResultsExcel env batch results jobId w =
      (inr wr, {| job := job w; dbCalls := dbCalls w;
                  trace := trace w ++ [FileWritten path sheet] |})
    /\ Writer.success wr = true
    /\ map Excel.header (Excel.columns sheet) =
         [ "ReviewBatch"; "EmployeeId"; "AI_Output"; "AI_Recommendation";
           "ReviewStatus"; "ReviewerNotes"; "FlagsTriggered" ]
    /\ map Writer.cellValues (Writer.dataRows sheet) = map (rowCells "Pending" batch) results.
Proof.
  intros Hfs.
  exists (Path.join [Path.join [cwd env; "tmp"];
                     ("analysis-results-" ++ jobId ++ ".xlsx")%string]).
  exists (Writer.resultsWorksheet batch results).
  eexists. unfold Writer.generateResultsExcel, tryCatch. rewrite Hfs.
  cbn. split; [reflexivity|]. split; [reflexivity|]. split; [reflexivity|].
  apply dataRows_cells.
Qed.

Definition quietEnv : Env :=
  {| parseExcelFile := fun _ => {| p_success := false; p_employees := None; p_error := None |};
     llmProvider := fun e => inr (analyze e);
     dbFault := fun _ => None;
     fsFault := None;
     cwd := "/srv/app";
     sharePoint := None |}.

(** C9 at a one-result batch. *)
Lemma C9_result_rows_witness :
  exists path sheet wr,
    Writer.generateResultsExcel quietEnv "2024-H1" oneFailedResult "j1"
      (Routes.initialWorld "j1" 0 "2024-H1") =
      (inr wr, {| job := Storage.createJob "j1" 0 "2024-H1"; dbCalls := 0;
                  trace := [] ++ [FileWritten path sheet] |})
    /\ Writer.success wr = true
    /\ map Excel.header (Excel.columns sheet) =
         [ "ReviewBatch"; "EmployeeId"; "AI_Output"; "AI_Recommendation";
           "ReviewStatus"; "ReviewerNotes"; "FlagsTriggered" ]
    /\ map Writer.cellValues (Writer.dataRows sheet) = map (rowCells "Pending" "2024-H1") oneFailedResult.
Proof.
  apply (C9_result_rows quietEnv "2024-H1" oneFailedResult "j1"
           (Routes.initialWorld "j1" 0 "2024-H1")).
  reflexivity.
Defined.

(* ================================================================== *)
(** * Reasoning about computations in [M] *)
(* ================================================================== *)

Module Hoare.

(** From a world satisfying [P], [m] returns in a world satisfying [Q], or
    throws in a world satisfying [E]. *)
Definition triple {A} (P : World -> Prop) (m : M A)
  (Q : A -> World -> Prop) (E : World -> Prop) : Prop :=
  forall w, P w ->
    match m w with
    | (inr a, w') => Q a w'
    | (inl _, w') => E w'
    end.

Lemma triple_ret {A} (a : A) (P : World -> Prop) (Q : A -> World -> Prop) E :
  (forall w, P w -> Q a w) -> triple P (ret a) Q E.
Proof.
  intros H w Hw. apply H, Hw.
Qed.

Lemma triple_bind {A B} (m : M A) (k : A -> M B) P Q R E :
  triple P m Q E -> (forall a, triple (Q a) (k a) R E) ->
  triple P (bind m k) R E.
Proof.
  intros Hm Hk w Hw. unfold bind. specialize (Hm w Hw).
  destruct (m w) as [[e|a] w'].
  - exact Hm.
  - apply Hk, Hm.
Qed.

Lemma triple_tryCatch {A} (body : M A) (handler : Exn -> M A) P Q E' E :
  triple P body Q E' -> (forall e, triple E' (handler e) Q E) ->
  triple P (tryCatch body handler) Q E.
Proof.
  intros Hb Hh w Hw. unfold tryCatch. specialize (Hb w Hw).
  destruct (body w) as [[e|a] w'].
  - apply Hh, Hb.
  - exact Hb.
Qed.

Lemma triple_weaken {A} (m : M A) (P P' : World -> Prop) (Q Q' : A -> World -> Prop)
  (E E' : World -> Prop) :
  triple P' m Q' E' ->
  (forall w, P w -> P' w) -> (forall a w, Q' a w -> Q a w) ->
  (forall w, E' w -> E w) ->
  triple P m Q E.
Proof.
  intros H HP HQ HE w Hw. specialize (H w (HP w Hw)).
  destruct (m w) as [[e|a] w']; auto.
Qed.

(** What a reader of the job's row and of the writes to it can see. *)
Definition sameObs (w w' : World) : Prop :=
  job w' = job w
  /\ Routes.progressWrites (trace w') = Routes.progressWrites (trace w)
  /\ Routes.statusWrites (trace w') = Routes.statusWrites (trace w).

(** [m] never throws, changes nothing a reader can see, and returns a
    value satisfying [R]. *)
Definition quietly {A} (m : M A) (R : A -> Prop) : Prop :=
  forall w, exists a w', m w = (inr a, w') /\ sameObs w w' /\ R a.

Lemma triple_quietly {A} (m : M A) (R : A -> Prop) (P : World -> Prop)
  (Q : A -> World -> Prop) E :
  quietly m R ->
  (forall w w' a, P w -> sameObs w w' -> R a -> Q a w') ->
  triple P m Q E.
Proof.
  intros Hq H w Hw. destruct (Hq w) as [a [w' [Em [Hs Ha]]]].
  rewrite Em. now apply (H w).
Qed.

Lemma sameObs_refl (w : World) : sameObs w w.
Proof. repeat split. Qed.

Lemma sameObs_trans (w1 w2 w3 : World) :
  sameObs w1 w2 -> sameObs w2 w3 -> sameObs w1 w3.
Proof.
  intros [A1 [B1 C1]] [A2 [B2 C2]]. repeat split; congruence.
Qed.

Lemma quietly_ret {A} (a : A) (R : A -> Prop) : R a -> quietly (ret a) R.
Proof.
  intros Ha w. exists a, w. split; [reflexivity|]. split; [apply sameObs_refl | exact Ha].
Qed.

Lemma progressWrites_app (t1 t2 : list Event) :
  Routes.progressWrites (t1 ++ t2) = Routes.progressWrites t1 ++ Routes.progressWrites t2.
Proof.
  unfold Routes.progressWrites. apply flat_map_app.
Qed.

Lemma statusWrites_app (t1 t2 : list Event) :
  Routes.statusWrites (t1 ++ t2) = Routes.statusWrites t1 ++ Routes.statusWrites t2.
Proof.
  unfold Routes.statusWrites. apply flat_map_app.
Qed.

(** An event other than a write to the job's row. *)
Definition offRow (ev : Event) : Prop :=
  match ev with
  | JobUpdated _ => False
  | _ => True
  end.

Lemma quietly_emit (ev : Event) : offRow ev -> quietly (emit ev) (fun _ => True).
Proof.
  intros Hev w. eexists; eexists. split; [reflexivity|]. split; [|exact I].
  unfold sameObs. simpl. rewrite progressWrites_app, statusWrites_app.
  destruct ev; try destruct Hev; simpl; now rewrite !app_nil_r.
Qed.

End Hoare.

(* ================================================================== *)
(** * Properties of the orchestrator *)
(* ================================================================== *)

Module RoutesFacts.
Import Storage Routes Hoare.

Section Run.
Context {F : Type} {arith : JsNumber F}.
Variable env : Env.
Variables jobId buffer batch file : string.

(** Some database statement throws. *)
Definition faulty : Prop := exists k e, dbFault env k = Some e.

(** The parse is rejected by [processJob]. *)
Definition parseRejected : Prop :=
  match p_success (parseExcelFile env buffer), p_employees (parseExcelFile env buffer) with
  | true, Some _ => False
  | _, _ => True
  end.

Definition parsed (employees : list EmployeeData) : Prop :=
  p_success (parseExcelFile env buffer) = true /\
  p_employees (parseExcelFile env buffer) = Some employees.

(** The values of [progress] a job with [n] employees writes on its way
    to [done]. *)
Definition progressSequence (n : nat) : list Z :=
  [5; 10]%Z ++ map (fun i => progressAfter i n) (seq 0 n) ++ [85; 100]%Z.

(** The assertions of the proof. *)
Definition Thrown (w : World) : Prop :=
  status (job w) <> done /\ faulty.

Definition Running (total : option nat) (ps : list Z) (ss : list JobStatus)
  (w : World) : Prop :=
  status (job w) = running /\ totalEmployees (job w) = total /\
  progressWrites (trace w) = ps /\ statusWrites (trace w) = ss.

Definition Stored (rs : list AnalysisResult) (total : option nat) (ps : list Z)
  (ss : list JobStatus) (w : World) : Prop :=
  results (job w) = Some rs /\ Running total ps ss w.

Definition Completed (employees : list EmployeeData) (w : World) : Prop :=
  status (job w) = done /\ progress (job w) = 100%Z /\
  totalEmployees (job w) = Some (List.length employees) /\
  results (job w) = Some (map (analyzeOrFail env) employees) /\
  resultFileName (job w) = Some ("analysis-results-" ++ jobId ++ ".xlsx")%string /\
  progressWrites (trace w) = progressSequence (List.length employees) /\
  statusWrites (trace w) = [running; running; done].

Definition Failed (w : World) : Prop :=
  status (job w) = error /\ (parseRejected \/ fsFault env <> None).

Definition stable (P : World -> Prop) : Prop :=
  forall w w', P w -> sameObs w w' -> P w'.

Ltac prove_stable :=
  let w := fresh "w" in
  let w' := fresh "w" in
  let H := fresh "H" in
  let Hj := fresh "Hj" in
  let Hp := fresh "Hp" in
  let Hs := fresh "Hs" in
  intros w w' H [Hj [Hp Hs]];
  unfold Completed, Failed, Stored, Running, Thrown in *;
  rewrite ?Hj, ?Hp, ?Hs; exact H.

Lemma Running_stable total ps ss : stable (Running total ps ss).
Proof. prove_stable. Qed.

Lemma Completed_stable employees : stable (Completed employees).
Proof. prove_stable. Qed.

Lemma Failed_stable : stable Failed.
Proof. prove_stable. Qed.

Lemma Thrown_stable : stable Thrown.
Proof. prove_stable. Qed.

Lemma triple_quiet {A} (m : M A) (R : A -> Prop) (P : World -> Prop) E :
  quietly m R -> stable P -> triple P m (fun a w => R a /\ P w) E.
Proof.
  intros Hq Hs. apply (triple_quietly m R); [exact Hq|].
  intros w w' a Hw Ho Ha. split; [exact Ha | exact (Hs w w' Hw Ho)].
Qed.

Lemma triple_quiet_unit (m : M unit) (P : World -> Prop) E :
  quietly m (fun _ => True) -> stable P -> triple P m (fun _ => P) E.
Proof.
  intros Hq Hs. eapply triple_weaken; [apply (triple_quiet m _ P E Hq Hs)| | |]; auto.
  intros a w [_ H]. exact H.
Qed.

Lemma triple_quiet_last (m : M unit) (P Q : World -> Prop) E :
  quietly m (fun _ => True) -> stable P -> (forall w, P w -> Q w) ->
  triple P m (fun _ => Q) E.
Proof.
  intros Hq Hs HPQ. eapply triple_weaken; [apply (triple_quiet_unit m P E Hq Hs)| | |]; auto.
Qed.

Lemma triple_assume {A} (fact : Prop) (P : World -> Prop) (m : M A) Q E :
  (fact -> triple P m Q E) -> triple (fun w => fact /\ P w) m Q E.
Proof.
  intros H w [Hf Hw]. now apply H.
Qed.

(** The collaborators that only log. *)
Lemma audit_quiet (e : AuditEvent) : quietly (audit e) (fun _ => True).
Proof.
  apply quietly_emit. exact I.
Qed.

Lemma recordSharePointHistory_quiet (total red green : nat) (st : string)
  (msg : option string) :
  quietly (recordSharePointHistory env jobId batch file total red green st msg)
          (fun _ => True).
Proof.
  unfold recordSharePointHistory.
  destruct (sharePoint env) as [create|]; [|now apply quietly_ret].
  intros w. unfold tryCatch, bind.
  destruct (create _) as [e|].
  - unfold throw. apply audit_quiet.
  - destruct (quietly_emit (HistoryRecorded
      {| h_reviewBatch := batch; h_runId := jobId; h_submittedBy := "System";
         h_fileName := file; h_totalEmployees := total; h_redCount := red;
         h_greenCount := green; h_status := st;
         h_outputFileUrl := ("/api/jobs/" ++ jobId ++ "/download")%string;
         h_errorMessage := msg |}) I w) as [a [w1 [E1 [S1 _]]]].
    rewrite E1.
    destruct (audit_quiet (SHAREPOINT_WRITE_SUCCESS jobId) w1) as [b [w2 [E2 [S2 _]]]].
    rewrite E2. exists b, w2. split; [reflexivity|].
    split; [eapply sameObs_trans; eassumption | exact I].
Qed.

(** [generateResultsExcel] never throws; it succeeds exactly when the file
    system does. *)
Definition written (wr : Writer.WriteResult) : Prop :=
  (fsFault env = None /\ Writer.success wr = true /\
   Writer.fileName wr = Some ("analysis-results-" ++ jobId ++ ".xlsx")%string)
  \/ (fsFault env <> None /\ Writer.success wr = false).

Lemma generateResultsExcel_quiet (rs : list AnalysisResult) :
  quietly (Writer.generateResultsExcel env batch rs jobId) written.
Proof.
  intros w. unfold Writer.generateResultsExcel, tryCatch, written.
  destruct (fsFault env) as [e|] eqn:Efs.
  - unfold throw, ret. eexists; eexists. split; [reflexivity|].
    split; [apply sameObs_refl|]. right. split; [discriminate | reflexivity].
  - unfold bind.
    destruct (quietly_emit (FileWritten
      (Path.join [Path.join [cwd env; "tmp"];
                  ("analysis-results-" ++ jobId ++ ".xlsx")%string])
      (Writer.resultsWorksheet batch rs)) I w) as [a [w1 [E1 [S1 _]]]].
    rewrite E1. unfold ret. eexists; eexists. split; [reflexivity|].
    split; [exact S1|]. left. repeat split.
Qed.

(** One database statement: either it throws and leaves the row alone, or
    it applies its change. *)
Lemma triple_statement (change : Job -> Job) (ev : Event) (P : World -> Prop)
  (Q : unit -> World -> Prop) :
  (forall w, P w -> status (job w) <> done) ->
  (forall w, P w -> dbFault env (dbCalls w) = None ->
     Q tt {| job := change (job w); dbCalls := S (dbCalls w);
             trace := trace w ++ [ev] |}) ->
  triple P (statement env change ev) Q Thrown.
Proof.
  intros Hnd Hok w Hw. unfold statement.
  destruct (dbFault env (dbCalls w)) as [e|] eqn:Ef.
  - split; [exact (Hnd w Hw)|]. now exists (dbCalls w), e.
  - now apply Hok.
Qed.

Lemma progressWrites_update (tr : list Event) (u : JobUpdate) :
  progressWrites (tr ++ [JobUpdated u]) =
  progressWrites tr ++ match u_progress u with Some p => [p] | None => [] end.
Proof.
  rewrite progressWrites_app. simpl. now rewrite app_nil_r.
Qed.

Lemma statusWrites_update (tr : list Event) (u : JobUpdate) :
  statusWrites (tr ++ [JobUpdated u]) =
  statusWrites tr ++ match u_status u with Some s => [s] | None => [] end.
Proof.
  rewrite statusWrites_app. simpl. now rewrite app_nil_r.
Qed.

Lemma progressWrites_stored (tr : list Event) (rs : list AnalysisResult) :
  progressWrites (tr ++ [ResultsStored rs]) = progressWrites tr.
Proof.
  rewrite progressWrites_app. simpl. now rewrite app_nil_r.
Qed.

Lemma statusWrites_stored (tr : list Event) (rs : list AnalysisResult) :
  statusWrites (tr ++ [ResultsStored rs]) = statusWrites tr.
Proof.
  rewrite statusWrites_app. simpl. now rewrite app_nil_r.
Qed.

Ltac simpl_row :=
  cbn [job trace dbCalls applyUpdate setResults status progress totalEmployees
       results resultFileName processedEmployees message orKeep orKeepOpt
       u_status u_progress u_message u_resultFileName u_totalEmployees
       u_processedEmployees statusUpdate];
  rewrite ?progressWrites_update, ?statusWrites_update,
          ?progressWrites_stored, ?statusWrites_stored;
  cbn [u_status u_progress statusUpdate].

Lemma running_not_done (w : World) : status (job w) = running -> status (job w) <> done.
Proof. intros ->. discriminate. Qed.

(** The loop: its updates touch neither [status] nor [totalEmployees],
    and it pushes one result per employee. *)
Lemma analyzeFrom_triple (n : nat) (pre : list Z) (ss : list JobStatus)
  (pending : list EmployeeData) :
  forall (i : nat) (acc : list AnalysisResult),
  triple
    (Running (Some n) (pre ++ map (fun i => progressAfter i n) (seq 0 i)) ss)
    (analyzeFrom env n i pending acc)
    (fun rs w =>
       rs = acc ++ map (analyzeOrFail env) pending /\
       Running (Some n)
         (pre ++ map (fun i => progressAfter i n) (seq 0 (i + List.length pending))) ss w)
    Thrown.
Proof.
  induction pending as [|employee rest IH]; intros i acc.
  - simpl. apply triple_ret. intros w Hw. rewrite app_nil_r, Nat.add_0_r. now split.
  - simpl analyzeFrom.
    apply triple_bind with
      (Q := fun _ => Running (Some n)
                       (pre ++ map (fun i => progressAfter i n) (seq 0 (S i))) ss).
    + apply triple_statement.
      * intros w [Hs _]. now apply running_not_done.
      * intros w [Hs [Ht [Hp Hw]]] _. unfold Running. simpl_row.
        rewrite Hs, Ht, Hp, Hw, seq_S, map_app, app_nil_r. simpl.
        rewrite <- app_assoc. repeat split.
    + intros _. eapply triple_weaken; [apply (IH (S i) (acc ++ [analyzeOrFail env employee]))| | |].
      * auto.
      * intros rs w [-> Hr]. rewrite <- app_assoc. simpl.
        replace (i + S (List.length rest))%nat with (S i + List.length rest)%nat by lia.
        now split.
      * auto.
Qed.

Lemma progressSequence_eq (n : nat) :
  ((([5; 10]%Z ++ map (fun i => progressAfter i n) (seq 0 n)) ++ [85%Z]) ++ [100%Z]) =
  progressSequence n.
Proof.
  unfold progressSequence. rewrite <- !app_assoc. reflexivity.
Qed.

(** How a job ends once its workbook has been parsed. *)
Definition settled (employees : list EmployeeData) (w : World) : Prop :=
  Completed employees w \/ Failed w.

Lemma analyzeAndWrite_triple (employees : list EmployeeData) :
  triple (Running None [5%Z] [running])
         (analyzeAndWrite env jobId batch file employees)
         (fun _ => settled employees)
         Thrown.
Proof.
  unfold analyzeAndWrite.
  set (n := List.length employees).
  set (f := fun i => progressAfter i n).
  apply triple_bind with
    (Q := fun _ => Running (Some n) ([5; 10]%Z ++ map f (seq 0 0)) [running; running]).
  { apply triple_statement.
    - intros w [Hs _]. now apply running_not_done.
    - intros w [Hs [Ht [Hp Hw]]] _. unfold Running. simpl_row.
      rewrite Hp, Hw. repeat split. }
  intros _.
  apply triple_bind with
    (Q := fun rs w => rs = map (analyzeOrFail env) employees /\
            Running (Some n) ([5; 10]%Z ++ map f (seq 0 n)) [running; running] w).
  { eapply triple_weaken; [apply (analyzeFrom_triple n [5; 10]%Z [running; running] employees 0 [])| | |]; auto. }
  intros rs. apply triple_assume. intros ->.
  set (rs := map (analyzeOrFail env) employees).
  apply triple_bind with
    (Q := fun _ => Running (Some n) (([5; 10]%Z ++ map f (seq 0 n)) ++ [85%Z])
                     [running; running]).
  { apply triple_statement.
    - intros w [Hs _]. now apply running_not_done.
    - intros w [Hs [Ht [Hp Hw]]] _. unfold Running. simpl_row.
      rewrite Hs, Ht, Hp, Hw, app_nil_r. repeat split. }
  intros _.
  apply triple_bind with
    (Q := fun wr w => written wr /\
            Running (Some n) (([5; 10]%Z ++ map f (seq 0 n)) ++ [85%Z])
              [running; running] w).
  { apply triple_quiet; [apply generateResultsExcel_quiet | apply Running_stable]. }
  intros wr. apply triple_assume. intros [[Hfs [Hok Hname]]|[Hfs Hko]].
  - (* the workbook was written *)
    rewrite Hok. cbn [negb].
    apply triple_bind with
      (Q := fun _ => Stored rs (Some n) (([5; 10]%Z ++ map f (seq 0 n)) ++ [85%Z])
                       [running; running]).
    { apply triple_statement.
      - intros w [Hs _]. now apply running_not_done.
      - intros w [Hs [Ht [Hp Hw]]] _. unfold Stored, Running. simpl_row.
        rewrite Hs, Ht, Hp, Hw. repeat split. }
    intros _.
    apply triple_bind with (Q := fun _ => Completed employees).
    { apply triple_statement.
      - intros w [_ [Hs _]]. now apply running_not_done.
      - intros w [Hr [Hs [Ht [Hp Hw]]]] _. unfold Completed. simpl_row.
        rewrite Hr, Ht, Hp, Hw, Hname. subst f rs n.
        rewrite progressSequence_eq. repeat split. }
    intros _.
    apply triple_bind with (Q := fun _ => Completed employees).
    { apply triple_quiet_unit; [apply audit_quiet | apply Completed_stable]. }
    intros _. apply (triple_quiet_last _ (Completed employees));
      [apply recordSharePointHistory_quiet | apply Completed_stable |].
    intros w H. now left.
  - (* the workbook could not be written *)
    rewrite Hko. cbn [negb].
    apply triple_bind with (Q := fun _ => Failed).
    { apply triple_statement.
      - intros w [Hs _]. now apply running_not_done.
      - intros w _ _. unfold Failed. simpl_row. split; [reflexivity | now right]. }
    intros _.
    apply triple_bind with (Q := fun _ => Failed).
    { apply triple_quiet_unit; [apply audit_quiet | apply Failed_stable]. }
    intros _. apply (triple_quiet_last _ Failed);
      [apply recordSharePointHistory_quiet | apply Failed_stable |].
    intros w H. now right.
Qed.

(** The world in which [processJob] starts: the row [createJob] inserted,
    nothing written yet. *)
Definition fresh (w : World) : Prop :=
  status (job w) = queued /\ totalEmployees (job w) = None /\
  progressWrites (trace w) = [] /\ statusWrites (trace w) = [].

Lemma fresh_stable : stable fresh.
Proof.
  intros w w' H [Hj [Hp Hs]]. unfold fresh in *. rewrite Hj, Hp, Hs. exact H.
Qed.

(** How [processJob] leaves the job: completed; failed for a cause of its
    own; or not [done] because the database threw. *)
Definition outcome (w : World) : Prop :=
  (exists employees, parsed employees /\ Completed employees w)
  \/ Failed w
  \/ Thrown w.

Lemma processJob_triple :
  triple fresh (processJob env jobId buffer batch file)
         (fun _ => outcome) (fun w => status (job w) <> done /\ faulty).
Proof.
  unfold processJob.
  apply triple_tryCatch with (E' := Thrown).
  - apply triple_bind with (Q := fun _ => fresh).
    { apply triple_quiet_unit; [apply audit_quiet | apply fresh_stable]. }
    intros _.
    apply triple_bind with (Q := fun _ => Running None [5%Z] [running]).
    { apply triple_statement.
      - intros w [Hs _]. rewrite Hs. discriminate.
      - intros w [Hs [Ht [Hp Hw]]] _. unfold Running. simpl_row.
        rewrite Ht, Hp, Hw. repeat split. }
    intros _.
    assert (parseRejected ->
            triple (Running None [5%Z] [running])
              (updateJob env
                 (statusUpdate error 0
                    (Js.orElse (p_error (parseExcelFile env buffer))
                       "Failed to parse Excel file")) ;;
               audit (ANALYSIS_FAILED jobId
                    (Js.orElse (p_error (parseExcelFile env buffer))
                       "Failed to parse Excel file")) ;;
               recordSharePointHistory env jobId batch file 0 0 0 "Failed"
                 (Some (Js.orElse (p_error (parseExcelFile env buffer))
                       "Failed to parse Excel file")))%monad
              (fun _ => outcome) Thrown) as Hrejected.
    { intros Hrej.
      apply triple_bind with (Q := fun _ => Failed).
      { apply triple_statement.
        - intros w [Hs _]. now apply running_not_done.
        - intros w _ _. unfold Failed. simpl_row. split; [reflexivity | now left]. }
      intros _.
      apply triple_bind with (Q := fun _ => Failed).
      { apply triple_quiet_unit; [apply audit_quiet | apply Failed_stable]. }
      intros _. apply (triple_quiet_last _ Failed);
        [apply recordSharePointHistory_quiet | apply Failed_stable |].
      intros w H. right. now left. }
    unfold parseRejected in Hrejected.
    destruct (p_success (parseExcelFile env buffer)) eqn:Eok;
      [destruct (p_employees (parseExcelFile env buffer)) as [employees|] eqn:Eemp|].
    + eapply triple_weaken; [apply (analyzeAndWrite_triple employees)| | |]; auto.
      intros a w [H|H].
      * left. exists employees. split; [|exact H]. unfold parsed. now rewrite Eok, Eemp.
      * right. now left.
    + apply Hrejected. exact I.
    + apply Hrejected. exact I.
  - intros e.
    apply triple_bind with (Q := fun _ => Thrown).
    { apply triple_statement.
      - intros w [Hs _]. exact Hs.
      - intros w [_ Hf] _. unfold Thrown. simpl_row. split; [discriminate | exact Hf]. }
    intros _. apply (triple_quiet_last _ Thrown);
      [apply audit_quiet | apply Thrown_stable |].
    intros w H. right. now right.
Qed.

Lemma initialWorld_fresh (now : nat) : fresh (initialWorld jobId now batch).
Proof. repeat split. Qed.

(** The job row once [processJob] has settled. *)
Definition finalWorld (now : nat) : World :=
  snd (runJob env jobId now buffer batch file).

(** Every run ends in one of three ways. *)
Lemma runJob_outcome (now : nat) :
  (exists employees, parsed employees /\ Completed employees (finalWorld now))
  \/ (status (job (finalWorld now)) <> done /\
      (parseRejected \/ fsFault env <> None \/ faulty)).
Proof.
  unfold finalWorld, runJob.
  pose proof (processJob_triple _ (initialWorld_fresh now)) as H.
  destruct (processJob env jobId buffer batch file (initialWorld jobId now batch))
    as [[e|[]] w]; simpl.
  - right. destruct H as [Hs Hf]. split; [exact Hs | now do 2 right].
  - destruct H as [H|[[Hs Hc]|[Hs Hf]]].
    + now left.
    + right. split; [rewrite Hs; discriminate|]. destruct Hc; [now left | right; now left].
    + right. split; [exact Hs | now do 2 right].
Qed.

End Run.
End RoutesFacts.

(* ================================================================== *)
(** * Rounding in binary64 *)
(* ================================================================== *)

(** [SpecFloat] computes on mantissas and exponents.  This part relates
    its rounding to the rational numbers: what [binary_round_aux]
    returns for a positive number in the normal range is that number
    rounded to 53 bits, to nearest, ties to even. *)
Module Rounding.
Import Binary64.
Local Open Scope Q_scope.

(** [2^t] as a rational. *)
Definition pow2 (t : Z) : Q := 2 ^ t.

(** The value of a positive finite number, [m * 2^e]. *)
Definition valueOf (f : spec_float) : Q :=
  match f with
  | S754_finite false m e => inject_Z (Zpos m) * pow2 e
  | _ => 0
  end.

(** Where [x] lies between [m * u] and [(m + 1) * u]: on [m * u], below
    the middle, on it, above it. *)
Definition located (x u : Q) (m : Z) (l : location) : Prop :=
  match l with
  | loc_Exact => x == inject_Z m * u
  | loc_Inexact Lt => inject_Z m * u < x /\ x < (inject_Z m + (1 # 2)) * u
  | loc_Inexact Eq => x == (inject_Z m + (1 # 2)) * u
  | loc_Inexact Gt => (inject_Z m + (1 # 2)) * u < x /\ x < (inject_Z m + 1) * u
  end.

Definition locatedAt (x : Q) (e : Z) (mrs : shr_record) : Prop :=
  located x (pow2 e) (shr_m mrs) (loc_of_shr_record mrs).

(** The number with mantissa [r] at exponent [t], where [r] is a
    53-bit mantissa or, after a carry, [2^53]. *)
Definition pack (r t : Z) : spec_float :=
  if (r <? 2 ^ 53)%Z then S754_finite false (Z.to_pos r) t
  else S754_finite false (Z.to_pos (2 ^ 52)) (t + 1).

(** [f] is [x] rounded to nearest even at exponent [t]: [x] lies in the
    binade of exponent [t], between [m * 2^t] and [(m + 1) * 2^t], and
    [f] has the mantissa that [round_nearest_even] chooses. *)
Definition Rounds (x : Q) (t : Z) (f : spec_float) : Prop :=
  exists (m : Z) (l : location),
    (2 ^ 52 <= m < 2 ^ 53)%Z /\ located x (pow2 t) m l
    /\ f = pack (round_nearest_even m l) t.

Lemma pow2_pos (t : Z) : 0 < pow2 t.
Proof. apply Qpower_0_lt. reflexivity. Qed.

Lemma pow2_add (a b : Z) : pow2 (a + b) == pow2 a * pow2 b.
Proof. apply Qpower_plus. discriminate. Qed.

Lemma pow2_succ (t : Z) : pow2 (t + 1) == 2 * pow2 t.
Proof. rewrite pow2_add. change (pow2 1) with 2. ring. Qed.

Lemma pow2_nonneg_exp (n : Z) : (0 <= n)%Z -> pow2 n == inject_Z (2 ^ n).
Proof.
  intros H. unfold pow2. rewrite Zpower_Qpower by exact H. reflexivity.
Qed.

Lemma pow2_le (a b : Z) : (a <= b)%Z -> pow2 a <= pow2 b.
Proof.
  intros H. replace b with (a + (b - a))%Z by lia.
  rewrite pow2_add, (pow2_nonneg_exp (b - a)) by lia.
  assert (1 <= 2 ^ (b - a))%Z as P by (apply (Z.pow_le_mono_r 2 0); lia).
  rewrite Zle_Qle in P. pose proof (pow2_pos a) as Q0.
  set (u := pow2 a) in *. set (v := inject_Z (2 ^ (b - a))) in *.
  change (inject_Z 1) with 1 in P. nra.
Qed.

Lemma inject_xO (p : positive) : inject_Z (Zpos p~0) == 2 * inject_Z (Zpos p).
Proof.
  rewrite Pos2Z.inj_xO, inject_Z_mult. reflexivity.
Qed.

Lemma inject_xI (p : positive) : inject_Z (Zpos p~1) == 2 * inject_Z (Zpos p) + 1.
Proof.
  rewrite Pos2Z.inj_xI, inject_Z_plus, inject_Z_mult. reflexivity.
Qed.

(** One shift to the right keeps the location, at twice the unit. *)
Lemma shr_1_located (x : Q) (e : Z) (mrs : shr_record) :
  (0 < shr_m mrs)%Z -> locatedAt x e mrs -> locatedAt x (e + 1) (shr_1 mrs).
Proof.
  unfold locatedAt. destruct mrs as [m r s]. cbn [shr_m]. intros Hm.
  pose proof (pow2_pos e) as U.
  destruct m as [|p|p]; [lia| |lia].
  destruct p as [p|p|]; destruct r, s;
    cbn [shr_1 shr_m loc_of_shr_record located orb];
    rewrite ?inject_xI, ?inject_xO, ?pow2_succ;
    change (inject_Z 1) with 1; change (inject_Z 0) with 0;
    set (u := pow2 e) in *; try set (b := inject_Z (Zpos p)) in *;
    intros H; lra.
Qed.

(** ** The number of digits *)

Lemma digits2_size (p : positive) : digits2_pos p = Pos.size p.
Proof.
  induction p as [p IH|p IH|]; simpl; now rewrite ?IH.
Qed.

Lemma Zdigits2_log2 (m : Z) : (0 < m)%Z -> Zdigits2 m = (Z.log2 m + 1)%Z.
Proof.
  destruct m as [|p|p]; try lia. intros _. simpl.
  destruct p as [p|p|]; simpl; rewrite ?digits2_size; lia.
Qed.

Lemma Zdigits2_bounds (m : Z) :
  (0 < m)%Z -> (2 ^ (Zdigits2 m - 1) <= m < 2 ^ Zdigits2 m)%Z.
Proof.
  intros H. rewrite Zdigits2_log2 by exact H.
  replace (Z.log2 m + 1 - 1)%Z with (Z.log2 m) by lia.
  apply Z.log2_spec, H.
Qed.

Lemma Zdigits2_unique (m d : Z) :
  (1 <= d)%Z -> (2 ^ (d - 1) <= m < 2 ^ d)%Z -> Zdigits2 m = d.
Proof.
  intros Hd H.
  assert (0 < m)%Z as Hm.
  { apply Z.lt_le_trans with (2 ^ (d - 1))%Z; [apply Z.pow_pos_nonneg; lia | lia]. }
  rewrite Zdigits2_log2 by exact Hm.
  rewrite (Z.log2_unique m (d - 1)); [lia | lia |].
  now replace (Z.succ (d - 1)) with d by lia.
Qed.

Lemma shr_1_digits (mrs : shr_record) :
  (0 < shr_m mrs)%Z -> (2 <= Zdigits2 (shr_m mrs))%Z ->
  Zdigits2 (shr_m (shr_1 mrs)) = (Zdigits2 (shr_m mrs) - 1)%Z
  /\ (0 < shr_m (shr_1 mrs))%Z.
Proof.
  destruct mrs as [m r s]. cbn [shr_m]. intros Hm Hd.
  destruct m as [|p|p]; try lia.
  destruct p as [p|p|]; cbn [shr_1 shr_m Zdigits2 digits2_pos] in *;
    rewrite ?Pos2Z.inj_succ; lia.
Qed.

(** ** Shifting to the target exponent *)

Lemma iter_pos_shift {A : Type} (f : A -> A) (P : Z -> A -> Prop) :
  (forall k a, P k a -> P (k + 1)%Z (f a)) ->
  forall n k a, P k a -> P (k + Zpos n)%Z (iter_pos f n a).
Proof.
  intros Hf. induction n as [n IH|n IH|]; intros k a H; cbn [iter_pos].
  - replace (k + Zpos n~1)%Z with (k + 1 + Zpos n + Zpos n)%Z by lia.
    apply IH, IH, Hf, H.
  - replace (k + Zpos n~0)%Z with (k + Zpos n + Zpos n)%Z by lia.
    apply IH, IH, H.
  - apply Hf, H.
Qed.

(** A record that locates [x] after [k] shifts, with the digits that are
    left. *)
Definition shifted (x : Q) (e d k : Z) (mrs : shr_record) : Prop :=
  (k <= d - 53)%Z ->
  locatedAt x (e + k) mrs /\ Zdigits2 (shr_m mrs) = (d - k)%Z /\ (0 < shr_m mrs)%Z.

Lemma shifted_step (x : Q) (e d k : Z) (mrs : shr_record) :
  shifted x e d k mrs -> shifted x e d (k + 1) (shr_1 mrs).
Proof.
  unfold shifted. intros H Hk. destruct H as [Hl [Hd Hm]]; [lia|].
  destruct (shr_1_digits mrs Hm) as [Hd' Hm']; [lia|].
  split; [|split].
  - replace (e + (k + 1))%Z with (e + k + 1)%Z by lia.
    now apply shr_1_located.
  - lia.
  - exact Hm'.
Qed.

Lemma loc_of_record_of_loc (m : Z) (l : location) :
  loc_of_shr_record (shr_record_of_loc m l) = l
  /\ shr_m (shr_record_of_loc m l) = m.
Proof.
  destruct l as [|[| |]]; now split.
Qed.

(** [shr_fexp] on a number of at least 53 digits, in the normal range:
    53 digits are left, at the exponent of the binade. *)
Lemma shr_fexp_located (x : Q) (m e : Z) (l : location) :
  (0 < m)%Z -> (53 <= Zdigits2 m)%Z -> (-1074 <= Zdigits2 m + e - 53)%Z ->
  located x (pow2 e) m l ->
  exists mrs,
    shr_fexp prec emax m e l = (mrs, (Zdigits2 m + e - 53)%Z)
    /\ locatedAt x (Zdigits2 m + e - 53) mrs
    /\ Zdigits2 (shr_m mrs) = 53%Z /\ (0 < shr_m mrs)%Z.
Proof.
  intros Hm Hd He Hl. unfold shr_fexp, fexp.
  change (SpecFloat.emin prec emax) with (-1074)%Z. change prec with 53%Z.
  rewrite Z.max_l by lia.
  destruct (loc_of_record_of_loc m l) as [El Em].
  assert (shifted x e (Zdigits2 m) 0 (shr_record_of_loc m l)) as H0.
  { intros _. unfold locatedAt. rewrite El, Em, Z.add_0_r.
    repeat split; [exact Hl | lia | exact Hm]. }
  remember (Zdigits2 m + e - 53 - e)%Z as n eqn:En.
  destruct n as [|n|n]; cbn [shr].
  - exists (shr_record_of_loc m l).
    destruct H0 as [H1 [H2 H3]]; [lia|].
    rewrite Z.add_0_r in H1.
    replace (Zdigits2 m + e - 53)%Z with e by lia.
    repeat split; [exact H1 | lia | exact H3].
  - exists (iter_pos shr_1 n (shr_record_of_loc m l)).
    pose proof (iter_pos_shift shr_1 (shifted x e (Zdigits2 m))
                  (shifted_step x e (Zdigits2 m)) n 0 _ H0) as H.
    destruct H as [H1 [H2 H3]]; [lia|].
    replace (e + (0 + Zpos n))%Z with (Zdigits2 m + e - 53)%Z in H1 by lia.
    replace (e + Zpos n)%Z with (Zdigits2 m + e - 53)%Z by lia.
    repeat split; [exact H1 | lia | exact H3].
  - lia.
Qed.

(** ** Rounding to nearest even *)

Lemma pack_below (p : positive) (t : Z) :
  (Zpos p < 2 ^ 53)%Z -> pack (Zpos p) t = S754_finite false p t.
Proof.
  intros H. unfold pack. apply Z.ltb_lt in H. now rewrite H.
Qed.

(** [binary_round_aux] on a positive number of at least 53 digits whose
    binade is in the normal range. *)
Lemma binary_round_aux_rounds (x : Q) (m e : Z) (l : location) :
  (0 < m)%Z -> (53 <= Zdigits2 m)%Z ->
  (-1074 <= Zdigits2 m + e - 53 < 971)%Z ->
  located x (pow2 e) m l ->
  Rounds x (Zdigits2 m + e - 53) (binary_round_aux prec emax false m e l).
Proof.
  intros Hm Hd He Hl.
  destruct (shr_fexp_located x m e l Hm Hd) as [mrs [E [L [D P]]]];
    [lia | exact Hl |].
  unfold binary_round_aux. rewrite E.
  set (t := (Zdigits2 m + e - 53)%Z) in *.
  set (m1 := shr_m mrs) in *. unfold locatedAt in L. fold m1 in L.
  set (l1 := loc_of_shr_record mrs) in *.
  pose proof (Zdigits2_bounds m1 P) as B. rewrite D in B.
  change (2 ^ (53 - 1))%Z with (2 ^ 52)%Z in B.
  exists m1, l1. split; [exact B|]. split; [exact L|].
  set (r := round_nearest_even m1 l1).
  assert (m1 <= r <= m1 + 1)%Z as Hr.
  { unfold r, round_nearest_even. destruct l1 as [|[| |]]; try lia.
    destruct (Z.even m1); lia. }
  destruct (Z.ltb_spec r (2 ^ 53)) as [Hlt|Hge].
  - assert (Zdigits2 r = 53%Z) as Dr by (apply Zdigits2_unique; [lia|]; change (2 ^ (53 - 1))%Z with (2 ^ 52)%Z; lia).
    unfold shr_fexp, fexp. rewrite Dr.
    change (SpecFloat.emin prec emax) with (-1074)%Z. change prec with 53%Z.
    rewrite Z.max_l by lia.
    replace (53 + t - 53 - t)%Z with 0%Z by lia. cbn [shr shr_record_of_loc shr_m].
    destruct r as [|p|p]; try lia.
    change (emax - 53)%Z with 971%Z.
    destruct (Z.leb_spec t 971); [|lia].
    symmetry. now apply pack_below.
  - assert (r = 2 ^ 53)%Z as -> by lia.
    unfold shr_fexp, fexp.
    change (Zdigits2 (2 ^ 53)) with 54%Z.
    change (SpecFloat.emin prec emax) with (-1074)%Z. change prec with 53%Z.
    rewrite Z.max_l by lia.
    replace (54 + t - 53 - t)%Z with 1%Z by lia.
    cbn [shr shr_record_of_loc iter_pos].
    change (shr_m (shr_1 {| shr_m := 2 ^ 53; shr_r := false; shr_s := false |}))
      with (2 ^ 52)%Z.
    change (2 ^ 52)%Z with (Zpos (Z.to_pos (2 ^ 52))) at 1.
    cbv iota beta.
    change (emax - 53)%Z with 971%Z.
    destruct (Z.leb_spec (t + 1) 971); [|lia].
    reflexivity.
Qed.

(** ** What rounding keeps *)

Lemma located_between (x u : Q) (m : Z) (l : location) :
  0 < u -> located x u m l -> inject_Z m * u <= x /\ x < (inject_Z m + 1) * u.
Proof.
  intros U. destruct l as [|[| |]]; cbn [located]; intros H; lra.
Qed.

Lemma located_ext (x x' u : Q) (m : Z) (l : location) :
  x == x' -> located x u m l -> located x' u m l.
Proof.
  intros E. destruct l as [|[| |]]; cbn [located]; now rewrite E.
Qed.

Lemma inject_Z_succ (m : Z) : inject_Z (m + 1) == inject_Z m + 1.
Proof.
  rewrite inject_Z_plus. reflexivity.
Qed.

Lemma round_nearest_even_range (m : Z) (l : location) :
  (m <= round_nearest_even m l <= m + 1)%Z.
Proof.
  unfold round_nearest_even. destruct l as [|[| |]]; try lia.
  destruct (Z.even m); lia.
Qed.

(** At one unit, rounding to nearest even is monotone. *)
Lemma round_nearest_even_monotone (x1 x2 u : Q) (m1 m2 : Z) (l1 l2 : location) :
  0 < u -> located x1 u m1 l1 -> located x2 u m2 l2 -> x1 <= x2 ->
  (round_nearest_even m1 l1 <= round_nearest_even m2 l2)%Z.
Proof.
  intros U L1 L2 Hx.
  pose proof (round_nearest_even_range m1 l1) as R1.
  pose proof (round_nearest_even_range m2 l2) as R2.
  destruct (Z.lt_trichotomy m1 m2) as [Hlt|[Heq|Hgt]].
  - lia.
  - subst m2. clear R1 R2.
    set (a := inject_Z m1) in *.
    destruct l1 as [|[| |]], l2 as [|[| |]]; cbn [located round_nearest_even] in *;
      try (destruct (Z.even m1)); try lia; exfalso; nra.
  - exfalso.
    destruct (located_between _ _ _ _ U L1) as [A _].
    destruct (located_between _ _ _ _ U L2) as [_ B].
    assert (m2 + 1 <= m1)%Z as H by lia.
    rewrite Zle_Qle, inject_Z_succ in H.
    set (a := inject_Z m1) in *. set (b := inject_Z m2) in *. nra.
Qed.

Lemma mantissa_bounds (m : Z) :
  (2 ^ 52 <= m < 2 ^ 53)%Z ->
  4503599627370496 <= inject_Z m /\ inject_Z m + 1 <= 9007199254740992.
Proof.
  intros [A B]. split.
  - change 4503599627370496 with (inject_Z (2 ^ 52)). now rewrite <- Zle_Qle.
  - change 9007199254740992 with (inject_Z (2 ^ 53)).
    rewrite <- inject_Z_succ, <- Zle_Qle. lia.
Qed.

Lemma valueOf_pack (r t : Z) :
  (0 < r <= 2 ^ 53)%Z -> valueOf (pack r t) == inject_Z r * pow2 t.
Proof.
  intros H. unfold pack. destruct (Z.ltb_spec r (2 ^ 53)) as [Hlt|Hge]; cbn [valueOf].
  - rewrite Z2Pos.id by lia. reflexivity.
  - assert (r = 2 ^ 53)%Z as -> by lia. rewrite pow2_succ.
    change (inject_Z (Zpos (Z.to_pos (2 ^ 52)))) with 4503599627370496.
    change (inject_Z (2 ^ 53)) with 9007199254740992. ring.
Qed.

Lemma Rounds_value (x : Q) (t : Z) (f : spec_float) :
  Rounds x t f ->
  exists r, (2 ^ 52 <= r <= 2 ^ 53)%Z /\ f = pack r t
            /\ valueOf f == inject_Z r * pow2 t.
Proof.
  intros [m [l [B [L ->]]]].
  pose proof (round_nearest_even_range m l) as R.
  exists (round_nearest_even m l). split; [lia|]. split; [reflexivity|].
  apply valueOf_pack. lia.
Qed.

(** Rounding is monotone: of two numbers, the smaller is not rounded to
    the larger value. *)
Lemma Rounds_monotone (x1 x2 : Q) (t1 t2 : Z) (f1 f2 : spec_float) :
  Rounds x1 t1 f1 -> Rounds x2 t2 f2 -> x1 <= x2 -> valueOf f1 <= valueOf f2.
Proof.
  intros [m1 [l1 [B1 [L1 ->]]]] [m2 [l2 [B2 [L2 ->]]]] Hx.
  pose proof (round_nearest_even_range m1 l1) as R1.
  pose proof (round_nearest_even_range m2 l2) as R2.
  rewrite !valueOf_pack by lia.
  pose proof (pow2_pos t1) as U1. pose proof (pow2_pos t2) as U2.
  destruct (located_between _ _ _ _ U1 L1) as [A1 A1'].
  destruct (located_between _ _ _ _ U2 L2) as [A2 A2'].
  destruct (mantissa_bounds m1 B1) as [M1 M1'].
  destruct (mantissa_bounds m2 B2) as [M2 M2'].
  destruct (Z.lt_trichotomy t1 t2) as [Hlt|[Heq|Hgt]].
  - assert (2 * pow2 t1 <= pow2 t2) as P.
    { rewrite <- pow2_succ. apply pow2_le. lia. }
    assert (inject_Z (round_nearest_even m1 l1) <= inject_Z m1 + 1) as Q1.
    { rewrite <- inject_Z_succ, <- Zle_Qle. lia. }
    assert (inject_Z m2 <= inject_Z (round_nearest_even m2 l2)) as Q2.
    { rewrite <- Zle_Qle. lia. }
    set (u1 := pow2 t1) in *. set (u2 := pow2 t2) in *.
    set (a1 := inject_Z m1) in *. set (a2 := inject_Z m2) in *.
    set (r1 := inject_Z (round_nearest_even m1 l1)) in *.
    set (r2 := inject_Z (round_nearest_even m2 l2)) in *.
    apply Qle_trans with (9007199254740992 * u1); [nra|].
    apply Qle_trans with (4503599627370496 * u2); nra.
  - subst t2.
    pose proof (round_nearest_even_monotone x1 x2 _ m1 m2 l1 l2 U1 L1 L2 Hx) as H.
    rewrite Zle_Qle in H.
    set (u1 := pow2 t1) in *.
    set (r1 := inject_Z (round_nearest_even m1 l1)) in *.
    set (r2 := inject_Z (round_nearest_even m2 l2)) in *. nra.
  - exfalso.
    assert (2 * pow2 t2 <= pow2 t1) as P.
    { rewrite <- pow2_succ. apply pow2_le. lia. }
    set (u1 := pow2 t1) in *. set (u2 := pow2 t2) in *.
    set (a1 := inject_Z m1) in *. set (a2 := inject_Z m2) in *.
    assert (9007199254740992 * u2 <= x1) by nra.
    assert (x2 < 9007199254740992 * u2) by nra.
    lra.
Qed.

Lemma Rounds_ext (x x' : Q) (t : Z) (f : spec_float) :
  x == x' -> Rounds x t f -> Rounds x' t f.
Proof.
  intros E [m [l [B [L F]]]]. exists m, l.
  split; [exact B|]. split; [|exact F]. exact (located_ext _ _ _ _ _ E L).
Qed.

(** The positive normal numbers: 53 digits of mantissa. *)
Definition normal (f : spec_float) (e : Z) : Prop :=
  exists p, f = S754_finite false p e /\ Zdigits2 (Zpos p) = 53%Z.

(** A normal number is its own rounding. *)
Lemma Rounds_normal (f : spec_float) (e : Z) :
  normal f e -> Rounds (valueOf f) e f.
Proof.
  intros [p [-> D]].
  pose proof (Zdigits2_bounds (Zpos p) eq_refl) as B. rewrite D in B.
  change (2 ^ (53 - 1))%Z with (2 ^ 52)%Z in B.
  exists (Zpos p), loc_Exact. split; [exact B|]. split; [reflexivity|].
  cbn [round_nearest_even]. symmetry. apply pack_below. lia.
Qed.

(** What [Rounds] returns is normal. *)
Lemma Rounds_is_normal (x : Q) (t : Z) (f : spec_float) :
  Rounds x t f -> exists e, (t <= e <= t + 1)%Z /\ normal f e.
Proof.
  intros [m [l [B [L ->]]]].
  pose proof (round_nearest_even_range m l) as R.
  set (r := round_nearest_even m l) in *. unfold pack.
  destruct (Z.ltb_spec r (2 ^ 53)) as [Hlt|Hge].
  - exists t. split; [lia|]. exists (Z.to_pos r). split; [reflexivity|].
    rewrite Z2Pos.id by lia. apply Zdigits2_unique; [lia|].
    change (2 ^ (53 - 1))%Z with (2 ^ 52)%Z. lia.
  - exists (t + 1)%Z. split; [lia|]. exists (Z.to_pos (2 ^ 52)). now split.
Qed.

Lemma Zdigits2_between (m a b : Z) :
  (0 <= a)%Z -> (2 ^ a <= m < 2 ^ b)%Z -> (a + 1 <= Zdigits2 m <= b)%Z.
Proof.
  intros Ha [A B].
  assert (0 < m)%Z as Hm.
  { apply Z.lt_le_trans with (2 ^ a)%Z; [apply Z.pow_pos_nonneg; lia | exact A]. }
  pose proof (Zdigits2_bounds m Hm) as [L U].
  assert (1 <= Zdigits2 m)%Z as D1.
  { rewrite Zdigits2_log2 by exact Hm. pose proof (Z.log2_nonneg m). lia. }
  split.
  - destruct (Z.le_gt_cases (a + 1) (Zdigits2 m)) as [C|C]; [exact C|].
    assert (2 ^ Zdigits2 m <= 2 ^ a)%Z by (apply Z.pow_le_mono_r; lia). lia.
  - destruct (Z.le_gt_cases (Zdigits2 m) b) as [C|C]; [exact C|].
    assert (2 ^ b <= 2 ^ (Zdigits2 m - 1))%Z by (apply Z.pow_le_mono_r; lia). lia.
Qed.

(** A rounding that meets a normal number has its value. *)
Lemma Rounds_exact (x : Q) (t : Z) (f g : spec_float) (e : Z) :
  Rounds x t f -> normal g e -> x == valueOf g -> valueOf f == x.
Proof.
  intros R N E. pose proof (Rounds_normal g e N) as G.
  apply Qle_antisym.
  - rewrite E. apply (Rounds_monotone x (valueOf g) t e f g R G). rewrite E. apply Qle_refl.
  - rewrite E. apply (Rounds_monotone (valueOf g) x e t g f G R). rewrite E. apply Qle_refl.
Qed.

(** ** Integers *)

Lemma shl_iter (m d : positive) :
  Zpos (Pos.iter xO m d) = (Zpos m * 2 ^ Zpos d)%Z.
Proof.
  induction d as [|d IH] using Pos.peano_ind.
  - cbn [Pos.iter]. lia.
  - rewrite Pos.iter_succ, Pos2Z.inj_xO, IH, Pos2Z.inj_succ, Z.pow_succ_r by lia. lia.
Qed.

Lemma shl_align_fst (m : positive) (e e' : Z) :
  (e' <= e)%Z ->
  Zpos (fst (shl_align m e e')) = (Zpos m * 2 ^ (e - e'))%Z
  /\ snd (shl_align m e e') = e'.
Proof.
  intros H. unfold shl_align.
  remember (e' - e)%Z as d eqn:Ed. destruct d as [|d|d]; cbn [fst snd].
  - replace (e - e')%Z with 0%Z by lia. split; lia.
  - lia.
  - rewrite shl_iter. replace (e - e')%Z with (Zpos d) by lia. split; [reflexivity | lia].
Qed.

(** A positive safe integer is a normal number of that value. *)
Lemma fromNat_normal (a : nat) :
  (0 < a)%nat -> safe a ->
  exists e, (-52 <= e <= 1)%Z /\ normal (fromNat a) e
            /\ valueOf (fromNat a) == inject_Z (Z.of_nat a).
Proof.
  intros Ha Hs. unfold safe in Hs. unfold fromNat.
  remember (Z.of_nat a) as z eqn:Ez. destruct z as [|p|p]; try lia.
  cbn [binary_normalize]. unfold binary_round.
  assert (0 < Zpos p)%Z as Hp by lia.
  pose proof (Zdigits2_bounds (Zpos p) Hp) as B.
  assert (1 <= Zdigits2 (Zpos p) <= 53)%Z as D.
  { pose proof (Zdigits2_between (Zpos p) 0 53). lia. }
  cbn [Zdigits2] in B, D. set (d := Zpos (digits2_pos p)) in *.
  unfold fexp. change (SpecFloat.emin prec emax) with (-1074)%Z. change prec with 53%Z.
  rewrite Z.max_l by lia.
  destruct (shl_align_fst p 0 (d + 0 - 53)) as [Em Ee]; [lia|].
  destruct (shl_align p 0 (d + 0 - 53)) as [mz ez]. cbn [fst snd] in Em, Ee. subst ez.
  replace (0 - (d + 0 - 53))%Z with (53 - d)%Z in Em by lia.
  assert (Zdigits2 (Zpos mz) = 53%Z) as Dz.
  { apply Zdigits2_unique; [lia|]. rewrite Em.
    replace (2 ^ 53)%Z with (2 ^ d * 2 ^ (53 - d))%Z
      by (rewrite <- Z.pow_add_r by lia; f_equal; lia).
    replace (2 ^ (53 - 1))%Z with (2 ^ (d - 1) * 2 ^ (53 - d))%Z
      by (rewrite <- Z.pow_add_r by lia; f_equal; lia).
    assert (0 < 2 ^ (53 - d))%Z by (apply Z.pow_pos_nonneg; lia). nia. }
  assert (inject_Z (Zpos p) == inject_Z (Zpos mz) * pow2 (d + 0 - 53)) as V.
  { rewrite Em, inject_Z_mult, <- pow2_nonneg_exp by lia.
    rewrite <- Qmult_assoc, <- pow2_add.
    replace (53 - d + (d + 0 - 53))%Z with 0%Z by lia. change (pow2 0) with 1. ring. }
  pose proof (binary_round_aux_rounds (inject_Z (Zpos p)) (Zpos mz) (d + 0 - 53) loc_Exact
                eq_refl) as R.
  rewrite Dz in R. specialize (R ltac:(lia) ltac:(lia) V).
  destruct (Rounds_is_normal _ _ _ R) as [e [He N]].
  exists e. split; [lia|]. split; [exact N|].
  apply (Rounds_exact _ _ _ (S754_finite false mz (d + 0 - 53)) (d + 0 - 53) R).
  - exists mz. now split.
  - exact V.
Qed.

(** ** The operations *)

Lemma normal_mantissa (p : positive) :
  Zdigits2 (Zpos p) = 53%Z -> (2 ^ 52 <= Zpos p < 2 ^ 53)%Z.
Proof.
  intros D. pose proof (Zdigits2_bounds (Zpos p) eq_refl) as B.
  rewrite D in B. exact B.
Qed.

Lemma valueOf_pos (f : spec_float) (e : Z) : normal f e -> 0 < valueOf f.
Proof.
  intros [p [-> _]]. cbn [valueOf]. pose proof (pow2_pos e) as U.
  assert (0 < inject_Z (Zpos p)) as P by (change 0 with (inject_Z 0); rewrite <- Zlt_Qlt; lia).
  set (u := pow2 e) in *. set (a := inject_Z (Zpos p)) in *. nra.
Qed.

(** The product of two normal numbers is rounded. *)
Lemma SFmul_rounds (f1 f2 : spec_float) (e1 e2 : Z) :
  normal f1 e1 -> normal f2 e2 -> (-1126 <= e1 + e2 < 917)%Z ->
  exists t, (e1 + e2 + 52 <= t <= e1 + e2 + 53)%Z
    /\ Rounds (valueOf f1 * valueOf f2) t (SFmul prec emax f1 f2).
Proof.
  intros [p1 [-> D1]] [p2 [-> D2]] He. cbn [SFmul xorb valueOf].
  pose proof (normal_mantissa p1 D1) as B1. pose proof (normal_mantissa p2 D2) as B2.
  assert (105 <= Zdigits2 (Zpos (p1 * p2)) <= 106)%Z as D.
  { apply (Zdigits2_between _ 104 106); [lia|]. rewrite Pos2Z.inj_mul.
    change (2 ^ 104)%Z with (2 ^ 52 * 2 ^ 52)%Z.
    change (2 ^ 106)%Z with (2 ^ 53 * 2 ^ 53)%Z. nia. }
  exists (Zdigits2 (Zpos (p1 * p2)) + (e1 + e2) - 53)%Z. split; [lia|].
  apply binary_round_aux_rounds; [reflexivity | lia | lia |].
  cbn [located]. rewrite Pos2Z.inj_mul, inject_Z_mult, pow2_add. ring.
Qed.

(** The sum of two normal numbers is rounded. *)
Lemma SFadd_rounds (f1 f2 : spec_float) (e1 e2 : Z) :
  normal f1 e1 -> normal f2 e2 ->
  (-1074 <= e1)%Z -> (-1074 <= e2)%Z -> (e1 < 969)%Z -> (e2 < 969)%Z ->
  exists t, (Z.max e1 e2 <= t <= Z.max e1 e2 + 1)%Z
    /\ Rounds (valueOf f1 + valueOf f2) t (SFadd prec emax f1 f2).
Proof.
  intros [p1 [-> D1]] [p2 [-> D2]] L1 L2 U1 U2. cbn [SFadd valueOf cond_Zopp].
  pose proof (normal_mantissa p1 D1) as B1. pose proof (normal_mantissa p2 D2) as B2.
  set (ez := Z.min e1 e2).
  destruct (shl_align_fst p1 e1 ez) as [E1 _]; [unfold ez; lia|].
  destruct (shl_align_fst p2 e2 ez) as [E2 _]; [unfold ez; lia|].
  set (s1 := fst (shl_align p1 e1 ez)) in *. set (s2 := fst (shl_align p2 e2 ez)) in *.
  change (Zpos s1 + Zpos s2)%Z with (Zpos (s1 + s2)). cbn [binary_normalize].
  set (k := (Z.max e1 e2 - ez)%Z).
  assert (0 <= k)%Z as Hk by (unfold k, ez; lia).
  assert (0 < 2 ^ k)%Z as Pk by (apply Z.pow_pos_nonneg; lia).
  assert (2 ^ 52 * 2 ^ k + 2 ^ 52 <= Zpos (s1 + s2) < 2 ^ 53 * 2 ^ k + 2 ^ 53 * 2 ^ k)%Z as B.
  { rewrite Pos2Z.inj_add, E1, E2.
    assert (1 <= 2 ^ (e1 - ez))%Z by (apply (Z.pow_le_mono_r 2 0); unfold ez; lia).
    assert (1 <= 2 ^ (e2 - ez))%Z by (apply (Z.pow_le_mono_r 2 0); unfold ez; lia).
    assert (2 ^ (e1 - ez) <= 2 ^ k)%Z by (apply Z.pow_le_mono_r; unfold k; lia).
    assert (2 ^ (e2 - ez) <= 2 ^ k)%Z by (apply Z.pow_le_mono_r; unfold k; lia).
    destruct (Z.le_ge_cases e1 e2) as [C|C].
    - replace (e2 - ez)%Z with k in * by (unfold k, ez; lia). nia.
    - replace (e1 - ez)%Z with k in * by (unfold k, ez; lia). nia. }
  assert (53 + k <= Zdigits2 (Zpos (s1 + s2)) <= 54 + k)%Z as D.
  { pose proof (Zdigits2_between (Zpos (s1 + s2)) (52 + k) (54 + k)) as H.
    rewrite !Z.pow_add_r in H by lia.
    change (2 ^ 54)%Z with (2 * 2 ^ 53)%Z in H. lia. }
  unfold binary_round.
  assert (shl_align (s1 + s2) ez (fexp prec emax (Zpos (digits2_pos (s1 + s2)) + ez))
          = ((s1 + s2)%positive, ez)) as ->.
  { unfold shl_align, fexp. change (SpecFloat.emin prec emax) with (-1074)%Z.
    change prec with 53%Z. cbn [Zdigits2] in D.
    remember (Z.max (Zpos (digits2_pos (s1 + s2)) + ez - 53) (-1074) - ez)%Z as n eqn:En.
    destruct n as [|n|n]; try reflexivity. lia. }
  exists (Zdigits2 (Zpos (s1 + s2)) + ez - 53)%Z. split; [unfold k in D; lia|].
  apply binary_round_aux_rounds; [reflexivity | lia | unfold k, ez in *; lia |].
  cbn [located]. rewrite Pos2Z.inj_add, inject_Z_plus, E1, E2, !inject_Z_mult.
  rewrite <- !pow2_nonneg_exp by (unfold ez; lia).
  rewrite Qmult_plus_distr_l, <- !Qmult_assoc, <- !pow2_add.
  replace (e1 - ez + ez)%Z with e1 by lia. replace (e2 - ez + ez)%Z with e2 by lia.
  reflexivity.
Qed.

Lemma ratio_cases (rho n c a : Q) :
  0 < n -> rho * n == c ->
  (a * n < c -> a < rho) /\ (c < a * n -> rho < a) /\ (c == a * n -> rho == a).
Proof.
  intros N E. rewrite <- E. repeat split; intros H.
  - now apply Qmult_lt_r in H.
  - now apply Qmult_lt_r in H.
  - apply Qmult_inj_r in H; [exact H|]. intros Z. rewrite Z in N. discriminate N.
Qed.

Lemma ratio_le (rho n c a : Q) :
  0 < n -> rho * n == c -> a * n <= c -> a <= rho.
Proof.
  intros N E H. rewrite <- E in H. now apply Qmult_le_r in H.
Qed.

(** The remainder of a division, as a location. *)
Lemma new_location_located (nb k : Z) (rho : Q) :
  (0 <= k < nb)%Z -> rho * inject_Z nb == inject_Z k ->
  located rho 1 0 (new_location nb k).
Proof.
  intros Hk E.
  assert (0 < inject_Z nb) as N by (change 0 with (inject_Z 0); rewrite <- Zlt_Qlt; lia).
  assert (inject_Z k < inject_Z nb) as KN by (rewrite <- Zlt_Qlt; lia).
  assert (k <> 0%Z -> 0 < inject_Z k) as K
    by (intros K0; change 0 with (inject_Z 0); rewrite <- Zlt_Qlt; lia).
  assert ((2 * k < nb)%Z -> 2 * inject_Z k < inject_Z nb) as CLt.
  { intros C. rewrite Zlt_Qlt, inject_Z_mult in C. exact C. }
  assert ((nb < 2 * k)%Z -> inject_Z nb < 2 * inject_Z k) as CGt.
  { intros C. rewrite Zlt_Qlt, inject_Z_mult in C. exact C. }
  assert ((2 * k = nb)%Z -> 2 * inject_Z k == inject_Z nb) as CEq.
  { intros <-. rewrite inject_Z_mult. reflexivity. }
  assert (k = 0%Z -> inject_Z k == 0) as KZ by (now intros ->).
  set (n := inject_Z nb) in *. set (c := inject_Z k) in *. clearbody n c.
  destruct (ratio_cases rho _ _ 0 N E) as [Pos [_ Zero]].
  destruct (ratio_cases rho _ _ (1 # 2) N E) as [Above [Below Half]].
  destruct (ratio_cases rho _ _ 1 N E) as [_ [One _]].
  unfold new_location.
  destruct (Z.even nb) eqn:Ev; unfold new_location_even, new_location_odd;
    destruct (Z.eqb_spec k 0) as [K0|K0].
  1,3: specialize (KZ K0); cbn [located]; change (inject_Z 0) with 0; rewrite Zero; [ring | rewrite KZ; ring].
  - specialize (K K0).
    destruct (Z.compare_spec (2 * k) nb) as [C|C|C]; cbn [located]; change (inject_Z 0) with 0.
    + specialize (CEq C). rewrite Half; [ring | lra].
    + specialize (CLt C).
      assert (0 < rho) by (apply Pos; lra).
      assert (rho < 1 # 2) by (apply Below; lra). split; lra.
    + specialize (CGt C).
      assert (1 # 2 < rho) by (apply Above; lra).
      assert (rho < 1) by (apply One; lra). split; lra.
  - specialize (K K0).
    assert (2 * k <> nb)%Z as Odd.
    { intros <-. rewrite Z.even_mul in Ev. discriminate Ev. }
    assert ((2 * k < nb)%Z -> located rho 1 0 (loc_Inexact Lt)) as CaseLt.
    { intros C1. specialize (CLt C1). cbn [located]; change (inject_Z 0) with 0.
      assert (0 < rho) by (apply Pos; lra).
      assert (rho < 1 # 2) by (apply Below; lra). split; lra. }
    destruct (Z.compare_spec (2 * k + 1) nb) as [C|C|C].
    + apply CaseLt. lia.
    + apply CaseLt. lia.
    + assert (nb < 2 * k)%Z as C1 by lia. specialize (CGt C1).
      cbn [located]; change (inject_Z 0) with 0.
      assert (1 # 2 < rho) by (apply Above; lra).
      assert (rho < 1) by (apply One; lra). split; lra.
Qed.

Lemma located_scale (x u rho : Q) (q : Z) (l : location) :
  0 < u -> x == (inject_Z q + rho) * u -> located rho 1 0 l -> located x u q l.
Proof.
  intros U E. change (inject_Z 0) with 0.
  destruct l as [|[| |]]; cbn [located]; change (inject_Z 0) with 0;
    set (a := inject_Z q) in *; intros H; rewrite E; try split; nra.
Qed.

(** The quotient of two normal numbers is rounded. *)
Lemma SFdiv_rounds (f1 f2 : spec_float) (e1 e2 : Z) :
  normal f1 e1 -> normal f2 e2 -> (-1021 <= e1 - e2 < 1023)%Z ->
  exists t, (e1 - e2 - 53 <= t <= e1 - e2 - 52)%Z
    /\ Rounds (valueOf f1 / valueOf f2) t (SFdiv prec emax f1 f2).
Proof.
  intros [p1 [-> D1]] [p2 [-> D2]] He. cbn [SFdiv xorb valueOf].
  pose proof (normal_mantissa p1 D1) as B1. pose proof (normal_mantissa p2 D2) as B2.
  unfold SFdiv_core_binary. rewrite D1, D2. unfold fexp.
  change (SpecFloat.emin prec emax) with (-1074)%Z. change prec with 53%Z.
  replace (53 + e1 - (53 + e2))%Z with (e1 - e2)%Z by lia.
  rewrite Z.max_l, Z.min_l by lia.
  replace (e1 - e2 - (e1 - e2 - 53))%Z with 53%Z by lia.
  cbv iota beta. rewrite Z.shiftl_mul_pow2 by lia.
  pose proof (Z.div_eucl_eq (Zpos p1 * 2 ^ 53) (Zpos p2) ltac:(lia)) as Eq.
  pose proof (Z.mod_pos_bound (Zpos p1 * 2 ^ 53) (Zpos p2) ltac:(lia)) as Br.
  unfold Z.modulo in Br.
  destruct (Z.div_eucl (Zpos p1 * 2 ^ 53) (Zpos p2)) as [q r].
  assert (2 ^ 52 <= q < 2 ^ 54)%Z as Bq.
  { change (2 ^ 54)%Z with (2 * 2 ^ 53)%Z. split.
    - destruct (Z.le_gt_cases (2 ^ 52) q) as [C|C]; [exact C|]. exfalso.
      assert (Zpos p2 * q + r < Zpos p2 * 2 ^ 52)%Z by nia.
      assert (Zpos p2 * 2 ^ 52 <= 2 ^ 52 * 2 ^ 53)%Z by nia. nia.
    - destruct (Z.le_gt_cases (2 * 2 ^ 53) q) as [C|C]; [|exact C]. exfalso.
      assert (2 ^ 52 * (2 * 2 ^ 53) <= Zpos p2 * q)%Z by nia. nia. }
  assert (53 <= Zdigits2 q <= 54)%Z as Dq
    by (apply (Zdigits2_between q 52 54); [lia | exact Bq]).
  exists (Zdigits2 q + (e1 - e2 - 53) - 53)%Z. split; [lia|].
  apply binary_round_aux_rounds; [lia | lia | lia |].
  pose proof (pow2_pos (e1 - e2 - 53)) as U.
  assert (0 < inject_Z (Zpos p2)) as P2
    by (change 0 with (inject_Z 0); rewrite <- Zlt_Qlt; lia).
  assert (~ inject_Z (Zpos p2) == 0) as P2' by (intros Z; rewrite Z in P2; discriminate P2).
  apply (located_scale _ _ (inject_Z r / inject_Z (Zpos p2))); [exact U | |].
  - assert (inject_Z (Zpos p1) * 9007199254740992
            == inject_Z (Zpos p2) * inject_Z q + inject_Z r) as EQ.
    { rewrite <- inject_Z_mult, <- inject_Z_plus, <- Eq, inject_Z_mult. reflexivity. }
    assert (pow2 e1 == pow2 e2 * pow2 (e1 - e2 - 53) * 9007199254740992) as U1.
    { change 9007199254740992 with (pow2 53). rewrite <- !pow2_add.
      now replace (e2 + (e1 - e2 - 53) + 53)%Z with e1 by lia. }
    pose proof (pow2_pos e2) as U2.
    assert (~ pow2 e2 == 0) as U2' by (intros Z; rewrite Z in U2; discriminate U2).
    rewrite U1.
    set (a1 := inject_Z (Zpos p1)) in *. set (a2 := inject_Z (Zpos p2)) in *.
    set (u := pow2 (e1 - e2 - 53)) in *. set (u2 := pow2 e2) in *.
    set (qq := inject_Z q) in *. set (rr := inject_Z r) in *.
    transitivity ((a1 * 9007199254740992) * u / a2); [field; split; assumption|].
    rewrite EQ. field. exact P2'.
  - apply new_location_located; [exact Br|]. field. exact P2'.
Qed.

(** ** [Math.round] *)

(** [round] is the floor of the value plus one half. *)
Lemma round_floor (p : positive) (e : Z) :
  inject_Z (round (S754_finite false p e)) <= valueOf (S754_finite false p e) + (1 # 2)
  /\ valueOf (S754_finite false p e) + (1 # 2) < inject_Z (round (S754_finite false p e)) + 1.
Proof.
  cbn [round valueOf cond_Zopp]. destruct e as [|k|k].
  - change (pow2 0) with 1. rewrite Z.mul_1_r.
    set (a := inject_Z (Zpos p)). clearbody a. split; lra.
  - rewrite inject_Z_mult, <- pow2_nonneg_exp by lia.
    pose proof (pow2_pos (Zpos k)) as U.
    set (a := inject_Z (Zpos p)). set (u := pow2 (Zpos k)) in *. clearbody a u.
    split; lra.
  - set (N := (2 * Zpos p + 2 ^ Zpos k)%Z). set (D := (2 ^ (Zpos k + 1))%Z).
    assert (0 < 2 ^ Zpos k)%Z as Pk by (apply Z.pow_pos_nonneg; lia).
    assert (D = 2 * 2 ^ Zpos k)%Z as ED
      by (unfold D; rewrite Z.pow_add_r by lia; lia).
    assert (0 < D)%Z as PD by lia.
    pose proof (Z.mul_div_le N D PD) as L.
    pose proof (Z.mul_succ_div_gt N D PD) as G.
    set (z := (N / D)%Z) in *.
    assert (pow2 (Zneg k) * inject_Z (2 ^ Zpos k) == 1) as W.
    { rewrite <- pow2_nonneg_exp, <- pow2_add by lia.
      now replace (Zneg k + Zpos k)%Z with 0%Z by lia. }
    assert (0 < inject_Z D) as QD by (change 0 with (inject_Z 0); rewrite <- Zlt_Qlt; lia).
    assert ((inject_Z (Zpos p) * pow2 (Zneg k) + (1 # 2)) * inject_Z D == inject_Z N) as E.
    { unfold N. rewrite ED, !inject_Z_plus, !inject_Z_mult.
      change (inject_Z 2) with 2.
      set (a := inject_Z (Zpos p)) in *. set (w := pow2 (Zneg k)) in *.
      set (c := inject_Z (2 ^ Zpos k)) in *.
      transitivity (2 * a * (w * c) + c); [ring|]. rewrite W. ring. }
    split.
    + apply (ratio_le _ _ _ _ QD E).
      rewrite <- inject_Z_mult, <- Zle_Qle. lia.
    + destruct (ratio_cases _ _ _ (inject_Z z + 1) QD E) as [_ [H _]].
      apply H. rewrite <- inject_Z_succ, <- inject_Z_mult, <- Zlt_Qlt.
      unfold Z.succ in G. lia.
Qed.

Lemma round_monotone (f1 f2 : spec_float) (e1 e2 : Z) :
  normal f1 e1 -> normal f2 e2 -> valueOf f1 <= valueOf f2 ->
  (round f1 <= round f2)%Z.
Proof.
  intros [p1 [-> _]] [p2 [-> _]] H.
  destruct (round_floor p1 e1) as [A _]. destruct (round_floor p2 e2) as [_ B].
  assert (inject_Z (round (S754_finite false p1 e1))
          < inject_Z (round (S754_finite false p2 e2) + 1)) as C.
  { rewrite inject_Z_succ.
    set (v1 := valueOf _) in *. set (v2 := valueOf _) in *.
    set (r1 := inject_Z _) in *. set (r2 := inject_Z _) in *.
    clearbody v1 v2 r1 r2. lra. }
  rewrite <- Zlt_Qlt in C. lia.
Qed.

Lemma round_lower (f : spec_float) (e k : Z) :
  normal f e -> inject_Z k <= valueOf f -> (k <= round f)%Z.
Proof.
  intros [p [-> _]] H. destruct (round_floor p e) as [_ B].
  assert (inject_Z k < inject_Z (round (S754_finite false p e) + 1)) as C.
  { rewrite inject_Z_succ.
    set (v := valueOf _) in *. set (r := inject_Z (round _)) in *.
    set (c := inject_Z k) in *. clearbody v r c. lra. }
  rewrite <- Zlt_Qlt in C. lia.
Qed.

Lemma round_upper (f : spec_float) (e k : Z) :
  normal f e -> valueOf f <= inject_Z k -> (round f <= k)%Z.
Proof.
  intros [p [-> _]] H. destruct (round_floor p e) as [A _].
  assert (inject_Z (round (S754_finite false p e)) < inject_Z (k + 1)) as C.
  { rewrite inject_Z_succ.
    set (v := valueOf _) in *. set (r := inject_Z (round _)) in *.
    set (c := inject_Z k) in *. clearbody v r c. lra. }
  rewrite <- Zlt_Qlt in C. lia.
Qed.

(** ** The progress formula *)

Lemma small_safe (k : nat) : (k <= 100)%nat -> safe k.
Proof.
  intros H. unfold safe. apply Z.le_lt_trans with 100%Z; [lia | reflexivity].
Qed.

(** The three operations of [10 + (a / n) * 70], each correctly
    rounded. *)
Lemma formula_rounds (a n : nat) :
  (0 < a)%nat -> (0 < n)%nat -> safe a -> safe n ->
  let x := SFdiv prec emax (fromNat a) (fromNat n) in
  let y := SFmul prec emax x (fromNat 70) in
  let z := SFadd prec emax (fromNat 10) y in
  exists tx ty tz ey ez,
    Rounds (inject_Z (Z.of_nat a) / inject_Z (Z.of_nat n)) tx x
    /\ Rounds (valueOf x * 70) ty y
    /\ Rounds (10 + valueOf y) tz z
    /\ normal y ey /\ normal z ez.
Proof.
  intros Ha Hn Sa Sn x y z.
  destruct (fromNat_normal a Ha Sa) as [ea [Ba [Na Va]]].
  destruct (fromNat_normal n Hn Sn) as [en [Bn [Nn Vn]]].
  destruct (fromNat_normal 70) as [e70 [B70 [N70 V70]]]; [lia | apply small_safe; lia |].
  destruct (fromNat_normal 10) as [e10 [B10 [N10 V10]]]; [lia | apply small_safe; lia |].
  destruct (SFdiv_rounds _ _ ea en Na Nn) as [tx [Btx Rx]]; [lia|]. fold x in Rx.
  destruct (Rounds_is_normal _ _ _ Rx) as [ex [Bex Nx]].
  destruct (SFmul_rounds _ _ ex e70 Nx N70) as [ty [Bty Ry]]; [lia|]. fold y in Ry.
  destruct (Rounds_is_normal _ _ _ Ry) as [ey [Bey Ny]].
  destruct (SFadd_rounds _ _ e10 ey N10 Ny) as [tz [Btz Rz]]; try lia. fold z in Rz.
  destruct (Rounds_is_normal _ _ _ Rz) as [ez [Bez Nz]].
  exists tx, ty, tz, ey, ez. repeat split.
  - apply (Rounds_ext (valueOf (fromNat a) / valueOf (fromNat n)));
      [rewrite Va, Vn; reflexivity | exact Rx].
  - apply (Rounds_ext (valueOf x * valueOf (fromNat 70)));
      [rewrite V70; reflexivity | exact Ry].
  - apply (Rounds_ext (valueOf (fromNat 10) + valueOf y));
      [rewrite V10; reflexivity | exact Rz].
  - exact Ny.
  - exact Nz.
Qed.

(** A rounding is on the same side of a safe integer as the number. *)
Lemma Rounds_le_nat (x : Q) (t : Z) (f : spec_float) (k : nat) :
  (0 < k)%nat -> safe k -> Rounds x t f -> x <= inject_Z (Z.of_nat k) ->
  valueOf f <= inject_Z (Z.of_nat k).
Proof.
  intros Hk Sk R H. destruct (fromNat_normal k Hk Sk) as [e [_ [N V]]].
  rewrite <- V. apply (Rounds_monotone x _ t e f _ R (Rounds_normal _ _ N)).
  now rewrite V.
Qed.

Lemma Rounds_ge_nat (x : Q) (t : Z) (f : spec_float) (k : nat) :
  (0 < k)%nat -> safe k -> Rounds x t f -> inject_Z (Z.of_nat k) <= x ->
  inject_Z (Z.of_nat k) <= valueOf f.
Proof.
  intros Hk Sk R H. destruct (fromNat_normal k Hk Sk) as [e [_ [N V]]].
  rewrite <- V. apply (Rounds_monotone _ x e t _ f (Rounds_normal _ _ N) R).
  now rewrite V.
Qed.

Lemma ratio_le_one (a n : nat) :
  (0 < n)%nat -> (a <= n)%nat -> inject_Z (Z.of_nat a) / inject_Z (Z.of_nat n) <= 1.
Proof.
  intros Hn H. apply Qle_shift_div_r.
  - change 0 with (inject_Z 0). rewrite <- Zlt_Qlt. lia.
  - rewrite Qmult_1_l, <- Zle_Qle. lia.
Qed.

Lemma ratio_monotone (a b n : nat) :
  (0 < n)%nat -> (a <= b)%nat ->
  inject_Z (Z.of_nat a) / inject_Z (Z.of_nat n)
  <= inject_Z (Z.of_nat b) / inject_Z (Z.of_nat n).
Proof.
  intros Hn H. unfold Qdiv. apply Qmult_le_compat_r.
  - rewrite <- Zle_Qle. lia.
  - apply Qinv_le_0_compat. change 0 with (inject_Z 0). rewrite <- Zle_Qle. lia.
Qed.

(** The formula of [processJob] in binary64. *)
Definition progress64 (i n : nat) : Z :=
  Routes.progressAfter (arith := binary64) i n.

Lemma progress64_formula (i n : nat) :
  progress64 i n
  = round (SFadd prec emax (fromNat 10)
             (SFmul prec emax (SFdiv prec emax (fromNat (i + 1)) (fromNat n))
                (fromNat 70))).
Proof. reflexivity. Qed.

Lemma safe_le (a b : nat) : (a <= b)%nat -> safe b -> safe a.
Proof.
  unfold safe. intros H Hb. lia.
Qed.

(** The progress written after a record is not smaller than the
    progress written after an earlier one. *)
Lemma progress64_monotone (i j n : nat) :
  (i <= j)%nat -> (j < n)%nat -> safe n -> (progress64 i n <= progress64 j n)%Z.
Proof.
  intros Hij Hj Sn. rewrite !progress64_formula.
  destruct (formula_rounds (i + 1) n) as [tx [ty [tz [ey [ez [Rx [Ry [Rz [_ Nz]]]]]]]]];
    [lia | lia | apply (safe_le _ n); [lia | exact Sn] | exact Sn |].
  destruct (formula_rounds (j + 1) n) as [tx' [ty' [tz' [ey' [ez' [Rx' [Ry' [Rz' [_ Nz']]]]]]]]];
    [lia | lia | apply (safe_le _ n); [lia | exact Sn] | exact Sn |].
  apply (round_monotone _ _ ez ez' Nz Nz').
  apply (Rounds_monotone _ _ _ _ _ _ Rz Rz').
  apply Qplus_le_compat; [apply Qle_refl|].
  apply (Rounds_monotone _ _ _ _ _ _ Ry Ry').
  apply Qmult_le_compat_r; [|discriminate].
  apply (Rounds_monotone _ _ _ _ _ _ Rx Rx').
  apply ratio_monotone; lia.
Qed.

(** Every per-record progress lies between 10 and 80. *)
Lemma progress64_bounds (i n : nat) :
  (i < n)%nat -> safe n -> (10 <= progress64 i n <= 80)%Z.
Proof.
  intros Hi Sn. rewrite progress64_formula.
  destruct (formula_rounds (i + 1) n) as [tx [ty [tz [ey [ez [Rx [Ry [Rz [Ny Nz]]]]]]]]];
    [lia | lia | apply (safe_le _ n); [lia | exact Sn] | exact Sn |].
  set (x := SFdiv _ _ _ _) in *. set (y := SFmul _ _ _ _) in *. set (z := SFadd _ _ _ _) in *.
  pose proof (valueOf_pos y ey Ny) as Py.
  split.
  - apply (round_lower z ez 10 Nz).
    apply (Rounds_ge_nat (10 + valueOf y) tz z 10); [lia | apply small_safe; lia | exact Rz |].
    change (inject_Z (Z.of_nat 10)) with 10. set (v := valueOf y) in *. clearbody v. lra.
  - apply (round_upper z ez 80 Nz).
    apply (Rounds_le_nat (10 + valueOf y) tz z 80); [lia | apply small_safe; lia | exact Rz |].
    assert (valueOf x <= 1) as Hx.
    { apply (Rounds_le_nat (inject_Z (Z.of_nat (i + 1)) / inject_Z (Z.of_nat n)) tx x 1); [lia | apply small_safe; lia | exact Rx |].
      apply ratio_le_one; lia. }
    assert (valueOf y <= 70) as Hy.
    { apply (Rounds_le_nat (valueOf x * 70) ty y 70); [lia | apply small_safe; lia | exact Ry |].
      change (inject_Z (Z.of_nat 70)) with 70. set (v := valueOf x) in *. clearbody v. lra. }
    change (inject_Z (Z.of_nat 80)) with 80. set (v := valueOf y) in *. clearbody v. lra.
Qed.

(** After the last record the formula gives exactly 80. *)
Lemma progress64_last (n : nat) :
  (0 < n)%nat -> safe n -> progress64 (n - 1) n = 80%Z.
Proof.
  intros Hn Sn. rewrite progress64_formula.
  replace (n - 1 + 1)%nat with n by lia.
  destruct (formula_rounds n n) as [tx [ty [tz [ey [ez [Rx [Ry [Rz [Ny Nz]]]]]]]]];
    [lia | lia | exact Sn | exact Sn |].
  set (x := SFdiv _ _ _ _) in *. set (y := SFmul _ _ _ _) in *. set (z := SFadd _ _ _ _) in *.
  destruct (fromNat_normal 1) as [e1 [_ [N1 V1]]]; [lia | apply small_safe; lia |].
  destruct (fromNat_normal 70) as [e70 [_ [N70 V70]]]; [lia | apply small_safe; lia |].
  destruct (fromNat_normal 80) as [e80 [_ [N80 V80]]]; [lia | apply small_safe; lia |].
  assert (inject_Z (Z.of_nat n) / inject_Z (Z.of_nat n) == 1) as E.
  { field. intros Z.
    assert (0 < inject_Z (Z.of_nat n)) as P
      by (change 0 with (inject_Z 0); rewrite <- Zlt_Qlt; lia).
    rewrite Z in P. discriminate P. }
  assert (valueOf x == 1) as Vx.
  { rewrite (Rounds_exact _ tx x _ e1 Rx N1); [exact E|]. now rewrite E, V1. }
  assert (valueOf y == 70) as Vy.
  { rewrite (Rounds_exact _ ty y _ e70 Ry N70); rewrite Vx, ?V70; reflexivity. }
  assert (valueOf z == 80) as Vz.
  { rewrite (Rounds_exact _ tz z _ e80 Rz N80); rewrite Vy, ?V80; reflexivity. }
  apply Z.le_antisymm.
  - apply (round_upper z ez 80 Nz). rewrite Vz. discriminate.
  - apply (round_lower z ez 80 Nz). rewrite Vz. discriminate.
Qed.

End Rounding.

(* ================================================================== *)
(** * The progress formula *)
(* ================================================================== *)

Module ProgressFacts.
Import Routes.

(** A list of integers in which no element is smaller than an earlier
    one. *)
Definition nondecreasing (l : list Z) : Prop := StronglySorted Z.le l.

(** What the orchestrator needs of [Math.round(10 + ((i + 1) / n) * 70)]
    for a safe number [n] of records: it does not decrease with [i], it
    lies between 10 and 80, and it is 80 after the last record. *)
Definition steady {F : Type} (arith : JsNumber F) : Prop :=
  forall n, safe n ->
    (forall i j, (i <= j)%nat -> (j < n)%nat ->
       (progressAfter i n <= progressAfter j n)%Z)
    /\ (forall i, (i < n)%nat -> (10 <= progressAfter i n <= 80)%Z)
    /\ ((0 < n)%nat -> progressAfter (n - 1) n = 80%Z).

(** The formula is steady in binary64. *)
Lemma binary64_steady : steady Binary64.binary64.
Proof.
  intros n Hn. split; [|split].
  - intros i j Hij Hj. now apply Rounding.progress64_monotone.
  - intros i Hi. now apply Rounding.progress64_bounds.
  - intros Hpos. now apply Rounding.progress64_last.
Qed.

Lemma nondecreasing_app (l1 l2 : list Z) :
  nondecreasing l1 -> nondecreasing l2 ->
  (forall a b, In a l1 -> In b l2 -> (a <= b)%Z) ->
  nondecreasing (l1 ++ l2).
Proof.
  unfold nondecreasing. intros H1 H2 H12.
  induction l1 as [|x l1 IH]; simpl; [exact H2|].
  apply StronglySorted_inv in H1. destruct H1 as [Hs Hx].
  constructor.
  - apply IH; [exact Hs|]. intros a b Ha Hb. apply H12; [now right | exact Hb].
  - rewrite Forall_forall in *. intros y Hy. apply in_app_or in Hy.
    destruct Hy as [Hy|Hy]; [now apply Hx | apply H12; [now left | exact Hy]].
Qed.

Lemma nondecreasing_map_seq (f : nat -> Z) (start len : nat) :
  (forall i j, (start <= i)%nat -> (i <= j)%nat -> (j < start + len)%nat ->
     (f i <= f j)%Z) ->
  nondecreasing (map f (seq start len)).
Proof.
  unfold nondecreasing. revert start.
  induction len as [|len IH]; intros start Hf; simpl; constructor.
  - apply IH. intros i j Hi Hij Hj. apply Hf; lia.
  - rewrite Forall_forall. intros y Hy. apply in_map_iff in Hy.
    destruct Hy as [j [<- Hj]]. apply in_seq in Hj. apply Hf; lia.
Qed.

Section Sequence.
Context {F : Type} {arith : JsNumber F}.
Hypothesis formula : steady arith.

Lemma progressAfter_monotone (i j n : nat) :
  (i <= j)%nat -> (j < n)%nat -> safe n ->
  (progressAfter i n <= progressAfter j n)%Z.
Proof.
  intros Hij Hj Hn. now apply (formula n Hn).
Qed.

Lemma progressAfter_lower (i n : nat) :
  (i < n)%nat -> safe n -> (10 <= progressAfter i n)%Z.
Proof.
  intros Hi Hn. now apply (formula n Hn).
Qed.

Lemma progressAfter_upper (i n : nat) :
  (i < n)%nat -> safe n -> (progressAfter i n <= 80)%Z.
Proof.
  intros Hi Hn. now apply (formula n Hn).
Qed.

(** After the last record the formula gives 80. *)
Lemma progressAfter_last (n : nat) :
  (0 < n)%nat -> safe n -> progressAfter (n - 1) n = 80%Z.
Proof.
  intros Hpos Hn. now apply (formula n Hn).
Qed.

(** 5, 10, the per-record values, 85, 100 never decrease. *)
Lemma progressSequence_nondecreasing (n : nat) :
  safe n ->
  nondecreasing ([5; 10]%Z ++ map (fun i => progressAfter i n) (seq 0 n) ++ [85; 100]%Z).
Proof.
  intros Hn. apply nondecreasing_app.
  - repeat constructor. lia.
  - apply nondecreasing_app.
    + apply nondecreasing_map_seq. intros i j _ Hij Hj.
      apply progressAfter_monotone; [lia | lia | exact Hn].
    + repeat constructor. lia.
    + intros a b Ha Hb. apply in_map_iff in Ha. destruct Ha as [i [<- Hi]].
      apply in_seq in Hi.
      assert (progressAfter i n <= 80)%Z by (apply progressAfter_upper; [lia | exact Hn]).
      simpl in Hb. destruct Hb as [<-|[<-|[]]]; lia.
  - intros a b Ha Hb.
    assert (10 <= b)%Z as Hb10.
    { apply in_app_or in Hb. destruct Hb as [Hb|Hb].
      - apply in_map_iff in Hb. destruct Hb as [i [<- Hi]]. apply in_seq in Hi.
        apply progressAfter_lower; [lia | exact Hn].
      - simpl in Hb. destruct Hb as [<-|[<-|[]]]; lia. }
    simpl in Ha. destruct Ha as [<-|[<-|[]]]; lia.
Qed.

End Sequence.
End ProgressFacts.

(* ================================================================== *)
(** * The orchestrator: isolation of failed records, completion and
      progress *)
(* ================================================================== *)

Import Routes RoutesFacts ProgressFacts.

Lemma no_fault_not_faulty (env : Env) :
  (forall k, dbFault env k = None) -> ~ faulty env.
Proof.
  intros H [k [e Hk]]. rewrite H in Hk. discriminate Hk.
Qed.

Lemma parsed_not_rejected (env : Env) (buffer : string) (employees : list EmployeeData) :
  parsed env buffer employees -> ~ parseRejected env buffer.
Proof.
  unfold parsed, parseRejected. intros [-> ->] H. exact H.
Qed.

Lemma parsed_unique (env : Env) (buffer : string) (e1 e2 : list EmployeeData) :
  parsed env buffer e1 -> parsed env buffer e2 -> e1 = e2.
Proof.
  unfold parsed. intros [_ H1] [_ H2]. congruence.
Qed.

(** C6: when the workbook parses and neither the database nor the file
    system throws, the job ends [done] whatever the analysis calls do, and
    [error] is never written as its status.  The stored result list has
    one entry per record; at every index whose analysis call throws it
    holds the canned result (the record's employeeId, RED, flags
    [AnalysisError]), and at every other index the result the call
    returned. *)
Theorem C6_failed_record_is_isolated {F : Type} {arith : JsNumber F} (env : Env)
  (jobId buffer batch file : string) (now : nat) (employees : list EmployeeData) :
  parsed env buffer employees ->
  (forall k, dbFault env k = None) ->
  fsFault env = None ->
  let w := finalWorld env jobId buffer batch file now in
  status (job w) = done
  /\ ~ In error (statusWrites (trace w))
  /\ exists rs,
       results (job w) = Some rs
       /\ List.length rs = List.length employees
       /\ (forall i employee exn,
             nth_error employees i = Some employee ->
             llmProvider env employee = inl exn ->
             exists r, nth_error rs i = Some r
                       /\ r_employeeId r = employeeId employee
                       /\ aiRecommendation r = RED
                       /\ flagsTriggered r = ["AnalysisError"])
       /\ (forall i employee r,
             nth_error employees i = Some employee ->
             llmProvider env employee = inr r ->
             nth_error rs i = Some r).
Proof.
  intros Hp Hdb Hfs w.
  destruct (runJob_outcome env jobId buffer batch file now)
    as [[employees' [Hp' Hc]]|[_ [H|[H|H]]]].
  - rewrite <- (parsed_unique _ _ _ _ Hp Hp') in Hc. fold w in Hc.
    destruct Hc as [Hs [_ [_ [Hr [_ [_ Hw]]]]]].
    split; [exact Hs|]. split.
    + rewrite Hw. simpl. intros [E|[E|[E|[]]]]; discriminate E.
    + exists (map (analyzeOrFail env) employees).
      split; [exact Hr|]. split; [apply length_map|]. split.
      * intros i employee exn Hi Hthrow.
        exists (analysisFailed employee). split.
        -- rewrite nth_error_map, Hi. simpl. unfold analyzeOrFail. now rewrite Hthrow.
        -- repeat split.
      * intros i employee r Hi Hret.
        rewrite nth_error_map, Hi. simpl. unfold analyzeOrFail. now rewrite Hret.
  - destruct (parsed_not_rejected _ _ _ Hp H).
  - contradiction.
  - destruct (no_fault_not_faulty _ Hdb H).
Qed.

(** C7: a job whose status is [done] has stored a result list as long as
    the list of extracted employee records, its [totalEmployees] is that
    length, and its progress is 100. *)
Theorem C7_done_job_is_complete {F : Type} {arith : JsNumber F} (env : Env)
  (jobId buffer batch file : string) (now : nat) :
  let w := finalWorld env jobId buffer batch file now in
  status (job w) = done ->
  exists rs employees,
    parsed env buffer employees
    /\ results (job w) = Some rs
    /\ totalEmployees (job w) = Some (List.length rs)
    /\ List.length rs = List.length employees
    /\ progress (job w) = 100%Z.
Proof.
  intros w Hdone.
  destruct (runJob_outcome env jobId buffer batch file now)
    as [[employees [Hp Hc]]|[Hnd _]].
  - fold w in Hc. destruct Hc as [_ [Hprog [Ht [Hr _]]]].
    exists (map (analyzeOrFail env) employees), employees.
    rewrite length_map. repeat split; try assumption. apply Hp. apply Hp.
  - contradiction.
Qed.

(** C8: in a job that reaches [done], the values of [progress] written
    are 5, 10, then [Math.round(10 + ((i + 1) / total) * 70)] for every
    record index i in order, then 85 and 100; the sequence never
    decreases, and the value written after the last record is 80.  The
    arithmetic is that of the program, IEEE 754 binary64.  The number of
    records is a safe integer (a JavaScript array is shorter than
    2^32). *)
Theorem C8_progress_nondecreasing (env : Env)
  (jobId buffer batch file : string) (now : nat) (employees : list EmployeeData) :
  let w := finalWorld (arith := Binary64.binary64) env jobId buffer batch file now in
  let total := List.length employees in
  parsed env buffer employees ->
  safe total ->
  status (job w) = done ->
  progressWrites (trace w) =
    [5; 10]%Z
    ++ map (fun i => progressAfter (arith := Binary64.binary64) i total) (seq 0 total)
    ++ [85; 100]%Z
  /\ nondecreasing (progressWrites (trace w))
  /\ ((0 < total)%nat ->
      progressAfter (arith := Binary64.binary64) (total - 1) total = 80%Z).
Proof.
  intros w total Hp Hsafe Hdone.
  destruct (runJob_outcome (arith := Binary64.binary64) env jobId buffer batch file now)
    as [[employees' [Hp' Hc]]|[Hnd _]].
  - rewrite <- (parsed_unique _ _ _ _ Hp Hp') in Hc. fold w in Hc.
    destruct Hc as [_ [_ [_ [_ [_ [Hw _]]]]]].
    unfold progressSequence in Hw. fold total in Hw.
    split; [exact Hw|]. split.
    + rewrite Hw. now apply (progressSequence_nondecreasing binary64_steady).
    + intros Hpos. now apply (progressAfter_last binary64_steady).
  - contradiction.
Qed.

(** A three-record batch; the analysis of the second record throws. *)
Definition sampleEmployees : list EmployeeData :=
  [ record "E-1" None None None None (Some "Meets") (Some "Meets")
      (Some "Delivered the quarterly plan on schedule.");
    record "E-2" None None None None None None None;
    record "E-3" None None None None (Some "Exceeds") (Some "Below")
      (Some "Delivered the quarterly plan on schedule.") ].

Definition sampleEnv : Env :=
  {| parseExcelFile := fun _ =>
       {| p_success := true; p_employees := Some sampleEmployees; p_error := None |};
     llmProvider := fun e =>
       if string_dec (employeeId e) "E-2" then inl (ErrorObject "provider unavailable")
       else inr (analyze e);
     dbFault := fun _ => None;
     fsFault := None;
     cwd := "/srv/app";
     sharePoint := Some (fun _ => None) |}.

Definition sampleWorld : World :=
  finalWorld (arith := ExactArith.exactNumber) sampleEnv "job-1" "xlsx" "2024-H1"
    "reviews.xlsx" 0.

(** C6 at [sampleEnv]. *)
Lemma C6_failed_record_is_isolated_witness :
  status (job sampleWorld) = done
  /\ ~ In error (statusWrites (trace sampleWorld))
  /\ exists rs,
       results (job sampleWorld) = Some rs
       /\ List.length rs = List.length sampleEmployees
       /\ (forall i employee exn,
             nth_error sampleEmployees i = Some employee ->
             llmProvider sampleEnv employee = inl exn ->
             exists r, nth_error rs i = Some r
                       /\ r_employeeId r = employeeId employee
                       /\ aiRecommendation r = RED
                       /\ flagsTriggered r = ["AnalysisError"])
       /\ (forall i employee r,
             nth_error sampleEmployees i = Some employee ->
             llmProvider sampleEnv employee = inr r ->
             nth_error rs i = Some r).
Proof.
  apply (C6_failed_record_is_isolated (arith := ExactArith.exactNumber) sampleEnv
           "job-1" "xlsx" "2024-H1" "reviews.xlsx" 0 sampleEmployees).
  - split; reflexivity.
  - intros k. reflexivity.
  - reflexivity.
Defined.

(** C7 at [sampleEnv]. *)
Lemma C7_done_job_is_complete_witness :
  exists rs employees,
    parsed sampleEnv "xlsx" employees
    /\ results (job sampleWorld) = Some rs
    /\ totalEmployees (job sampleWorld) = Some (List.length rs)
    /\ List.length rs = List.length employees
    /\ progress (job sampleWorld) = 100%Z.
Proof.
  apply (C7_done_job_is_complete (arith := ExactArith.exactNumber) sampleEnv
           "job-1" "xlsx" "2024-H1" "reviews.xlsx" 0).
  vm_compute. reflexivity.
Defined.

(** The same job in binary64. *)
Definition sampleWorld64 : World :=
  finalWorld (arith := Binary64.binary64) sampleEnv "job-1" "xlsx" "2024-H1"
    "reviews.xlsx" 0.

(** C8 at [sampleEnv]. *)
Lemma C8_progress_nondecreasing_witness :
  progressWrites (trace sampleWorld64) =
    [5; 10]%Z ++
    map (fun i => progressAfter (arith := Binary64.binary64) i 3) (seq 0 3) ++
    [85; 100]%Z
  /\ nondecreasing (progressWrites (trace sampleWorld64))
  /\ ((0 < 3)%nat -> progressAfter (arith := Binary64.binary64) (3 - 1) 3 = 80%Z).
Proof.
  apply (C8_progress_nondecreasing sampleEnv
           "job-1" "xlsx" "2024-H1" "reviews.xlsx" 0 sampleEmployees).
  - split; reflexivity.
  - reflexivity.
  - vm_compute. reflexivity.
Defined.

(** In binary64 the row ends [done] with progress 100 and three
    results, as it does over the rationals. *)
Example sample_job_binary64 :
  let w := sampleWorld64 in
  status (job w) = done
  /\ progress (job w) = 100%Z
  /\ totalEmployees (job w) = Some 3%nat
  /\ option_map (map flagsTriggered) (results (job w)) =
       Some [ []; ["AnalysisError"]; ["RatingMismatch_Overall_2+Levels"] ]
  /\ progressWrites (trace w) = [5; 10; 33; 57; 80; 85; 100]%Z
  /\ statusWrites (trace w) = [running; running; done].
Proof.
  vm_compute. repeat split.
Qed.

(* ================================================================== *)
(** * More on the string operations *)
(* ================================================================== *)

Module JsMore.
Import Js.

Ltac each_char c :=
  destruct c as [b0 b1 b2 b3 b4 b5 b6 b7];
  destruct b0, b1, b2, b3, b4, b5, b6, b7.

Lemma lowerChar_idempotent (c : ascii) : lowerChar (lowerChar c) = lowerChar c.
Proof. each_char c; reflexivity. Qed.

Lemma isWhiteSpace_lowerChar (c : ascii) : isWhiteSpace (lowerChar c) = isWhiteSpace c.
Proof. each_char c; reflexivity. Qed.

Lemma isDigit_lowerChar (c : ascii) : isDigit c = true -> lowerChar c = c.
Proof. each_char c; intros H; try reflexivity; discriminate H. Qed.

Lemma isSlash_lowerChar (c : ascii) : isSlash c = true -> lowerChar c = c.
Proof. each_char c; intros H; try reflexivity; discriminate H. Qed.

Lemma toLowerCase_idempotent (s : string) : toLowerCase (toLowerCase s) = toLowerCase s.
Proof.
  induction s as [|c s IH]; simpl; [reflexivity|].
  now rewrite lowerChar_idempotent, IH.
Qed.

Lemma toLowerCase_length (s : string) : String.length (toLowerCase s) = String.length s.
Proof.
  induction s as [|c s IH]; simpl; [reflexivity | now rewrite IH].
Qed.

Lemma toLowerCase_app (s t : string) :
  toLowerCase (s ++ t) = (toLowerCase s ++ toLowerCase t)%string.
Proof.
  induction s as [|c s IH]; simpl; [reflexivity | now rewrite IH].
Qed.

Lemma toLowerCase_empty (s : string) : toLowerCase s = EmptyString <-> s = EmptyString.
Proof.
  destruct s; simpl; split; intros H; try reflexivity; discriminate H.
Qed.

Lemma trimStart_toLowerCase (s : string) :
  trimStart (toLowerCase s) = toLowerCase (trimStart s).
Proof.
  induction s as [|c s IH]; simpl; [reflexivity|].
  rewrite isWhiteSpace_lowerChar. destruct (isWhiteSpace c); [exact IH | reflexivity].
Qed.

Lemma trimEnd_toLowerCase (s : string) :
  trimEnd (toLowerCase s) = toLowerCase (trimEnd s).
Proof.
  induction s as [|c s IH]; simpl; [reflexivity|].
  rewrite IH, isWhiteSpace_lowerChar.
  destruct (trimEnd s) as [|d t]; simpl.
  - destruct (isWhiteSpace c); reflexivity.
  - reflexivity.
Qed.

(** Trimming and lower-casing commute. *)
Lemma trim_toLowerCase (s : string) : trim (toLowerCase s) = toLowerCase (trim s).
Proof.
  unfold trim. now rewrite trimStart_toLowerCase, trimEnd_toLowerCase.
Qed.

Lemma falsy_toLowerCase (a : option string) :
  falsy (option_map toLowerCase a) = falsy a.
Proof.
  destruct a as [[|c s]|]; reflexivity.
Qed.

Lemma includes_app (pre s t : string) :
  String.prefix t s = true -> includes (pre ++ s) t = true.
Proof.
  intros H. induction pre as [|c pre IH]; simpl.
  - destruct s; cbn [append includes]; rewrite H; reflexivity.
  - rewrite IH. apply orb_true_r.
Qed.

Lemma dateLikeTest_app (pre s : string) :
  dateLikeHere s = true -> dateLikeTest (pre ++ s) = true.
Proof.
  intros H. induction pre as [|c pre IH].
  - simpl. destruct s; simpl in *; [discriminate H|]. now rewrite H.
  - change (dateLikeTest (String c (pre ++ s)) = true).
    cbn [dateLikeTest]. rewrite IH. apply orb_true_r.
Qed.

End JsMore.

(* ================================================================== *)
(** * The rule engine: consistency verdict, flag set, letter case *)
(* ================================================================== *)

Module RuleEngineMore.
Import Provider ProviderFacts RuleEngine.

(** The six rating labels, in the order [analyze] normalizes them. *)
Definition labels (e : EmployeeData) : list (option string) :=
  [ overallRatingEmployee e; overallRatingManager e;
    goalEmployeeRating e; goalManagerRating e;
    valuesEmployeeRating e; valuesManagerRating e ].

(** The array [ratings] of [analyze]. *)
Definition ratings (e : EmployeeData) : list RatingValue :=
  nonNull (map ratingOf (labels e)).

Definition largeDiff (e : EmployeeData) : bool :=
  (2 <=? List.length (ratings e))%nat && hasLargeDiff (ratings e).

Lemma analyze_ratingConsistency (e : EmployeeData) :
  ratingConsistency (analyze e) = (if largeDiff e then Inconsistent else Consistent)
  /\ ratingConsistencyRationale (analyze e) =
       (if largeDiff e
        then "Significant variance detected between employee and manager ratings."
        else "All ratings appear consistent within expected variance.").
Proof.
  unfold analyze. do 6 step_normalize.
  unfold largeDiff, ratings, labels. cbn [map].
  destruct (_ && hasLargeDiff _); split; reflexivity.
Qed.

Lemma analyze_employeeId (e : EmployeeData) : r_employeeId (analyze e) = employeeId e.
Proof.
  unfold analyze. do 6 step_normalize.
  destruct (_ && hasLargeDiff _); reflexivity.
Qed.

Definition apart (r1 r2 : RatingValue) : bool :=
  Js.ge (Js.abs (Js.sub (toNumber r1) (toNumber r2))) (Js.Num 2).

Lemma apart_sym (r1 r2 : RatingValue) : apart r1 r2 = apart r2 r1.
Proof.
  destruct r1 as [a|], r2 as [b|]; try reflexivity.
  unfold apart. simpl. f_equal. lia.
Qed.

Lemma apart_true (r1 r2 : RatingValue) :
  apart r1 r2 = true <->
  exists a b, r1 = Ordinal a /\ r2 = Ordinal b /\ (2 <= Z.abs (a - b))%Z.
Proof.
  destruct r1 as [a|], r2 as [b|]; unfold apart; simpl; split;
    try discriminate; try (intros [x [y [H1 [H2 _]]]]; discriminate).
  - intros H. exists a, b. repeat split. now apply Z.leb_le.
  - intros [x [y [H1 [H2 H]]]]. injection H1 as <-. injection H2 as <-.
    now apply Z.leb_le.
Qed.

(** [hasLargeDiff] looks at every pair of positions. *)
Lemma hasLargeDiff_iff (rs : list RatingValue) :
  hasLargeDiff rs = true <->
  exists r1 r2, In r1 rs /\ In r2 rs /\ apart r1 r2 = true.
Proof.
  induction rs as [|r rs IH]; simpl.
  - split; [discriminate | intros [r1 [r2 [[] _]]]].
  - rewrite orb_true_iff, IH. unfold Js.some. rewrite existsb_exists. split.
    + intros [[r2 [Hin H]]|[r1 [r2 [H1 [H2 H]]]]].
      * exists r, r2. auto.
      * exists r1, r2. auto.
    + intros [r1 [r2 [[E1|H1] [[E2|H2] H]]]]; subst.
      * exfalso. apply apart_true in H. destruct H as [a [b [Ha [Hb H]]]].
        rewrite Ha in Hb. injection Hb as <-. lia.
      * left. exists r2. split; [exact H2 | exact H].
      * left. exists r1. split; [exact H1|].
        change (apart r2 r1 = true). now rewrite apart_sym.
      * right. now exists r1, r2.
Qed.

Lemma hasLargeDiff_length (rs : list RatingValue) :
  hasLargeDiff rs = true -> (2 <= List.length rs)%nat.
Proof.
  destruct rs as [|r1 [|r2 rs]]; simpl; try discriminate. lia.
Qed.

Lemma nonNull_In (rs : list (option RatingValue)) (r : RatingValue) :
  In r (nonNull rs) <-> In (Some r) rs.
Proof.
  induction rs as [|[x|] rs IH]; simpl.
  - tauto.
  - rewrite IH. split; intros [H|H]; auto; [left; now f_equal | left; congruence].
  - rewrite IH. split; [now right | intros [H|H]; [discriminate | exact H]].
Qed.

Lemma ratings_In (e : EmployeeData) (n : Z) :
  In (Ordinal n) (ratings e) <-> exists l, In l (labels e) /\ known l n.
Proof.
  unfold ratings. rewrite nonNull_In, in_map_iff. unfold known. split.
  - intros [l [H1 H2]]. now exists l.
  - intros [l [H1 H2]]. now exists l.
Qed.

Lemma largeDiff_iff (e : EmployeeData) :
  largeDiff e = true <->
  exists l1 l2 a b, In l1 (labels e) /\ In l2 (labels e) /\
                    known l1 a /\ known l2 b /\ (2 <= Z.abs (a - b))%Z.
Proof.
  unfold largeDiff. rewrite andb_true_iff. split.
  - intros [_ H]. apply hasLargeDiff_iff in H. destruct H as [r1 [r2 [H1 [H2 H]]]].
    apply apart_true in H. destruct H as [a [b [-> [-> H]]]].
    apply ratings_In in H1. apply ratings_In in H2.
    destruct H1 as [l1 [I1 K1]]. destruct H2 as [l2 [I2 K2]].
    now exists l1, l2, a, b.
  - intros [l1 [l2 [a [b [I1 [I2 [K1 [K2 H]]]]]]]].
    assert (hasLargeDiff (ratings e) = true) as Hd.
    { apply hasLargeDiff_iff. exists (Ordinal a), (Ordinal b).
      split; [apply ratings_In; now exists l1|].
      split; [apply ratings_In; now exists l2|].
      apply apart_true. now exists a, b. }
    split; [|exact Hd]. apply Nat.leb_le. now apply hasLargeDiff_length.
Qed.

Lemma inconsistent_iff_largeDiff (e : EmployeeData) :
  ratingConsistency (analyze e) = Inconsistent <-> largeDiff e = true.
Proof.
  rewrite (proj1 (analyze_ratingConsistency e)).
  destruct (largeDiff e); split; congruence.
Qed.

End RuleEngineMore.

Import RuleEngineMore.

(** The verdict is Inconsistent exactly when two of the six rating labels
    normalize to ordinals at least two levels apart, that is, when one
    label is a known 1 and another a known 3, whichever pairs they belong
    to; the rationale is the fixed sentence of the verdict. *)
Theorem ratingConsistency_inconsistent_iff (e : EmployeeData) :
  (ratingConsistency (analyze e) = Inconsistent <->
   exists l1 l2 a b, In l1 (labels e) /\ In l2 (labels e) /\
                     known l1 a /\ known l2 b /\ (2 <= Z.abs (a - b))%Z)
  /\ (ratingConsistency (analyze e) = Inconsistent <->
      (exists l, In l (labels e) /\ known l 1) /\ (exists l, In l (labels e) /\ known l 3))
  /\ (ratingConsistencyRationale (analyze e) =
      match ratingConsistency (analyze e) with
      | Inconsistent => "Significant variance detected between employee and manager ratings."
      | Consistent => "All ratings appear consistent within expected variance."
      end).
Proof.
  destruct (analyze_ratingConsistency e) as [Hc Hr].
  pose proof (inconsistent_iff_largeDiff e) as Hl.
  split; [|split].
  - rewrite Hl. apply largeDiff_iff.
  - rewrite Hl, largeDiff_iff. split.
    + intros [l1 [l2 [a [b [I1 [I2 [K1 [K2 H]]]]]]]].
      pose proof (known_range _ _ K1). pose proof (known_range _ _ K2).
      assert ((a = 1 /\ b = 3) \/ (a = 3 /\ b = 1))%Z as [[-> ->]|[-> ->]] by lia.
      * split; [now exists l1 | now exists l2].
      * split; [now exists l2 | now exists l1].
    + intros [[l1 [I1 K1]] [l2 [I2 K2]]].
      exists l1, l2, 1%Z, 3%Z. repeat split; try assumption. simpl. lia.
  - rewrite Hr, Hc. destruct (largeDiff e); reflexivity.
Qed.

(** The employee rates goals Exceeds, the manager rates values Below: no
    pair is two levels apart, yet two ratings are. *)
Definition crossPairRecord : EmployeeData :=
  record "E-700" (Some "Exceeds") None None (Some "Below") None None
    (Some "Delivered the quarterly plan on schedule.").

(** Every pair-mismatch flag comes with the verdict Inconsistent.  The
    converse fails: ratings two levels apart in different pairs give
    Inconsistent without any flag, and the record stays GREEN. *)
Theorem mismatch_flag_implies_inconsistent :
  (forall e p, In (mismatchFlag p) (flagsTriggered (analyze e)) ->
               ratingConsistency (analyze e) = Inconsistent)
  /\ (exists e, ratingConsistency (analyze e) = Inconsistent
                /\ flagsTriggered (analyze e) = []
                /\ aiRecommendation (analyze e) = GREEN).
Proof.
  split.
  - intros e p H. apply mismatchFlag_In in H. unfold pairMismatch in H.
    apply twoLevelsApart_true in H. destruct H as [a [b [Ha [Hb H]]]].
    apply inconsistent_iff_largeDiff, largeDiff_iff.
    exists (employeeLabel p e), (managerLabel p e), a, b.
    repeat split; try assumption; destruct p; simpl; tauto.
  - exists crossPairRecord. repeat split; reflexivity.
Qed.

Lemma mismatch_flag_implies_inconsistent_witness :
  ratingConsistency (analyze twoLevelsRecord) = Inconsistent.
Proof.
  apply (proj1 mismatch_flag_implies_inconsistent twoLevelsRecord OverallPair).
  vm_compute. now left.
Defined.

(* ================================================================== *)
(** * The rule engine: the flag set *)
(* ================================================================== *)

Module FlagSet.
Import Provider ProviderFacts RuleEngine RuleEngineMore.

(** The seven strings [analyze] can push. *)
Definition engineFlags : list string :=
  [ "UnknownRatingLabel";
    "RatingMismatch_Overall_2+Levels"; "RatingMismatch_Goals_2+Levels";
    "RatingMismatch_Values_2+Levels"; "NarrativeInsufficient";
    "LoadedLanguage_NoEvidence"; "PolicySensitive_EscalateHR" ].

Lemma dedupeFrom_NoDup (xs seen : list string) : NoDup (Js.dedupeFrom seen xs).
Proof.
  revert seen. induction xs as [|x xs IH]; intros seen; simpl.
  - constructor.
  - destruct (in_dec string_dec x seen) as [H|H]; [apply IH|].
    constructor; [|apply IH].
    intros Hin. apply JsFacts.dedupeFrom_In in Hin. destruct Hin as [_ Hn].
    apply Hn. now left.
Qed.

(** A label that is present, not empty, and that [ratingMap[...]] does
    not find once it is lower-cased and trimmed: it is none of the
    sixteen keys of [ratingMap], and none of the names that [ratingMap]
    inherits from [Object.prototype] either. *)
Definition unrecognised (label : option string) : Prop :=
  exists r, label = Some r /\ r <> EmptyString /\
            ownProperty (Js.trim (Js.toLowerCase r)) ratingMap = None /\
            ~ In (Js.trim (Js.toLowerCase r)) inheritedKeys.

Lemma getRating_None (k : string) :
  getRating k = None <-> ownProperty k ratingMap = None /\ ~ In k inheritedKeys.
Proof.
  unfold getRating. destruct (ownProperty k ratingMap) as [n|].
  - split; [discriminate | intros [H _]; discriminate H].
  - destruct (in_dec string_dec k inheritedKeys) as [H|H].
    + split; [discriminate | intros [_ Hn]; contradiction].
    + split; [now split | reflexivity].
Qed.

Lemma labelFlags_unrecognised (label : option string) :
  In "UnknownRatingLabel" (labelFlags label) <-> unrecognised label.
Proof.
  unfold labelFlags, normalizeRating, unrecognised.
  destruct label as [[|c r]|]; simpl.
  - split; [tauto|]. intros [r [H [Hne _]]]. injection H as <-. now destruct Hne.
  - destruct (getRating _) eqn:E; simpl.
    + split; [tauto|]. intros [r' [H [_ Hg]]]. injection H as <-.
      apply getRating_None in Hg. simpl in Hg. rewrite E in Hg. discriminate Hg.
    + split; [|now left]. intros _. exists (String c r).
      split; [reflexivity|]. split; [discriminate|]. apply getRating_None. exact E.
  - split; [tauto|]. intros [r [H _]]. discriminate H.
Qed.

Lemma labelPushes_unrecognised (e : EmployeeData) :
  In "UnknownRatingLabel" (labelPushes e) <->
  exists l, In l (labels e) /\ unrecognised l.
Proof.
  unfold labelPushes, labels. rewrite !in_app_iff, !labelFlags_unrecognised.
  simpl. split.
  - intros H. repeat destruct H as [H|H]; eexists; (split; [|exact H]); tauto.
  - intros [l [H U]]. repeat destruct H as [H|H]; subst; tauto.
Qed.

(** Every reported flag is one of the seven. *)
Lemma flagsTriggered_known (e : EmployeeData) (f : string) :
  In f (flagsTriggered (analyze e)) -> In f engineFlags.
Proof.
  intros H. apply flagsTriggered_In in H. unfold engineFlags. simpl.
  destruct H as [H|[H|[H|[H|[H|[H|H]]]]]].
  - apply labelPushes_In in H. subst. tauto.
  - destruct H as [-> _]. tauto.
  - destruct H as [-> _]. tauto.
  - destruct H as [-> _]. tauto.
  - destruct H as [-> _]. tauto.
  - destruct H as [-> _]. tauto.
  - destruct H as [-> _]. tauto.
Qed.

(** [AnalysisError] is the orchestrator's flag, not the engine's. *)
Lemma no_AnalysisError (e : EmployeeData) :
  ~ In "AnalysisError" (flagsTriggered (analyze e)).
Proof.
  intros H. apply flagsTriggered_known in H. unfold engineFlags in H. simpl in H.
  repeat destruct H as [H|H]; try discriminate H. exact H.
Qed.

End FlagSet.

Import FlagSet.

(** The reported flags never repeat, and each is one of the engine's
    seven; in particular the orchestrator's [AnalysisError] is never
    among them. *)
Theorem flagsTriggered_distinct_and_known (e : EmployeeData) :
  NoDup (flagsTriggered (analyze e))
  /\ (forall f, In f (flagsTriggered (analyze e)) -> In f engineFlags)
  /\ ~ In "AnalysisError" (flagsTriggered (analyze e)).
Proof.
  split; [|split].
  - rewrite analyze_flags. apply dedupeFrom_NoDup.
  - apply flagsTriggered_known.
  - apply no_AnalysisError.
Qed.

(** [UnknownRatingLabel] is reported exactly when one of the six labels
    is present, not empty, and, once lower-cased and trimmed, neither one
    of the sixteen keys of [ratingMap] nor [constructor] or [__proto__],
    which [ratingMap[...]] finds on [Object.prototype].  So an absent or
    empty label is never reported and a label made of white space only
    always is; a label that reads [constructor] or [__proto__] is not
    reported although it is no rating. *)
Theorem unknown_label_flag_iff (e : EmployeeData) :
  (In "UnknownRatingLabel" (flagsTriggered (analyze e)) <->
   exists l r, In l (labels e) /\ l = Some r /\ r <> EmptyString
     /\ ownProperty (Js.trim (Js.toLowerCase r)) ratingMap = None
     /\ Js.trim (Js.toLowerCase r) <> "constructor"
     /\ Js.trim (Js.toLowerCase r) <> "__proto__")
  /\ (forall l r, In l (labels e) -> l = Some r -> r <> EmptyString ->
        Js.trim r = EmptyString ->
        In "UnknownRatingLabel" (flagsTriggered (analyze e)))
  /\ ((forall l, In l (labels e) -> l = None \/ l = Some EmptyString) ->
        ~ In "UnknownRatingLabel" (flagsTriggered (analyze e)))
  /\ ((forall l, In l (labels e) ->
         l = None \/ exists r, l = Some r
                      /\ (Js.trim (Js.toLowerCase r) = "constructor"
                          \/ Js.trim (Js.toLowerCase r) = "__proto__")) ->
        ~ In "UnknownRatingLabel" (flagsTriggered (analyze e))).
Proof.
  assert (In "UnknownRatingLabel" (flagsTriggered (analyze e)) <->
          exists l, In l (labels e) /\ unrecognised l) as Hiff.
  { rewrite flagsTriggered_In, <- labelPushes_unrecognised. split.
    - intros H. repeat destruct H as [H|H]; try exact H;
        destruct H as [E _]; discriminate E.
    - intros H. now left. }
  split; [|split; [|split]].
  - rewrite Hiff. split.
    + intros [l [Hin [r [El [Hne [Hown Hinh]]]]]]. exists l, r.
      repeat split; try assumption; intros E; apply Hinh; rewrite E; simpl; tauto.
    + intros [l [r [Hin [El [Hne [Hown [Hc Hp]]]]]]]. exists l. split; [exact Hin|].
      exists r. repeat split; try assumption.
      simpl. intros [E|[E|[]]]; [now apply Hc | now apply Hp].
  - intros l r Hin Hl Hne Ht. apply Hiff. exists l. split; [exact Hin|].
    exists r. rewrite JsMore.trim_toLowerCase, Ht.
    repeat split; try assumption. simpl. intros [E|[E|[]]]; discriminate E.
  - intros Hall Hin. apply Hiff in Hin. destruct Hin as [l [Hl [r [E [Hne _]]]]].
    destruct (Hall l Hl) as [H|H]; rewrite H in E; [discriminate E|].
    injection E as <-. now apply Hne.
  - intros Hall Hin. apply Hiff in Hin.
    destruct Hin as [l [Hl [r [E [_ [_ Hinh]]]]]].
    destruct (Hall l Hl) as [H|[r' [H Hr]]]; rewrite H in E; [discriminate E|].
    injection E as <-. apply Hinh. simpl. destruct Hr as [<-|<-]; tauto.
Qed.

(** A goals label of three blanks. *)
Definition blankLabelRecord : EmployeeData :=
  record "E-710" (Some "   ") None None None None None
    (Some "Delivered the quarterly plan on schedule.").

(** An overall rating that reads [Constructor]. *)
Definition inheritedLabelRecord : EmployeeData :=
  record "E-711" None None None None (Some " Constructor ") None
    (Some "Delivered the quarterly plan on schedule.").

Lemma unknown_label_flag_iff_witness :
  In "UnknownRatingLabel" (flagsTriggered (analyze blankLabelRecord))
  /\ ~ In "UnknownRatingLabel" (flagsTriggered (analyze nineteenRecord))
  /\ ~ In "UnknownRatingLabel" (flagsTriggered (analyze inheritedLabelRecord)).
Proof.
  split; [|split].
  - apply (proj1 (proj2 (unknown_label_flag_iff blankLabelRecord)) (Some "   ") "   ").
    + simpl. tauto.
    + reflexivity.
    + discriminate.
    + reflexivity.
  - apply (proj1 (proj2 (proj2 (unknown_label_flag_iff nineteenRecord)))).
    intros l H. simpl in H. repeat destruct H as [H|H]; subst; tauto.
  - apply (proj2 (proj2 (proj2 (unknown_label_flag_iff inheritedLabelRecord)))).
    intros l H. simpl in H. repeat destruct H as [H|H]; subst; try tauto.
    right. exists " Constructor ". split; [reflexivity|]. left. reflexivity.
Defined.

(** The values-mismatch flag and the tier Misaligned go together. *)
Theorem values_flag_iff_misaligned (e : EmployeeData) :
  In "RatingMismatch_Values_2+Levels" (flagsTriggered (analyze e)) <->
  valuesAlignment (analyze e) = Misaligned.
Proof.
  rewrite flag_values, analyze_valuesAlignment. unfold valuesMismatch, twoLevelsApart.
  destruct (ratingOf (valuesEmployeeRating e)) as [a|];
    destruct (ratingOf (valuesManagerRating e)) as [b|];
    try (split; discriminate).
  cbv zeta.
  destruct (Js.ge _ _); [split; reflexivity|].
  destruct (Js.strictEq _ _); split; discriminate.
Qed.

(** The bias assessment is one of three fixed sentences.  It is the
    compliance sentence exactly when [PolicySensitive_EscalateHR] is
    reported; and when [LoadedLanguage_NoEvidence] is reported without
    it, it is the bias-indicator sentence. *)
Theorem biasAssessment_sentences (e : EmployeeData) :
  (biasAssessment (analyze e) = noBiasSentence \/
   biasAssessment (analyze e) = biasIndicatorSentence \/
   biasAssessment (analyze e) = complianceSentence)
  /\ (biasAssessment (analyze e) = complianceSentence <->
      In "PolicySensitive_EscalateHR" (flagsTriggered (analyze e)))
  /\ (In "LoadedLanguage_NoEvidence" (flagsTriggered (analyze e)) ->
      ~ In "PolicySensitive_EscalateHR" (flagsTriggered (analyze e)) ->
      biasAssessment (analyze e) = biasIndicatorSentence)
  /\ (biasAssessment (analyze e) = noBiasSentence ->
      ~ In "LoadedLanguage_NoEvidence" (flagsTriggered (analyze e)) /\
      ~ In "PolicySensitive_EscalateHR" (flagsTriggered (analyze e))).
Proof.
  rewrite analyze_biasAssessment, flag_policy, flag_loaded.
  unfold loadedNoEvidence.
  destruct (hasPolicySensitive (comments e)), (hasLoadedLanguage (comments e)),
    (hasConcreteEvidence (comments e)); simpl;
    repeat split; try tauto; try reflexivity; try discriminate;
    try (intros; congruence); try (intros H; vm_compute in H; discriminate H).
Qed.

Lemma biasAssessment_sentences_witness :
  biasAssessment
    (analyze (record "C" None None None None None None
                (Some "Too aggressive in meetings, needs to learn to collaborate.")))
  = biasIndicatorSentence.
Proof.
  apply (proj1 (proj2 (proj2 (biasAssessment_sentences _)))).
  - vm_compute. now left.
  - intros H. vm_compute in H. repeat destruct H as [H|H]; try discriminate H. exact H.
Defined.

(* ================================================================== *)
(** * The rule engine: letter case and evidence markers *)
(* ================================================================== *)

Module CaseFacts.
Import Provider ProviderFacts RuleEngine RuleEngineMore.

(** The record with every rating label and the narrative lower-cased. *)
Definition lowerCaseRecord (e : EmployeeData) : EmployeeData :=
  {| employeeId := employeeId e;
     goalEmployeeRating := option_map Js.toLowerCase (goalEmployeeRating e);
     goalManagerRating := option_map Js.toLowerCase (goalManagerRating e);
     valuesEmployeeRating := option_map Js.toLowerCase (valuesEmployeeRating e);
     valuesManagerRating := option_map Js.toLowerCase (valuesManagerRating e);
     overallRatingEmployee := option_map Js.toLowerCase (overallRatingEmployee e);
     overallRatingManager := option_map Js.toLowerCase (overallRatingManager e);
     managerComments := option_map Js.toLowerCase (managerComments e) |}.

Lemma normalizeRating_toLowerCase (flags : list string) (label : option string) :
  normalizeRating flags (option_map Js.toLowerCase label) = normalizeRating flags label.
Proof.
  unfold normalizeRating. rewrite JsMore.falsy_toLowerCase.
  destruct label as [r|]; simpl; [|reflexivity].
  now rewrite JsMore.toLowerCase_idempotent.
Qed.

Lemma ratingOf_toLowerCase (label : option string) :
  ratingOf (option_map Js.toLowerCase label) = ratingOf label.
Proof. unfold ratingOf. now rewrite normalizeRating_toLowerCase. Qed.

Lemma labelFlags_toLowerCase (label : option string) :
  labelFlags (option_map Js.toLowerCase label) = labelFlags label.
Proof. unfold labelFlags. now rewrite normalizeRating_toLowerCase. Qed.

Lemma narrativeInsufficient_toLowerCase (mc : option string) :
  narrativeInsufficient (option_map Js.toLowerCase mc) = narrativeInsufficient mc.
Proof.
  unfold narrativeInsufficient. rewrite JsMore.falsy_toLowerCase.
  destruct mc as [c|]; simpl; [|reflexivity].
  now rewrite JsMore.trim_toLowerCase, JsMore.toLowerCase_length.
Qed.

Lemma comments_lowerCaseRecord (e : EmployeeData) :
  comments (lowerCaseRecord e) = comments e.
Proof.
  unfold comments. simpl. rewrite !JsFacts.orElse_empty.
  destruct (managerComments e) as [c|]; simpl; [|reflexivity].
  apply JsMore.toLowerCase_idempotent.
Qed.

Lemma result_ext (r1 r2 : AnalysisResult) :
  r_employeeId r1 = r_employeeId r2 ->
  biasAssessment r1 = biasAssessment r2 ->
  valuesAlignment r1 = valuesAlignment r2 ->
  ratingConsistency r1 = ratingConsistency r2 ->
  ratingConsistencyRationale r1 = ratingConsistencyRationale r2 ->
  aiRecommendation r1 = aiRecommendation r2 ->
  flagsTriggered r1 = flagsTriggered r2 ->
  r1 = r2.
Proof.
  destruct r1, r2. simpl. intros; subst. reflexivity.
Qed.

Ltac lower_fields :=
  cbn [lowerCaseRecord employeeId goalEmployeeRating goalManagerRating
       valuesEmployeeRating valuesManagerRating overallRatingEmployee
       overallRatingManager managerComments map];
  rewrite ?ratingOf_toLowerCase, ?labelFlags_toLowerCase,
          ?narrativeInsufficient_toLowerCase.

Lemma analyze_lowerCaseRecord (e : EmployeeData) :
  analyze (lowerCaseRecord e) = analyze e.
Proof.
  assert (overallMismatch (lowerCaseRecord e) = overallMismatch e) as H1
    by (unfold overallMismatch; now lower_fields).
  assert (goalsMismatch (lowerCaseRecord e) = goalsMismatch e) as H2
    by (unfold goalsMismatch; now lower_fields).
  assert (valuesMismatch (lowerCaseRecord e) = valuesMismatch e) as H3
    by (unfold valuesMismatch; now lower_fields).
  assert (loadedNoEvidence (lowerCaseRecord e) = loadedNoEvidence e) as H4
    by (unfold loadedNoEvidence; now rewrite comments_lowerCaseRecord).
  assert (largeDiff (lowerCaseRecord e) = largeDiff e) as H5
    by (unfold largeDiff, ratings, labels; now lower_fields).
  apply result_ext.
  - now rewrite !analyze_employeeId.
  - now rewrite !analyze_biasAssessment, comments_lowerCaseRecord.
  - rewrite !analyze_valuesAlignment. now lower_fields.
  - rewrite (proj1 (analyze_ratingConsistency _)), (proj1 (analyze_ratingConsistency e)).
    now rewrite H5.
  - rewrite (proj2 (analyze_ratingConsistency _)), (proj2 (analyze_ratingConsistency e)).
    now rewrite H5.
  - rewrite !analyze_recommendation. unfold escalated.
    rewrite H1, H2, H3, H4, comments_lowerCaseRecord. now lower_fields.
  - rewrite !analyze_flags. unfold pushed.
    rewrite H1, H2, H3, H4, comments_lowerCaseRecord. now lower_fields.
Qed.

End CaseFacts.

Import CaseFacts.

(** The engine is blind to letter case: two records with the same
    employeeId whose rating labels and narratives agree once lower-cased
    get the same AnalysisResult.  (Strings are Latin-1 here; lower-casing
    them keeps their length, which the narrative check measures.) *)
Theorem analyze_ignores_letter_case (e1 e2 : EmployeeData) :
  lowerCaseRecord e1 = lowerCaseRecord e2 -> analyze e1 = analyze e2.
Proof.
  intros H. rewrite <- (analyze_lowerCaseRecord e1), <- (analyze_lowerCaseRecord e2).
  now rewrite H.
Qed.

Lemma analyze_ignores_letter_case_witness :
  analyze (record "E-720" None None None None (Some "EXCEEDS") (Some "Below")
             (Some "Too AGGRESSIVE in meetings, needs to learn to collaborate."))
  = analyze (record "E-720" None None None None (Some "exceeds") (Some "BELOW")
               (Some "too aggressive in Meetings, needs to learn to collaborate.")).
Proof.
  apply analyze_ignores_letter_case. reflexivity.
Defined.

(** A run of four digits somewhere in [s]. *)
Definition hasFourDigits (s : string) : Prop :=
  exists pre d1 d2 d3 d4 post,
    Js.isDigit d1 = true /\ Js.isDigit d2 = true /\
    Js.isDigit d3 = true /\ Js.isDigit d4 = true /\
    s = (pre ++ String d1 (String d2 (String d3 (String d4 post))))%string.

(** A digit, a slash and a digit somewhere in [s]. *)
Definition hasDaySlashMonth (s : string) : Prop :=
  exists pre d1 c d2 post,
    Js.isDigit d1 = true /\ Js.isSlash c = true /\ Js.isDigit d2 = true /\
    s = (pre ++ String d1 (String c (String d2 post)))%string.

(** Whatever loaded terms a narrative has, [LoadedLanguage_NoEvidence] is
    not reported when it contains one of the words example, instance or
    specifically (in any letter case), four digits in a row, or a digit,
    a slash and a digit. *)
Theorem evidence_suppresses_loaded_flag (e : EmployeeData) (c : string) :
  managerComments e = Some c ->
  Js.includes (Js.toLowerCase c) "example" = true \/
  Js.includes (Js.toLowerCase c) "instance" = true \/
  Js.includes (Js.toLowerCase c) "specifically" = true \/
  hasFourDigits c \/ hasDaySlashMonth c ->
  ~ In "LoadedLanguage_NoEvidence" (flagsTriggered (analyze e)).
Proof.
  intros Hc Hev Hin. apply flag_loaded in Hin. unfold loadedNoEvidence in Hin.
  apply andb_true_iff in Hin. destruct Hin as [_ Hno].
  apply negb_true_iff in Hno.
  assert (comments e = Js.toLowerCase c) as Ec
    by (unfold comments; now rewrite Hc, JsFacts.orElse_empty).
  rewrite Ec in Hno. unfold hasConcreteEvidence in Hno.
  apply orb_false_iff in Hno. destruct Hno as [Hno Hdate].
  apply orb_false_iff in Hno. destruct Hno as [Hno Hon].
  apply orb_false_iff in Hno. destruct Hno as [Hno Hspec].
  apply orb_false_iff in Hno. destruct Hno as [Hex Hinst].
  destruct Hev as [H|[H|[H|[H|H]]]]; try congruence.
  - destruct H as [pre [d1 [d2 [d3 [d4 [post [D1 [D2 [D3 [D4 ->]]]]]]]]]].
    rewrite JsMore.toLowerCase_app in Hdate. cbn [Js.toLowerCase] in Hdate.
    rewrite (JsMore.isDigit_lowerChar d1 D1), (JsMore.isDigit_lowerChar d2 D2),
      (JsMore.isDigit_lowerChar d3 D3), (JsMore.isDigit_lowerChar d4 D4) in Hdate.
    rewrite JsMore.dateLikeTest_app in Hdate; [discriminate Hdate|].
    unfold Js.dateLikeHere. now rewrite D1, D2, D3, D4, !orb_true_r.
  - destruct H as [pre [d1 [s [d2 [post [D1 [S [D2 ->]]]]]]]].
    rewrite JsMore.toLowerCase_app in Hdate. cbn [Js.toLowerCase] in Hdate.
    rewrite (JsMore.isDigit_lowerChar d1 D1), (JsMore.isSlash_lowerChar s S),
      (JsMore.isDigit_lowerChar d2 D2) in Hdate.
    rewrite JsMore.dateLikeTest_app in Hdate; [discriminate Hdate|].
    unfold Js.dateLikeHere. now rewrite D1, S, D2.
Qed.

(** A loaded term next to a year. *)
Definition yearRecord : EmployeeData :=
  record "E-730" None None None None None None
    (Some "Was abrasive with the vendor during the 2023 audit.").

Lemma evidence_suppresses_loaded_flag_witness :
  hasLoadedLanguage (comments yearRecord) = true
  /\ ~ In "LoadedLanguage_NoEvidence" (flagsTriggered (analyze yearRecord)).
Proof.
  split; [reflexivity|].
  apply (evidence_suppresses_loaded_flag yearRecord
           "Was abrasive with the vendor during the 2023 audit.").
  - reflexivity.
  - do 3 right. left.
    exists "Was abrasive with the vendor during the ", "2"%char, "0"%char, "2"%char,
      "3"%char, " audit.".
    repeat split; reflexivity.
Defined.

(* ================================================================== *)
(** * Paths *)
(* ================================================================== *)

Module PathFacts.
Import Path.

(** A string without a slash. *)
Fixpoint slashFree (s : string) : bool :=
  match s with
  | EmptyString => true
  | String c rest => negb (Ascii.eqb c "/") && slashFree rest
  end.

(** A segment that [normalizeString] keeps as a name. *)
Definition plainSeg (seg : string) : Prop :=
  slashFree seg = true /\ seg <> EmptyString /\ seg <> "." /\ seg <> "..".

(** The kept segments, last one first: names, on top of the [..]s that
    only a relative path can keep. *)
Inductive clean (allowAboveRoot : bool) : list string -> Prop :=
| clean_dots (dots : list string) :
    Forall (fun seg => seg = "..") dots -> (dots = [] \/ allowAboveRoot = true) ->
    clean allowAboveRoot dots
| clean_cons (seg : string) (res : list string) :
    plainSeg seg -> clean allowAboveRoot res -> clean allowAboveRoot (seg :: res).

Lemma split_nonempty (path : string) : split path <> [].
Proof.
  destruct path as [|c rest]; simpl; [discriminate|].
  destruct (Ascii.eqb c "/"); [discriminate|]. destruct (split rest); discriminate.
Qed.

Lemma split_app (a b : string) :
  split (a ++ String "/" b) = split a ++ split b.
Proof.
  induction a as [|c a IH]; simpl; [reflexivity|].
  destruct (Ascii.eqb c "/"); [now rewrite IH|].
  rewrite IH. pose proof (split_nonempty a) as N.
  destruct (split a) as [|seg segs]; [contradiction|reflexivity].
Qed.

Lemma split_slashFree (s : string) : slashFree s = true -> split s = [s].
Proof.
  induction s as [|c s IH]; simpl; [reflexivity|].
  intros H. apply andb_prop in H. destruct H as [Hc Hs].
  apply negb_true_iff in Hc. rewrite Hc, (IH Hs). reflexivity.
Qed.

Lemma split_segments (path : string) :
  Forall (fun seg => slashFree seg = true) (split path).
Proof.
  induction path as [|c rest IH]; simpl; [repeat constructor|].
  destruct (Ascii.eqb c "/") eqn:E; [constructor; [reflexivity | exact IH]|].
  destruct (split rest) as [|seg segs]; [repeat constructor; simpl; now rewrite E|].
  inversion IH as [|? ? H1 H2]; subst. constructor; [|exact H2].
  simpl. now rewrite E, H1.
Qed.

Lemma split_concat (segs : list string) :
  segs <> [] -> Forall (fun seg => slashFree seg = true) segs ->
  split (String.concat "/" segs) = segs.
Proof.
  induction segs as [|h t IH]; [contradiction|]. intros _ H.
  inversion H as [|? ? Hh Ht]; subst.
  destruct t as [|h' t'].
  - simpl. now apply split_slashFree.
  - change (String.concat "/" (h :: h' :: t'))
      with (h ++ String "/" (String.concat "/" (h' :: t')))%string.
    rewrite split_app, (split_slashFree h Hh), IH; [reflexivity | discriminate | exact Ht].
Qed.

Lemma plainSeg_resolve (allow : bool) (res : list string) (seg : string) :
  plainSeg seg -> resolveSegment allow res seg = seg :: res.
Proof.
  intros [_ [H1 [H2 H3]]]. unfold resolveSegment.
  apply String.eqb_neq in H1, H2, H3. now rewrite H1, H2, H3.
Qed.

Lemma clean_slashFree (allow : bool) (res : list string) :
  clean allow res -> Forall (fun seg => slashFree seg = true) res.
Proof.
  induction 1 as [dots Hd _|seg res [Hs _] _ IH].
  - induction Hd as [|d ds -> _ IHd]; constructor; [reflexivity | exact IHd].
  - constructor; assumption.
Qed.

Lemma clean_head (allow : bool) (seg : string) (res : list string) :
  clean allow (seg :: res) -> seg <> EmptyString /\ slashFree seg = true.
Proof.
  intros H. inversion H as [dots Hd _|? ? [Hs [Hn _]] _]; subst.
  - inversion Hd; subst. split; [discriminate | reflexivity].
  - now split.
Qed.

(** [normalizeString] keeps its segments clean. *)
Lemma resolveSegment_clean (allow : bool) (res : list string) (seg : string) :
  slashFree seg = true -> clean allow res -> clean allow (resolveSegment allow res seg).
Proof.
  intros Hs Hc. unfold resolveSegment.
  destruct (String.eqb_spec seg EmptyString) as [E0|E0]; [exact Hc|].
  destruct (String.eqb_spec seg ".") as [E1|E1]; [exact Hc|]. cbn [orb].
  destruct (String.eqb_spec seg "..") as [E2|E2].
  - destruct res as [|last before].
    + destruct allow; apply clean_dots;
        [repeat constructor | now right | constructor | now left].
    + destruct (String.eqb_spec last "..") as [E3|E3].
      * destruct allow; [|exact Hc].
        inversion Hc as [dots Hd _|? ? [_ [_ [_ Hp]]] _]; subst; [|contradiction].
        apply clean_dots; [constructor; [reflexivity | exact Hd] | now right].
      * inversion Hc as [dots Hd _|? ? _ Hb]; subst; [|exact Hb].
        inversion Hd; subst. contradiction.
  - apply clean_cons; [|exact Hc]. repeat split; assumption.
Qed.

Lemma fold_clean (allow : bool) (segs res : list string) :
  Forall (fun seg => slashFree seg = true) segs -> clean allow res ->
  clean allow (fold_left (resolveSegment allow) segs res).
Proof.
  revert res. induction segs as [|seg segs IH]; intros res Hs Hc; simpl; [exact Hc|].
  inversion Hs; subst. apply IH; [assumption|]. now apply resolveSegment_clean.
Qed.

Lemma resolve_clean (allow : bool) (path : string) : clean allow (resolve allow path).
Proof.
  apply fold_clean; [apply split_segments|]. apply clean_dots; [constructor | now left].
Qed.

(** Clean segments are read back as they are. *)
Lemma refold (allow : bool) (res : list string) :
  clean allow res -> fold_left (resolveSegment allow) (rev res) [] = res.
Proof.
  induction 1 as [dots Hd Ha|seg res Hp _ IH].
  - induction Hd as [|d ds -> Hds IHd]; [reflexivity|].
    destruct Ha as [Ha|Ha]; [discriminate Ha|].
    simpl. rewrite fold_left_app. simpl. rewrite IHd by now right.
    unfold resolveSegment. simpl. rewrite Ha.
    destruct Hds as [|d' ds' -> _]; reflexivity.
  - simpl. rewrite fold_left_app. simpl. rewrite IH. now apply plainSeg_resolve.
Qed.

Lemma concat_head (h : string) (t : list string) :
  exists rest, String.concat "/" (h :: t) = (h ++ rest)%string.
Proof.
  destruct t as [|h' t'].
  - exists EmptyString. simpl. induction h as [|c h IH]; simpl; [reflexivity | now rewrite <- IH].
  - eexists. reflexivity.
Qed.

Lemma render_shape (allow : bool) (seg : string) (res : list string) :
  clean allow (seg :: res) ->
  render (seg :: res) <> EmptyString
  /\ isAbsolute (render (seg :: res)) = false
  /\ split (render (seg :: res)) = rev (seg :: res).
Proof.
  intros Hc. pose proof (clean_slashFree _ _ Hc) as Hs.
  assert (rev (seg :: res) <> []) as Hne.
  { simpl. destruct (rev res); discriminate. }
  assert (Forall (fun seg => slashFree seg = true) (rev (seg :: res))) as Hr.
  { apply Forall_rev. exact Hs. }
  assert (Forall (fun s => s <> EmptyString) (seg :: res)) as Hn.
  { clear Hs Hne Hr. remember (seg :: res) as l eqn:El. clear El.
    induction Hc as [dots Hd _|s r [_ [Hp _]] _ IH].
    - induction Hd as [|d ds -> _ IHd]; constructor; [discriminate | exact IHd].
    - constructor; assumption. }
  apply Forall_rev in Hn.
  unfold render. destruct (rev (seg :: res)) as [|h t]; [contradiction|].
  inversion Hn as [|? ? Hh _]; subst. inversion Hr as [|? ? Sh _]; subst.
  destruct (concat_head h t) as [rest E].
  repeat split.
  - rewrite E. destruct h; [contradiction | discriminate].
  - rewrite E. destruct h as [|c h]; [contradiction|]. simpl in *.
    apply andb_prop in Sh. destruct Sh as [Sc _]. now apply negb_true_iff in Sc.
  - apply split_concat; [discriminate | exact Hr].
Qed.

Lemma isAbsolute_app (a b : string) :
  a <> EmptyString -> isAbsolute (a ++ b) = isAbsolute a.
Proof.
  destruct a; [contradiction | reflexivity].
Qed.

Lemma endsWithSlash_app (a b : string) :
  b <> EmptyString -> endsWithSlash (a ++ b) = endsWithSlash b.
Proof.
  intros Hb. induction a as [|c a IH]; [reflexivity|].
  simpl. rewrite IH. destruct (a ++ b)%string eqn:E; [|reflexivity].
  destruct a; [simpl in E; contradiction | discriminate E].
Qed.

Lemma endsWithSlash_cons (c : ascii) (b : string) :
  b <> EmptyString -> endsWithSlash (String c b) = endsWithSlash b.
Proof.
  destruct b; [contradiction | reflexivity].
Qed.

Lemma normalize_nonempty (path : string) :
  path <> EmptyString ->
  normalize path
  = finish (isAbsolute path) (endsWithSlash path) (resolve (negb (isAbsolute path)) path).
Proof.
  intros H. unfold normalize. apply String.eqb_neq in H. now rewrite H.
Qed.

Lemma app_nonempty (a b : string) : b <> EmptyString -> (a ++ b)%string <> EmptyString.
Proof.
  destruct a; [trivial | discriminate].
Qed.

(** [path.join(cwd, "tmp")], by the segments that [cwd] resolves to. *)
Lemma join_tmp (cwd : string) :
  cwd <> EmptyString ->
  let res := "tmp" :: resolve (negb (isAbsolute cwd)) cwd in
  join [cwd; "tmp"] = ((if isAbsolute cwd then "/" else "") ++ render res)%string
  /\ clean (negb (isAbsolute cwd)) res.
Proof.
  intros Hc res.
  assert (clean (negb (isAbsolute cwd)) res) as Cl.
  { apply clean_cons; [repeat split; discriminate | apply resolve_clean]. }
  split; [|exact Cl].
  unfold join. cbn [filter]. apply String.eqb_neq in Hc. rewrite Hc. cbn [negb String.eqb].
  apply String.eqb_neq in Hc.
  change (String.concat "/" [cwd; "tmp"]) with (cwd ++ String "/" "tmp")%string.
  rewrite normalize_nonempty by (apply app_nonempty; discriminate).
  rewrite isAbsolute_app by exact Hc.
  rewrite endsWithSlash_app by discriminate.
  unfold resolve at 1. rewrite split_app, fold_left_app.
  change (fold_left (resolveSegment (negb (isAbsolute cwd))) (split "tmp")
            (fold_left (resolveSegment (negb (isAbsolute cwd))) (split cwd) []))
    with res.
  destruct (render_shape _ _ _ Cl) as [Hne _].
  change (render res <> EmptyString) in Hne.
  unfold finish. apply String.eqb_neq in Hne. rewrite Hne. cbn [endsWithSlash Ascii.eqb].
  now destruct (isAbsolute cwd).
Qed.

(** The path after one more argument, by the segments before it. *)
Lemma join_onto (allow : bool) (dir name : string) (res : list string) :
  name <> EmptyString -> clean allow res -> res <> [] ->
  dir = ((if allow then "" else "/") ++ render res)%string ->
  join [dir; name]
  = finish (negb allow) (endsWithSlash name)
      (fold_left (resolveSegment allow) (split name) res).
Proof.
  intros Hn Cl Hres ->. destruct res as [|seg res]; [contradiction|].
  destruct (render_shape _ _ _ Cl) as [Hne [Hab Hsp]].
  set (dir := ((if allow then "" else "/") ++ render (seg :: res))%string).
  assert (dir <> EmptyString) as Hd by (apply app_nonempty; exact Hne).
  assert (isAbsolute dir = negb allow) as Ad.
  { unfold dir. destruct allow; [exact Hab | reflexivity]. }
  assert (fold_left (resolveSegment allow) (split dir) [] = seg :: res) as Fd.
  { unfold dir. destruct allow.
    - change ("" ++ render (seg :: res))%string with (render (seg :: res)).
      rewrite Hsp. now apply refold.
    - change ("/" ++ render (seg :: res))%string with (String "/" (render (seg :: res))).
      change (split (String "/" (render (seg :: res))))
        with (EmptyString :: split (render (seg :: res))).
      cbn [fold_left]. change (resolveSegment false [] EmptyString) with (@nil string).
      rewrite Hsp. now apply refold. }
  unfold join. cbn [filter].
  apply String.eqb_neq in Hd, Hn. rewrite Hd, Hn. cbn [negb].
  apply String.eqb_neq in Hd, Hn.
  change (String.concat "/" [dir; name]) with (dir ++ String "/" name)%string.
  rewrite normalize_nonempty by (apply app_nonempty; discriminate).
  rewrite isAbsolute_app by exact Hd. rewrite Ad, negb_involutive.
  rewrite endsWithSlash_app by discriminate.
  rewrite endsWithSlash_cons by exact Hn.
  unfold resolve. now rewrite split_app, fold_left_app, Fd.
Qed.

(** Joining in two steps, as [generateResultsExcel] does, gives the path
    that the download handler joins in one. *)
Lemma join_in_steps (cwd name : string) :
  name <> EmptyString ->
  join [join [cwd; "tmp"]; name] = join [cwd; "tmp"; name].
Proof.
  intros Hn. destruct (String.eqb_spec cwd EmptyString) as [->|Hc]; [reflexivity|].
  destruct (join_tmp cwd Hc) as [Ej Cl].
  rewrite (join_onto (negb (isAbsolute cwd)) _ name _ Hn Cl ltac:(discriminate)).
  2:{ rewrite Ej. now destruct (isAbsolute cwd). }
  rewrite negb_involutive.
  unfold join. cbn [filter].
  apply String.eqb_neq in Hc, Hn. rewrite Hc, Hn. cbn [negb String.eqb].
  apply String.eqb_neq in Hc, Hn.
  change (String.concat "/" [cwd; "tmp"; name])
    with (cwd ++ String "/" ("tmp" ++ String "/" name))%string.
  rewrite normalize_nonempty by (apply app_nonempty; discriminate).
  rewrite isAbsolute_app by exact Hc.
  rewrite endsWithSlash_app by discriminate.
  rewrite endsWithSlash_cons by discriminate.
  change ("tmp" ++ String "/" name)%string with (String "t" (String "m" (String "p" (String "/" name)))).
  rewrite !endsWithSlash_cons by (try discriminate; exact Hn).
  f_equal. unfold resolve.
  change (String "t" (String "m" (String "p" (String "/" name))))
    with ("tmp" ++ String "/" name)%string.
  now rewrite !split_app, !fold_left_app.
Qed.

Lemma slashFree_app (a b : string) :
  slashFree (a ++ b) = slashFree a && slashFree b.
Proof.
  induction a as [|c a IH]; simpl; [reflexivity|]. now rewrite IH, andb_assoc.
Qed.

Lemma slashFree_end (s : string) : slashFree s = true -> endsWithSlash s = false.
Proof.
  induction s as [|c s IH]; simpl; [reflexivity|].
  intros H. apply andb_prop in H. destruct H as [Hc Hs].
  apply negb_true_iff in Hc. destruct s; [exact Hc | now apply IH].
Qed.

Lemma app_string_assoc (a b c : string) : ((a ++ b) ++ c = a ++ (b ++ c))%string.
Proof.
  induction a as [|x a IH]; simpl; [reflexivity | now rewrite IH].
Qed.

Lemma concat_snoc (segs : list string) (seg : string) :
  segs <> [] ->
  String.concat "/" (segs ++ [seg]) = (String.concat "/" segs ++ String "/" seg)%string.
Proof.
  induction segs as [|h t IH]; [contradiction|]. intros _.
  destruct t as [|h' t']; [reflexivity|].
  change (String.concat "/" ((h :: h' :: t') ++ [seg]))
    with (h ++ String "/" (String.concat "/" ((h' :: t') ++ [seg])))%string.
  rewrite IH by discriminate.
  change (String.concat "/" (h :: h' :: t'))
    with (h ++ String "/" (String.concat "/" (h' :: t')))%string.
  rewrite !app_string_assoc. reflexivity.
Qed.

(** What [path.join(cwd, "tmp")] is, whatever [cwd]. *)
Lemma join_tmp_shape (cwd : string) :
  exists allow res,
    clean allow res /\ res <> []
    /\ join [cwd; "tmp"] = ((if allow then "" else "/") ++ render res)%string.
Proof.
  destruct (String.eqb_spec cwd EmptyString) as [->|Hc].
  - exists true, ["tmp"]. split; [|split; [discriminate | reflexivity]].
    apply clean_cons; [repeat split; discriminate|].
    apply clean_dots; [constructor | now left].
  - destruct (join_tmp cwd Hc) as [E Cl].
    exists (negb (isAbsolute cwd)), ("tmp" :: resolve (negb (isAbsolute cwd)) cwd).
    split; [exact Cl|]. split; [discriminate|].
    rewrite E. now destruct (isAbsolute cwd).
Qed.

(** A file name that is one plain segment is appended as it is. *)
Lemma join_plain (cwd name : string) :
  plainSeg name ->
  join [join [cwd; "tmp"]; name] = (join [cwd; "tmp"] ++ String "/" name)%string.
Proof.
  intros Hp. destruct (join_tmp_shape cwd) as [allow [res [Cl [Hres E]]]].
  assert (name <> EmptyString) as Hn by apply Hp.
  rewrite (join_onto allow _ name res Hn Cl Hres E).
  destruct Hp as [Sf Hp].
  rewrite (split_slashFree name Sf), (slashFree_end name Sf). cbn [fold_left].
  rewrite plainSeg_resolve by (split; assumption).
  assert (clean allow (name :: res)) as Cl'
    by (apply clean_cons; [split; assumption | exact Cl]).
  destruct (render_shape _ _ _ Cl') as [Hne _].
  unfold finish. apply String.eqb_neq in Hne. rewrite Hne.
  rewrite E. unfold render. cbn [rev].
  rewrite concat_snoc by (destruct res; [contradiction | simpl; destruct (rev res); discriminate]).
  destruct allow; cbn [negb]; [reflexivity|].
  rewrite !app_string_assoc. reflexivity.
Qed.

End PathFacts.


(* ================================================================== *)
(** * The result writer: layout, colours, failure, artifact names *)
(* ================================================================== *)

Module WriterFacts.

Lemma fillCell_values (cols : list Excel.Column) (k argb : string) (row : Excel.Row) :
  Writer.cellValues (Writer.fillCell cols k argb row) = Writer.cellValues row.
Proof.
  revert row. induction cols as [|c cols IH]; intros [|cell row]; simpl; try reflexivity.
  unfold Writer.cellValues in *. rewrite IH.
  destruct (string_dec (Excel.key c) k); reflexivity.
Qed.

Lemma resultRow_fills (batch : string) (result : AnalysisResult) :
  map Excel.fill (Writer.resultRow batch result) =
  [ None; None; None;
    Some (match aiRecommendation result with
          | RED => "FFFF6B6B"
          | GREEN => "FF51CF66"
          end);
    None; None; None ].
Proof.
  unfold Writer.resultRow. destruct (aiRecommendation result); reflexivity.
Qed.

Lemma append_length (s t : string) :
  String.length (s ++ t) = (String.length s + String.length t)%nat.
Proof.
  induction s as [|c s IH]; simpl; [reflexivity | now rewrite IH].
Qed.

(** A common suffix can be cancelled. *)
Lemma append_inj_l (s1 s2 t : string) : (s1 ++ t = s2 ++ t)%string -> s1 = s2.
Proof.
  revert s2. induction s1 as [|c s1 IH]; intros [|d s2] H; simpl in H.
  - reflexivity.
  - exfalso. apply (f_equal String.length) in H. simpl in H.
    rewrite append_length in H. lia.
  - exfalso. apply (f_equal String.length) in H. simpl in H.
    rewrite append_length in H. lia.
  - injection H as -> H. f_equal. now apply IH.
Qed.

Definition artifactName (jobId : string) : string :=
  ("analysis-results-" ++ jobId ++ ".xlsx")%string.

Lemma artifactName_inj (j1 j2 : string) : artifactName j1 = artifactName j2 -> j1 = j2.
Proof.
  unfold artifactName. simpl. intros H. injection H as H.
  now apply append_inj_l in H.
Qed.

(** A common prefix can be cancelled. *)
Lemma append_inj_r (p s t : string) : (p ++ s = p ++ t)%string -> s = t.
Proof.
  induction p as [|c p IH]; simpl; intros H; [exact H|].
  injection H as H. now apply IH.
Qed.

(** The name of the artifact of a job id without a slash is one plain
    path segment. *)
Lemma artifactName_plain (jobId : string) :
  PathFacts.slashFree jobId = true -> PathFacts.plainSeg (artifactName jobId).
Proof.
  intros H. unfold artifactName. repeat split; try discriminate.
  rewrite !PathFacts.slashFree_app, H. reflexivity.
Qed.

End WriterFacts.

Import WriterFacts.

(** The worksheet has the header row and then one row per result, in
    order; every row has seven cells; the header row repeats the column
    headers; the auto-filter spans exactly these rows and columns.  In a
    data row only the recommendation cell is coloured, red for RED and
    green for GREEN, and its text gives the recommendation back. *)
Theorem worksheet_layout (batch : string) (results : list AnalysisResult) :
  let sheet := Writer.resultsWorksheet batch results in
  List.length (Excel.rows sheet) = S (List.length results)
  /\ Forall (fun row => List.length row = 7%nat) (Excel.rows sheet)
  /\ option_map Writer.cellValues (hd_error (Excel.rows sheet)) =
       Some (map (fun c => Some (Excel.header c)) (Excel.columns sheet))
  /\ Excel.autoFilter sheet =
       ((1, 1), (List.length (Excel.rows sheet), List.length (Excel.columns sheet)))%nat
  /\ (forall i result,
        nth_error results i = Some result ->
        exists row,
          nth_error (Writer.dataRows sheet) i = Some row
          /\ map Excel.fill row =
               [ None; None; None;
                 Some (if Routes.isRed result then "FFFF6B6B" else "FF51CF66");
                 None; None; None ]
          /\ nth_error (Writer.cellValues row) 3 =
               Some (Some (if Routes.isRed result then "RED" else "GREEN"))).
Proof.
  intros sheet. unfold sheet, Writer.resultsWorksheet. cbn [Excel.rows Excel.columns Excel.autoFilter].
  split; [|split; [|split; [|split]]].
  - simpl. now rewrite length_map.
  - constructor; [reflexivity|]. rewrite Forall_forall. intros row Hin.
    apply in_map_iff in Hin. destruct Hin as [r [<- _]].
    rewrite <- (length_map Excel.fill), resultRow_fills. reflexivity.
  - reflexivity.
  - simpl. rewrite length_map. f_equal. f_equal. lia.
  - intros i result Hi. exists (Writer.resultRow batch result).
    unfold Writer.dataRows. cbn [Excel.rows tl].
    split; [now rewrite nth_error_map, Hi|]. split.
    + rewrite resultRow_fills. unfold Routes.isRed.
      destruct (aiRecommendation result); reflexivity.
    + rewrite resultRow_cells. unfold rowCells, Routes.isRed.
      destruct (aiRecommendation result); reflexivity.
Qed.

Lemma worksheet_layout_witness :
  exists row,
    nth_error (Writer.dataRows (Writer.resultsWorksheet "2024-H1" oneFailedResult)) 0 = Some row
    /\ map Excel.fill row =
         [ None; None; None; Some "FFFF6B6B"; None; None; None ]
    /\ nth_error (Writer.cellValues row) 3 = Some (Some "RED").
Proof.
  apply (proj2 (proj2 (proj2 (proj2 (worksheet_layout "2024-H1" oneFailedResult)))) 0%nat
           (Routes.analysisFailed (record "E-900" None None None None None None None))).
  reflexivity.
Defined.

(** [generateResultsExcel] names the workbook after the job id and
    writes it to [path.join(path.join(cwd, "tmp"), fileName)].  For a job
    id without a slash, as the UUIDs of [createJob] are, the name is one
    path segment: the path is the directory, a slash and the name, and
    two such job ids never share a file. *)
Theorem artifact_path_by_job_id (env : Env) (batch : string)
  (results : list AnalysisResult) (jobId : string) (w : World) :
  fsFault env = None ->
  let tmpDir := Path.join [cwd env; "tmp"] in
  (exists wr w',
     Writer.generateResultsExcel env batch results jobId w = (inr wr, w')
     /\ Writer.fileName wr = Some (artifactName jobId)
     /\ Writer.filePath wr = Some (Path.join [tmpDir; artifactName jobId]))
  /\ (PathFacts.slashFree jobId = true ->
      Path.join [tmpDir; artifactName jobId] = (tmpDir ++ "/" ++ artifactName jobId)%string
      /\ forall other, PathFacts.slashFree other = true ->
           Path.join [tmpDir; artifactName other] = Path.join [tmpDir; artifactName jobId] ->
           other = jobId).
Proof.
  intros H tmpDir. split.
  - unfold Writer.generateResultsExcel, tryCatch. rewrite H.
    eexists; eexists. repeat split.
  - intros Hj. unfold tmpDir.
    pose proof (PathFacts.join_plain (cwd env) _ (artifactName_plain jobId Hj)) as E.
    split; [exact E|].
    intros other Ho Hsame.
    rewrite E, (PathFacts.join_plain (cwd env) _ (artifactName_plain other Ho)) in Hsame.
    apply append_inj_r in Hsame. apply (append_inj_r "/") in Hsame.
    now apply artifactName_inj.
Qed.

Lemma artifact_path_by_job_id_witness :
  (exists wr w',
     Writer.generateResultsExcel quietEnv "2024-H1" oneFailedResult "j1"
       (initialWorld "j1" 0 "2024-H1") = (inr wr, w')
     /\ Writer.fileName wr = Some (artifactName "j1")
     /\ Writer.filePath wr
        = Some (Path.join [Path.join [cwd quietEnv; "tmp"]; artifactName "j1"]))
  /\ Path.join [Path.join [cwd quietEnv; "tmp"]; artifactName "j1"]
     = (Path.join [cwd quietEnv; "tmp"] ++ "/" ++ artifactName "j1")%string
  /\ (forall other, PathFacts.slashFree other = true ->
        Path.join [Path.join [cwd quietEnv; "tmp"]; artifactName other]
        = Path.join [Path.join [cwd quietEnv; "tmp"]; artifactName "j1"] ->
        other = "j1").
Proof.
  destruct (artifact_path_by_job_id quietEnv "2024-H1" oneFailedResult "j1"
              (initialWorld "j1" 0 "2024-H1") eq_refl) as [Hwritten Hplain].
  split; [exact Hwritten | exact (Hplain eq_refl)].
Defined.

(** With a slash in it, a job id can name the file of another job:
    [path.join] resolves the [..] segment. *)
Example job_ids_sharing_a_file :
  Path.join [Path.join ["/srv/app"; "tmp"]; artifactName "x/../analysis-results-y"]
  = Path.join [Path.join ["/srv/app"; "tmp"]; artifactName "y"]
  /\ Path.join [Path.join ["/srv/app"; "tmp"]; artifactName "y"]
     = "/srv/app/tmp/analysis-results-y.xlsx".
Proof.
  split; reflexivity.
Qed.

(* ================================================================== *)
(** * The parser: column resolution and record extraction *)
(* ================================================================== *)

Module ParserFacts.
Import Parser.

Lemma prefix_iff (t s : string) :
  String.prefix t s = true <-> exists post, s = (t ++ post)%string.
Proof.
  revert s. induction t as [|c t IH]; intros s.
  - split; [|destruct s; reflexivity]. intros _. now exists s.
  - destruct s as [|d s]; simpl.
    + split; [discriminate | intros [post H]; discriminate H].
    + destruct (ascii_dec c d) as [->|Hne].
      * rewrite IH. split; intros [post H]; exists post; [now rewrite H | now injection H].
      * split; [discriminate|]. intros [post H]. injection H as H _. congruence.
Qed.

(** [s.includes(t)] says that [s] is [t] between two strings. *)
Lemma includes_iff (s t : string) :
  Js.includes s t = true <-> exists pre post, s = (pre ++ t ++ post)%string.
Proof.
  induction s as [|c s IH].
  - cbn [Js.includes]. rewrite orb_false_r, prefix_iff. split.
    + intros [post H]. now exists EmptyString, post.
    + intros [[|d pre] [post H]]; [now exists post | discriminate H].
  - cbn [Js.includes]. rewrite orb_true_iff, prefix_iff, IH. split.
    + intros [[post H]|[pre [post H]]].
      * now exists EmptyString, post.
      * exists (String c pre), post. simpl. now rewrite H.
    + intros [[|d pre] [post H]].
      * left. now exists post.
      * right. simpl in H. injection H as _ H. now exists pre, post.
Qed.

Lemma append_assoc (a b c : string) : ((a ++ b) ++ c = a ++ (b ++ c))%string.
Proof.
  induction a as [|x a IH]; simpl; [reflexivity | now rewrite IH].
Qed.

Lemma includes_trans (s t u : string) :
  Js.includes s t = true -> Js.includes t u = true -> Js.includes s u = true.
Proof.
  rewrite !includes_iff. intros [p1 [q1 ->]] [p2 [q2 ->]].
  exists (p1 ++ p2)%string, (q2 ++ q1)%string. now rewrite !append_assoc.
Qed.

Lemma includes_refl (s : string) : Js.includes s s = true.
Proof.
  apply includes_iff. exists EmptyString, EmptyString. simpl.
  induction s as [|c s IH]; simpl; [reflexivity | now rewrite <- IH].
Qed.

(** The normalized header contains "id" or "employee". *)
Definition idLike (header : option string) : bool :=
  let normalized := normalizeColumnName (Js.orElse header EmptyString) in
  Js.includes normalized "id" || Js.includes normalized "employee".

Lemma alias_test_includes (n alias : string) :
  String.eqb n alias || Js.includes n alias = Js.includes n alias.
Proof.
  destruct (String.eqb n alias) eqn:E; [|reflexivity].
  apply String.eqb_eq in E. subst. simpl. symmetry. apply includes_refl.
Qed.

(** Every alias of the identifier column contains "id" or "employee",
    and both are aliases themselves. *)
Lemma headerMatches_employeeId (header : option string) :
  headerMatches ColumnAliases.employeeId header = idLike header.
Proof.
  unfold headerMatches, idLike, Js.some, ColumnAliases.employeeId.
  set (n := normalizeColumnName _). cbn [existsb].
  rewrite !alias_test_includes, orb_false_r.
  apply eq_true_iff_eq. rewrite !orb_true_iff. split.
  - intros H.
    assert (forall a, Js.includes n a = true -> Js.includes a "id" = true ->
                      Js.includes n "id" = true) as Hid
      by (intros a H1 H2; exact (includes_trans _ _ _ H1 H2)).
    assert (forall a, Js.includes n a = true -> Js.includes a "employee" = true ->
                      Js.includes n "employee" = true) as Hemp
      by (intros a H1 H2; exact (includes_trans _ _ _ H1 H2)).
    destruct H as [H|[H|[H|[H|[H|[H|H]]]]]].
    + right. now apply (Hemp _ H).
    + left. now apply (Hid _ H).
    + left. now apply (Hid _ H).
    + left. now apply (Hid _ H).
    + now left.
    + left. now apply (Hid _ H).
    + now right.
  - intros [H|H]; tauto.
Qed.

(** [findColumnFrom] returns the index of the first matching header. *)
Lemma findColumnFrom_spec (aliases : list string) (headers : list (option string)) :
  forall i,
  (findColumnFrom i headers aliases = (-1)%Z /\ (0 <= i)%Z ->
     forall h, In h headers -> headerMatches aliases h = false)
  /\ ((forall h, In h headers -> headerMatches aliases h = false) ->
      findColumnFrom i headers aliases = (-1)%Z)
  /\ (forall k h, nth_error headers k = Some h -> headerMatches aliases h = true ->
        (forall j h', (j < k)%nat -> nth_error headers j = Some h' ->
                      headerMatches aliases h' = false) ->
        findColumnFrom i headers aliases = (i + Z.of_nat k)%Z)
  /\ ((0 <= i)%Z ->
      findColumnFrom i headers aliases = (-1)%Z \/
      (i <= findColumnFrom i headers aliases < i + Z.of_nat (List.length headers))%Z).
Proof.
  induction headers as [|h0 rest IH]; intros i.
  - simpl. repeat split.
    + intros _ h [].
    + intros k h H. destruct k; discriminate H.
    + intros _. now left.
  - destruct (IH (i + 1)%Z) as [IH1 [IH2 [IH3 IH4]]]. cbn [findColumnFrom].
    destruct (headerMatches aliases h0) eqn:E0. 
    + split; [|split; [|split]].
      * intros [H Hi]. lia.
      * intros H. rewrite (H h0) in E0; [discriminate E0 | now left].
      * intros [|k] h Hk Hm Hfirst.
        -- lia.
        -- rewrite (Hfirst 0%nat h0) in E0; [discriminate E0 | lia | reflexivity].
      * intros Hi. right. simpl. lia.
    + split; [|split; [|split]].
      * intros [H Hi] h [<-|Hin]; [exact E0|]. apply IH1; [|exact Hin]. split; [exact H | lia].
      * intros H. apply IH2. intros h Hin. apply H. now right.
      * intros [|k] h Hk Hm Hfirst.
        -- simpl in Hk. injection Hk as ->. congruence.
        -- rewrite (IH3 k h Hk Hm); [lia|].
           intros j h' Hj Hn. apply (Hfirst (S j) h'); [lia | exact Hn].
      * intros Hi. destruct IH4 as [H|H]; [lia | now left | right; simpl; lia].
Qed.

Lemma findColumnIndex_spec (headers : list (option string)) (aliases : list string) :
  (findColumnIndex headers aliases = (-1)%Z <->
   forall h, In h headers -> headerMatches aliases h = false)
  /\ (forall k h, nth_error headers k = Some h ->
        headerMatches aliases h = true ->
        (forall j h', (j < k)%nat -> nth_error headers j = Some h' ->
                      headerMatches aliases h' = false) ->
        findColumnIndex headers aliases = Z.of_nat k)
  /\ (findColumnIndex headers aliases = (-1)%Z \/
      (0 <= findColumnIndex headers aliases < Z.of_nat (List.length headers))%Z).
Proof.
  unfold findColumnIndex.
  destruct (findColumnFrom_spec aliases headers 0) as [H1 [H2 [H3 H4]]].
  split; [|split].
  - split; [|exact H2]. intros H. apply H1. split; [exact H | lia].
  - intros k h Hk Hm Hf. now rewrite (H3 k h Hk Hm Hf).
  - destruct H4 as [H|H]; [lia | now left | right; lia].
Qed.

End ParserFacts.

Import ParserFacts.

(** [findColumnIndex] gives -1 exactly when no header matches an alias;
    otherwise it gives the position of the first matching header, which
    lies within the header row. *)
Theorem findColumnIndex_first_match (headers : list (option string))
  (aliases : list string) :
  (Parser.findColumnIndex headers aliases = (-1)%Z <->
   forall h, In h headers -> Parser.headerMatches aliases h = false)
  /\ (forall k h, nth_error headers k = Some h ->
        Parser.headerMatches aliases h = true ->
        (forall j h', (j < k)%nat -> nth_error headers j = Some h' ->
                      Parser.headerMatches aliases h' = false) ->
        Parser.findColumnIndex headers aliases = Z.of_nat k)
  /\ (Parser.findColumnIndex headers aliases = (-1)%Z \/
      (0 <= Parser.findColumnIndex headers aliases < Z.of_nat (List.length headers))%Z).
Proof.
  unfold Parser.findColumnIndex.
  destruct (findColumnFrom_spec aliases headers 0) as [Hnone [Hall [Hfirst Hrange]]].
  split; [|split].
  - split; [|exact Hall]. intros H. apply Hnone. split; [exact H | lia].
  - intros k h Hk Hm Hf. now rewrite (Hfirst k h Hk Hm Hf).
  - destruct Hrange as [H|H]; [lia | now left | right; lia].
Qed.

Lemma findColumnIndex_first_match_witness :
  Parser.findColumnIndex [ Some "Name"; None; Some " Manager   NOTES " ]
    ColumnAliases.managerComments = 2%Z.
Proof.
  apply (proj1 (proj2 (findColumnIndex_first_match
                         [ Some "Name"; None; Some " Manager   NOTES " ]
                         ColumnAliases.managerComments))
           2%nat (Some " Manager   NOTES ")).
  - reflexivity.
  - reflexivity.
  - intros [|[|j]] h' Hj H; try lia; injection H as <-; reflexivity.
Defined.

(** The identifier column is the first header that contains "id" or
    "employee" once normalized, whatever else the header says; the parse
    is refused for a missing identifier column exactly when no header
    does. *)
Theorem employee_id_column_rule (worksheet : Parser.Sheet)
  (others : list Parser.Sheet) :
  let headers := hd [] worksheet in
  (p_error (Parser.parseWorksheets (worksheet :: others)) = Some Parser.missingIdColumn <->
   forall h, In h headers -> idLike h = false)
  /\ (forall k h, nth_error headers k = Some h -> idLike h = true ->
        (forall j h', (j < k)%nat -> nth_error headers j = Some h' -> idLike h' = false) ->
        Parser.c_employeeId (Parser.resolveColumns headers) = Z.of_nat k).
Proof.
  intros headers.
  destruct (findColumnIndex_spec headers ColumnAliases.employeeId) as [H1 [H2 H3]].
  split.
  - unfold Parser.parseWorksheets. fold headers.
    cbn [Parser.resolveColumns Parser.c_employeeId].
    destruct (Parser.findColumnIndex headers ColumnAliases.employeeId =? -1)%Z eqn:E.
    + apply Z.eqb_eq in E. split; [|reflexivity]. intros _ h Hin.
      rewrite <- headerMatches_employeeId. now apply H1.
    + apply Z.eqb_neq in E. split.
      * intros H. exfalso.
        destruct (List.length _ =? 0)%nat; simpl in H; discriminate H.
      * intros H. exfalso. apply E, H1. intros h Hin.
        rewrite headerMatches_employeeId. now apply H.
  - intros k h Hk Hm Hf. cbn [Parser.resolveColumns Parser.c_employeeId].
    apply (H2 k h Hk); [now rewrite headerMatches_employeeId|].
    intros j h' Hj Hn. rewrite headerMatches_employeeId. now apply (Hf j h').
Qed.

(** The goals column comes first and carries the word Employee. *)
Definition goalsFirstSheet : Parser.Sheet :=
  [ [ Some "Employee Goal Rating"; Some "EmployeeId"; Some "Manager Comments" ];
    [ Some "Meets"; Some "E-1"; Some "Delivered the quarterly plan on schedule." ] ].

Lemma employee_id_column_rule_witness :
  Parser.c_employeeId (Parser.resolveColumns (hd [] goalsFirstSheet)) = 0%Z.
Proof.
  apply (proj2 (employee_id_column_rule goalsFirstSheet []) 0%nat
           (Some "Employee Goal Rating")).
  - reflexivity.
  - reflexivity.
  - intros j h' Hj. lia.
Defined.

(* ================================================================== *)
(** * The parser: what a successful parse returns *)
(* ================================================================== *)

Module ExtractFacts.
Import Parser.

(** Empty, or starting with a code unit that is not white space. *)
Definition startsClean (s : string) : Prop :=
  match s with
  | EmptyString => True
  | String c _ => Js.isWhiteSpace c = false
  end.

Lemma trimStart_clean (s : string) : startsClean (Js.trimStart s).
Proof.
  induction s as [|c s IH]; simpl; [exact I|].
  destruct (Js.isWhiteSpace c) eqn:E; [exact IH | exact E].
Qed.

Lemma trimStart_of_clean (s : string) : startsClean s -> Js.trimStart s = s.
Proof.
  destruct s as [|c s]; simpl; [reflexivity|]. now intros ->.
Qed.

Lemma trimEnd_clean (s : string) : startsClean s -> startsClean (Js.trimEnd s).
Proof.
  destruct s as [|c s]; simpl; [trivial|]. intros H.
  destruct (Js.trimEnd s); [rewrite H|]; exact H.
Qed.

Lemma trimEnd_idempotent (s : string) : Js.trimEnd (Js.trimEnd s) = Js.trimEnd s.
Proof.
  induction s as [|c s IH]; simpl; [reflexivity|].
  destruct (Js.trimEnd s) as [|d t] eqn:E.
  - destruct (Js.isWhiteSpace c) eqn:W; simpl; [reflexivity | now rewrite W].
  - change (Js.trimEnd (String c (String d t))) with
      (match Js.trimEnd (String d t) with
       | EmptyString => if Js.isWhiteSpace c then EmptyString else String c EmptyString
       | String x y => String c (String x y)
       end).
    now rewrite IH.
Qed.

(** Trimming twice is trimming once. *)
Lemma trim_idempotent (s : string) : Js.trim (Js.trim s) = Js.trim s.
Proof.
  unfold Js.trim.
  rewrite (trimStart_of_clean (Js.trimEnd (Js.trimStart s))).
  - apply trimEnd_idempotent.
  - apply trimEnd_clean, trimStart_clean.
Qed.

(** A field as [getCellValue] leaves it: absent, or trimmed text. *)
Definition trimmedField (v : option string) : Prop :=
  match v with
  | None => True
  | Some s => Js.trim s = s
  end.

Lemma getCellValue_trimmed (row : SheetRow) (index : Z) :
  trimmedField (getCellValue row index).
Proof.
  unfold getCellValue. destruct (index =? -1)%Z; [exact I|].
  destruct (nth_error row (Z.to_nat index)) as [[v|]|]; simpl; try exact I.
  apply trim_idempotent.
Qed.

Lemma getCellValue_unresolved (row : SheetRow) : getCellValue row (-1) = None.
Proof. reflexivity. Qed.

Definition trimmedRecord (e : EmployeeData) : Prop :=
  Js.trim (employeeId e) = employeeId e /\ employeeId e <> EmptyString
  /\ trimmedField (goalEmployeeRating e) /\ trimmedField (goalManagerRating e)
  /\ trimmedField (valuesEmployeeRating e) /\ trimmedField (valuesManagerRating e)
  /\ trimmedField (overallRatingEmployee e) /\ trimmedField (overallRatingManager e)
  /\ trimmedField (managerComments e).

Lemma extractRow_some (ix : ColumnIndices) (row : SheetRow) (e : EmployeeData) :
  extractRow ix row = Some e ->
  getCellValue row (c_employeeId ix) = Some (employeeId e)
  /\ goalEmployeeRating e = getCellValue row (c_goalEmployeeRating ix)
  /\ goalManagerRating e = getCellValue row (c_goalManagerRating ix)
  /\ valuesEmployeeRating e = getCellValue row (c_valuesEmployeeRating ix)
  /\ valuesManagerRating e = getCellValue row (c_valuesManagerRating ix)
  /\ overallRatingEmployee e = getCellValue row (c_overallRatingEmployee ix)
  /\ overallRatingManager e = getCellValue row (c_overallRatingManager ix)
  /\ managerComments e = getCellValue row (c_managerComments ix)
  /\ employeeId e <> EmptyString.
Proof.
  unfold extractRow.
  destruct (getCellValue row (c_employeeId ix)) as [[|c s]|] eqn:E; simpl;
    try discriminate.
  intros H. injection H as <-. simpl. repeat split. discriminate.
Qed.

Lemma extractRow_trimmed (ix : ColumnIndices) (row : SheetRow) (e : EmployeeData) :
  extractRow ix row = Some e -> trimmedRecord e.
Proof.
  intros H. apply extractRow_some in H.
  destruct H as [Hid [H1 [H2 [H3 [H4 [H5 [H6 [H7 Hne]]]]]]]].
  unfold trimmedRecord. rewrite H1, H2, H3, H4, H5, H6, H7.
  pose proof (getCellValue_trimmed row (c_employeeId ix)) as Ht.
  rewrite Hid in Ht. simpl in Ht.
  repeat split; try assumption; apply getCellValue_trimmed.
Qed.

Lemma extractRows_In (ix : ColumnIndices) (rows : list SheetRow) (e : EmployeeData) :
  In e (extractRows ix rows) <-> exists row, In row rows /\ extractRow ix row = Some e.
Proof.
  induction rows as [|row rows IH]; simpl.
  - split; [tauto | intros [r [[] _]]].
  - destruct (extractRow ix row) as [e0|] eqn:E; simpl; rewrite IH; split.
    + intros [<-|[r [Hin Hr]]]; [exists row; auto | exists r; auto].
    + intros [r [[<-|Hin] Hr]]; [left; congruence | right; now exists r].
    + intros [r [Hin Hr]]. exists r; auto.
    + intros [r [[<-|Hin] Hr]]; [congruence | now exists r].
Qed.

Lemma extractRows_length (ix : ColumnIndices) (rows : list SheetRow) :
  (List.length (extractRows ix rows) <= List.length rows)%nat.
Proof.
  induction rows as [|row rows IH]; simpl; [lia|].
  destruct (extractRow ix row); simpl; lia.
Qed.

(** What [parseWorksheets] returns, case by case. *)
Lemma parseWorksheets_cases (worksheets : list Sheet) :
  (exists worksheet others employees,
     worksheets = worksheet :: others
     /\ c_employeeId (resolveColumns (hd [] worksheet)) <> (-1)%Z
     /\ employees = extractRows (resolveColumns (hd [] worksheet)) (tl worksheet)
     /\ employees <> []
     /\ parseWorksheets worksheets =
          {| p_success := true; p_employees := Some employees; p_error := None |})
  \/ (exists message,
        message <> EmptyString /\ parseWorksheets worksheets = failure message).
Proof.
  destruct worksheets as [|worksheet others].
  - right. eexists. split; [|reflexivity]. discriminate.
  - unfold parseWorksheets.
    destruct (c_employeeId (resolveColumns (hd [] worksheet)) =? -1)%Z eqn:E.
    + right. eexists. split; [|reflexivity]. discriminate.
    + apply Z.eqb_neq in E.
      destruct (extractRows (resolveColumns (hd [] worksheet)) (tl worksheet))
        as [|e es] eqn:Er.
      * right. simpl. eexists. split; [|reflexivity]. discriminate.
      * left. exists worksheet, others, (e :: es). simpl.
        repeat split; try assumption; try discriminate. now rewrite Er.
Qed.

Lemma parseExcelFile_cases (load : string -> Exn + list Sheet) (buffer : string) :
  (exists worksheets, load buffer = inr worksheets
                      /\ parseExcelFile load buffer = parseWorksheets worksheets)
  \/ (exists e, load buffer = inl e
                /\ parseExcelFile load buffer =
                     failure ("Failed to parse Excel file: " ++
                              errorMessageOr e "Unknown error")).
Proof.
  unfold parseExcelFile. destruct (load buffer) as [e|ws].
  - right. now exists e.
  - left. now exists ws.
Qed.

(** The two shapes of a parse result. *)
Lemma parseExcelFile_shape (load : string -> Exn + list Sheet) (buffer : string) :
  let r := parseExcelFile load buffer in
  (p_success r = true /\ p_error r = None /\
   exists employees, p_employees r = Some employees /\ employees <> [])
  \/ (p_success r = false /\ p_employees r = None /\
      exists message, p_error r = Some message /\ message <> EmptyString).
Proof.
  intros r. subst r.
  destruct (parseExcelFile_cases load buffer) as [[ws [_ ->]]|[e [_ ->]]].
  - destruct (parseWorksheets_cases ws)
      as [[w [o [es [_ [_ [_ [Hne ->]]]]]]]|[m [Hm ->]]].
    + left. simpl. repeat split. now exists es.
    + right. simpl. repeat split. now exists m.
  - right. simpl. repeat split. eexists. split; [reflexivity | discriminate].
Qed.

End ExtractFacts.

Import ExtractFacts.

(** [parseExcelFile] returns one of two shapes: success with a non-empty
    employee list and no error, or failure with no employees and a
    non-empty message.  So the orchestrator's test for a missing employee
    list adds nothing to its test of [success], and its fallback message
    for a parse failure is never used. *)
Theorem parse_result_shape (load : string -> Exn + list Parser.Sheet)
  (buffer : string) :
  let r := Parser.parseExcelFile load buffer in
  (p_success r = true /\ p_error r = None /\
   exists employees, p_employees r = Some employees /\ employees <> [])
  \/ (p_success r = false /\ p_employees r = None /\
      exists message, p_error r = Some message /\ message <> EmptyString /\
                      Js.orElse (p_error r) "Failed to parse Excel file" = message).
Proof.
  intros r.
  destruct (parseExcelFile_shape load buffer)
    as [[Hs [He Hemp]]|[Hs [Hemp [m [He Hm]]]]]; fold r in Hs, He, Hemp.
  - left. auto.
  - right. split; [exact Hs|]. split; [exact Hemp|]. exists m.
    split; [exact He|]. split; [exact Hm|]. rewrite He. now destruct m.
Qed.

(** The employees of a successful parse come from the rows after the
    header row of the first worksheet, each from a row whose identifier
    cell is not blank; there are at most as many as such rows, every
    identifier is non-empty, and every field is absent or trimmed. *)
Theorem parse_success_extraction (worksheet : Parser.Sheet)
  (others : list Parser.Sheet) (employees : list EmployeeData) :
  p_employees (Parser.parseWorksheets (worksheet :: others)) = Some employees ->
  let ix := Parser.resolveColumns (hd [] worksheet) in
  employees = Parser.extractRows ix (tl worksheet)
  /\ (0 < List.length employees <= List.length (tl worksheet))%nat
  /\ (forall e, In e employees ->
        trimmedRecord e /\
        exists row, In row (tl worksheet) /\
                    Parser.getCellValue row (Parser.c_employeeId ix) = Some (employeeId e)).
Proof.
  intros H ix.
  destruct (parseWorksheets_cases (worksheet :: others))
    as [[w [o [es [Ew [_ [Ees [Hne Er]]]]]]]|[m [_ Er]]];
    rewrite Er in H; simpl in H; [|discriminate H].
  injection Ew as <- <-. injection H as <-. fold ix in Ees.
  split; [exact Ees|]. split.
  - split; [destruct es; [now destruct Hne | simpl; lia]|].
    rewrite Ees. apply extractRows_length.
  - intros e Hin. rewrite Ees in Hin. apply extractRows_In in Hin.
    destruct Hin as [row [Hrow He]]. split.
    + exact (extractRow_trimmed _ _ _ He).
    + exists row. split; [exact Hrow|]. now apply extractRow_some in He.
Qed.

(** Two records, a row with a blank identifier, and padded cells. *)
Definition paddedSheet : Parser.Sheet :=
  [ [ Some "Employee ID"; Some "Overall Rating - Employee"; Some "Manager Comments" ];
    [ Some " E-1 "; Some " Meets "; Some "  Delivered the quarterly plan on schedule. " ];
    [ Some "   "; Some "Exceeds"; Some "no identifier" ];
    [ Some "E-2"; None; None ] ].

Lemma parse_success_extraction_witness :
  let ix := Parser.resolveColumns (hd [] paddedSheet) in
  [ record "E-1" None None None None (Some "Meets") None
      (Some "Delivered the quarterly plan on schedule.");
    record "E-2" None None None None None None None ]
  = Parser.extractRows ix (tl paddedSheet)
  /\ (0 < 2 <= 3)%nat
  /\ (forall e,
        In e [ record "E-1" None None None None (Some "Meets") None
                 (Some "Delivered the quarterly plan on schedule.");
               record "E-2" None None None None None None None ] ->
        trimmedRecord e /\
        exists row, In row (tl paddedSheet) /\
                    Parser.getCellValue row (Parser.c_employeeId ix) = Some (employeeId e)).
Proof.
  apply (parse_success_extraction paddedSheet []
           [ record "E-1" None None None None (Some "Meets") None
               (Some "Delivered the quarterly plan on schedule.");
             record "E-2" None None None None None None None ]).
  reflexivity.
Defined.

(** A worksheet without a comments column gives every record an absent
    narrative, so the engine reports [NarrativeInsufficient] for every
    record of the batch and recommends RED for all of them. *)
Theorem missing_comments_column_all_red (worksheet : Parser.Sheet)
  (others : list Parser.Sheet) (employees : list EmployeeData) :
  p_employees (Parser.parseWorksheets (worksheet :: others)) = Some employees ->
  Parser.findColumnIndex (hd [] worksheet) ColumnAliases.managerComments = (-1)%Z ->
  forall e, In e employees ->
    managerComments e = None
    /\ In "NarrativeInsufficient" (flagsTriggered (analyze e))
    /\ aiRecommendation (analyze e) = RED.
Proof.
  intros H Hcol e Hin.
  destruct (parseWorksheets_cases (worksheet :: others))
    as [[w [o [es [Ew [_ [Ees [_ Er]]]]]]]|[m [_ Er]]];
    rewrite Er in H; simpl in H; [|discriminate H].
  injection Ew as <- <-. injection H as <-.
  rewrite Ees in Hin. apply extractRows_In in Hin. destruct Hin as [row [_ He]].
  apply extractRow_some in He. destruct He as [_ [_ [_ [_ [_ [_ [_ [Hmc _]]]]]]]].
  cbn [Parser.resolveColumns Parser.c_managerComments] in Hmc.
  rewrite Hcol in Hmc. simpl in Hmc.
  assert (narrativeInsufficient (managerComments e) = true) as Hn
    by (rewrite Hmc; reflexivity).
  split; [exact Hmc|]. split.
  - now apply flag_narrative.
  - apply recommendation_RED, escalated_iff. do 3 right. now left.
Qed.

(** Ratings only. *)
Definition ratingsOnlySheet : Parser.Sheet :=
  [ [ Some "EmployeeId"; Some "Overall Rating - Employee"; Some "Overall Rating - Manager" ];
    [ Some "E-1"; Some "Meets"; Some "Meets" ] ].

Lemma missing_comments_column_all_red_witness :
  let e := record "E-1" None None None None (Some "Meets") (Some "Meets") None in
  managerComments e = None
  /\ In "NarrativeInsufficient" (flagsTriggered (analyze e))
  /\ aiRecommendation (analyze e) = RED.
Proof.
  apply (missing_comments_column_all_red ratingsOnlySheet []
           [ record "E-1" None None None None (Some "Meets") (Some "Meets") None ]).
  - reflexivity.
  - reflexivity.
  - now left.
Defined.

(* ================================================================== *)
(** * The orchestrator: every way a run can end *)
(* ================================================================== *)

Module Lifecycle.
Import Storage Routes Hoare RoutesFacts.

(** From a world satisfying [P], [m] returns [a] in a world satisfying
    [Q a], or throws [e] in a world satisfying [E e]. *)
Definition spec {A} (P : World -> Prop) (m : M A)
  (Q : A -> World -> Prop) (E : Exn -> World -> Prop) : Prop :=
  forall w, P w ->
    match m w with
    | (inr a, w') => Q a w'
    | (inl e, w') => E e w'
    end.

Lemma spec_ret {A} (a : A) (P : World -> Prop) (Q : A -> World -> Prop) E :
  (forall w, P w -> Q a w) -> spec P (ret a) Q E.
Proof.
  intros H w Hw. apply H, Hw.
Qed.

Lemma spec_bind {A B} (m : M A) (k : A -> M B) P Q R E :
  spec P m Q E -> (forall a, spec (Q a) (k a) R E) -> spec P (bind m k) R E.
Proof.
  intros Hm Hk w Hw. unfold bind. specialize (Hm w Hw).
  destruct (m w) as [[e|a] w'].
  - exact Hm.
  - apply Hk, Hm.
Qed.

Lemma spec_tryCatch {A} (body : M A) (handler : Exn -> M A) P Q E' E :
  spec P body Q E' -> (forall e, spec (E' e) (handler e) Q E) ->
  spec P (tryCatch body handler) Q E.
Proof.
  intros Hb Hh w Hw. unfold tryCatch. specialize (Hb w Hw).
  destruct (body w) as [[e|a] w'].
  - apply Hh, Hb.
  - exact Hb.
Qed.

Lemma spec_post {A} (m : M A) (P : World -> Prop) (Q Q' : A -> World -> Prop) E :
  spec P m Q' E -> (forall a w, Q' a w -> Q a w) -> spec P m Q E.
Proof.
  intros H HQ w Hw. specialize (H w Hw).
  destruct (m w) as [[e|a] w']; auto.
Qed.

Lemma spec_assume {A} (fact : Prop) (P : World -> Prop) (m : M A) Q E :
  (fact -> spec P m Q E) -> spec (fun w => fact /\ P w) m Q E.
Proof.
  intros H w [Hf Hw]. now apply H.
Qed.

(** The job's row and the trace are exactly [j] and [tr]. *)
Definition At (j : Job) (tr : list Event) (w : World) : Prop :=
  job w = j /\ trace w = tr.

Lemma spec_emit (ev : Event) (j : Job) (tr : list Event) E :
  spec (At j tr) (emit ev) (fun _ => At j (tr ++ [ev])) E.
Proof.
  intros w [Hj Ht]. split; simpl; congruence.
Qed.

Lemma progressWrites_map (updates : nat -> JobUpdate) (p : nat -> Z) (l : list nat) :
  (forall i, u_progress (updates i) = Some (p i)) ->
  progressWrites (map (fun i => JobUpdated (updates i)) l) = map p l.
Proof.
  intros H. induction l as [|i l IH]; simpl; [reflexivity|].
  now rewrite H, IH.
Qed.

Lemma statusWrites_map (updates : nat -> JobUpdate) (l : list nat) :
  (forall i, u_status (updates i) = None) ->
  statusWrites (map (fun i => JobUpdated (updates i)) l) = [].
Proof.
  intros H. induction l as [|i l IH]; simpl; [reflexivity|].
  now rewrite H, IH.
Qed.

(** The events of a trace that are not writes to the job's row leave
    the written values alone. *)
Lemma progressWrites_offRow (evs : list Event) :
  Forall offRow evs -> progressWrites evs = [].
Proof.
  induction 1 as [|ev evs Hev _ IH]; simpl; [reflexivity|].
  rewrite IH. destruct ev; try destruct Hev; reflexivity.
Qed.

Lemma statusWrites_offRow (evs : list Event) :
  Forall offRow evs -> statusWrites evs = [].
Proof.
  induction 1 as [|ev evs Hev _ IH]; simpl; [reflexivity|].
  rewrite IH. destruct ev; try destruct Hev; reflexivity.
Qed.

(** The audit events that close a run, in order. *)
Definition terminalAudits (tr : list Event) : list AuditEvent :=
  flat_map (fun ev =>
              match ev with
              | Audited (ANALYSIS_COMPLETED j t r g) => [ANALYSIS_COMPLETED j t r g]
              | Audited (ANALYSIS_FAILED j m) => [ANALYSIS_FAILED j m]
              | _ => []
              end) tr.

Lemma terminalAudits_app (t1 t2 : list Event) :
  terminalAudits (t1 ++ t2) = terminalAudits t1 ++ terminalAudits t2.
Proof.
  unfold terminalAudits. apply flat_map_app.
Qed.

Lemma terminalAudits_map (updates : nat -> JobUpdate) (l : list nat) :
  terminalAudits (map (fun i => JobUpdated (updates i)) l) = [].
Proof.
  induction l as [|i l IH]; simpl; [reflexivity | exact IH].
Qed.

(** The items sent to SharePoint, in order. *)
Definition historyItems (tr : list Event) : list RunHistoryItem :=
  flat_map (fun ev =>
              match ev with
              | HistoryRecorded item => [item]
              | _ => []
              end) tr.

Lemma historyItems_app (t1 t2 : list Event) :
  historyItems (t1 ++ t2) = historyItems t1 ++ historyItems t2.
Proof.
  unfold historyItems. apply flat_map_app.
Qed.

Lemma historyItems_map (updates : nat -> JobUpdate) (l : list nat) :
  historyItems (map (fun i => JobUpdated (updates i)) l) = [].
Proof.
  induction l as [|i l IH]; simpl; [reflexivity | exact IH].
Qed.

Lemma seq_split (i n : nat) : (i <= n)%nat -> seq 0 n = seq 0 i ++ seq i (n - i).
Proof.
  intros H. transitivity (seq 0 (i + (n - i))); [f_equal; lia | apply seq_app].
Qed.

Section Run.
Context {F : Type} {arith : JsNumber F}.
Variable env : Env.
Variables jobId buffer batch file : string.
Variable now : nat.

(** ** What the run does to SharePoint *)

Definition historyItem (total redCount greenCount : nat) (st : string)
  (errorMessage : option string) : RunHistoryItem :=
  {| h_reviewBatch := batch; h_runId := jobId; h_submittedBy := "System";
     h_fileName := file; h_totalEmployees := total;
     h_redCount := redCount; h_greenCount := greenCount; h_status := st;
     h_outputFileUrl := ("/api/jobs/" ++ jobId ++ "/download")%string;
     h_errorMessage := errorMessage |}.

(** The events of one call of [recordSharePointHistory]. *)
Definition sharePointEvents (total redCount greenCount : nat) (st : string)
  (errorMessage : option string) : list Event :=
  match sharePoint env with
  | None => []
  | Some createRunHistory =>
      let item := historyItem total redCount greenCount st errorMessage in
      match createRunHistory item with
      | Some e =>
          [ Audited (SHAREPOINT_WRITE_FAILED jobId (errorMessageOr e "Unknown error")) ]
      | None => [ HistoryRecorded item; Audited (SHAREPOINT_WRITE_SUCCESS jobId) ]
      end
  end.

(** The item one call of [recordSharePointHistory] gets recorded, if
    SharePoint is configured and accepts it. *)
Definition recorded (total redCount greenCount : nat) (st : string)
  (errorMessage : option string) : list RunHistoryItem :=
  match sharePoint env with
  | None => []
  | Some createRunHistory =>
      let item := historyItem total redCount greenCount st errorMessage in
      match createRunHistory item with
      | Some _ => []
      | None => [item]
      end
  end.

Lemma historyItems_sharePointEvents total red green st msg :
  historyItems (sharePointEvents total red green st msg) = recorded total red green st msg.
Proof.
  unfold sharePointEvents, recorded. destruct (sharePoint env) as [create|]; [|reflexivity].
  destruct (create _); reflexivity.
Qed.

Lemma terminalAudits_sharePointEvents total red green st msg :
  terminalAudits (sharePointEvents total red green st msg) = [].
Proof.
  unfold sharePointEvents. destruct (sharePoint env) as [create|]; [|reflexivity].
  destruct (create _); reflexivity.
Qed.

Lemma sharePointEvents_offRow total red green st msg :
  Forall offRow (sharePointEvents total red green st msg).
Proof.
  unfold sharePointEvents. destruct (sharePoint env) as [create|]; [|constructor].
  destruct (create _); repeat constructor.
Qed.

(** [recordSharePointHistory] never throws, whatever SharePoint does,
    and touches neither the job's row nor the database. *)
Lemma recordSharePointHistory_run total red green st msg (w : World) :
  recordSharePointHistory env jobId batch file total red green st msg w =
  (inr tt, {| job := job w; dbCalls := dbCalls w;
              trace := trace w ++ sharePointEvents total red green st msg |}).
Proof.
  unfold recordSharePointHistory, sharePointEvents, historyItem.
  destruct (sharePoint env) as [create|].
  - unfold tryCatch, bind. destruct (create _) as [e|]; simpl.
    + reflexivity.
    + now rewrite <- app_assoc.
  - unfold ret. rewrite app_nil_r. now destruct w.
Qed.

Lemma spec_recordSharePointHistory total red green st msg (j : Job) (tr : list Event) E :
  spec (At j tr) (recordSharePointHistory env jobId batch file total red green st msg)
       (fun _ => At j (tr ++ sharePointEvents total red green st msg)) E.
Proof.
  intros w [Hj Ht]. rewrite recordSharePointHistory_run. split; simpl; congruence.
Qed.

(** ** The writer *)

Definition workbookName : string := ("analysis-results-" ++ jobId ++ ".xlsx")%string.
Definition workbookPath : string :=
  Path.join [Path.join [cwd env; "tmp"]; workbookName].

Definition writtenResult : Writer.WriteResult :=
  {| Writer.success := true; Writer.filePath := Some workbookPath;
     Writer.fileName := Some workbookName; Writer.error := None |}.

Definition writeFailure (e : Exn) : string :=
  ("Failed to generate results Excel: " ++ errorMessageOr e "Unknown error")%string.

Definition failedResult (e : Exn) : Writer.WriteResult :=
  {| Writer.success := false; Writer.filePath := None; Writer.fileName := None;
     Writer.error := Some (writeFailure e) |}.

Lemma spec_generateResultsExcel_written (rs : list AnalysisResult) (j : Job)
  (tr : list Event) E :
  fsFault env = None ->
  spec (At j tr) (Writer.generateResultsExcel env batch rs jobId)
       (fun wr w =>
          wr = writtenResult /\
          At j (tr ++ [FileWritten workbookPath (Writer.resultsWorksheet batch rs)]) w)
       E.
Proof.
  intros Hfs w [Hj Ht]. unfold Writer.generateResultsExcel, tryCatch. rewrite Hfs.
  unfold bind, emit, ret. split; [reflexivity|].
  split; cbn [job trace]; [exact Hj | now rewrite Ht].
Qed.

Lemma spec_generateResultsExcel_failed (rs : list AnalysisResult) (e : Exn) (j : Job)
  (tr : list Event) E :
  fsFault env = Some e ->
  spec (At j tr) (Writer.generateResultsExcel env batch rs jobId)
       (fun wr w => wr = failedResult e /\ At j tr w) E.
Proof.
  intros Hfs w Hw. unfold Writer.generateResultsExcel, tryCatch. rewrite Hfs.
  unfold throw, ret. now split.
Qed.

(** ** A job that has not reached a terminal status *)

(** The values of [progress] a job with [n] employees writes before its
    terminal update. *)
Definition liveProgress (n : nat) : list Z :=
  [5; 10]%Z ++ map (fun i => progressAfter i n) (seq 0 n) ++ [85]%Z.

(** The same for this run: it depends on the parse. *)
Definition planned : list Z :=
  match p_success (parseExcelFile env buffer), p_employees (parseExcelFile env buffer) with
  | true, Some employees => liveProgress (List.length employees)
  | _, _ => [5]%Z
  end.

(** Results are stored only for the whole batch, after the workbook
    holding them was written. *)
Definition Kept (rs : list AnalysisResult) (tr : list Event) : Prop :=
  exists employees,
    parsed env buffer employees
    /\ rs = map (analyzeOrFail env) employees
    /\ fsFault env = None
    /\ In (FileWritten workbookPath (Writer.resultsWorksheet batch rs)) tr.

Definition Live (j : Job) (tr : list Event) : Prop :=
  ((status j = queued /\ statusWrites tr = [])
   \/ (status j = running
       /\ (statusWrites tr = [running] \/ statusWrites tr = [running; running])))
  /\ (exists rest, planned = progressWrites tr ++ rest)
  /\ resultFileName j = None
  /\ (forall rs, results j = Some rs -> Kept rs tr)
  /\ terminalAudits tr = []
  /\ historyItems tr = [].

(** Some database statement sent so far threw [e]. *)
Definition Fault (e : Exn) (w : World) : Prop :=
  exists k, (k < dbCalls w)%nat /\ dbFault env k = Some e.

Definition Broken (e : Exn) (w : World) : Prop :=
  Fault e w /\ Live (job w) (trace w).

(** One database statement, from a live job. *)
Lemma spec_statement (j : Job) (tr : list Event) (change : Job -> Job) (ev : Event) :
  Live j tr ->
  spec (At j tr) (statement env change ev) (fun _ => At (change j) (tr ++ [ev])) Broken.
Proof.
  intros HL w [Hj Ht]. unfold statement.
  destruct (dbFault env (dbCalls w)) as [e|] eqn:Ef.
  - split.
    + exists (dbCalls w). simpl. split; [lia | exact Ef].
    + simpl. now rewrite Hj, Ht.
  - split; simpl; congruence.
Qed.

Lemma spec_updateJob (updates : JobUpdate) (j j' : Job) (tr tr' : list Event) :
  Live j tr -> applyUpdate updates j = j' -> tr ++ [JobUpdated updates] = tr' ->
  spec (At j tr) (updateJob env updates) (fun _ => At j' tr') Broken.
Proof.
  intros HL <- <-. now apply spec_statement.
Qed.

Lemma spec_storeJobResults (rs : list AnalysisResult) (j : Job) (tr : list Event) :
  Live j tr ->
  spec (At j tr) (storeJobResults env rs)
       (fun _ => At (setResults rs j) (tr ++ [ResultsStored rs])) Broken.
Proof.
  intros HL. now apply spec_statement.
Qed.

(** ** The rows and traces of a run in which no statement throws *)

Definition startedTrace : list Event := [ Audited (ANALYSIS_STARTED jobId) ].

Definition parsingUpdate : JobUpdate := statusUpdate running 5 "Parsing Excel file...".

Definition parsingRow : Job := applyUpdate parsingUpdate (createJob jobId now batch).

Definition parsingTrace : list Event := startedTrace ++ [ JobUpdated parsingUpdate ].

Definition failedRow (errorMsg : string) (total processed : option nat) : Job :=
  {| id := jobId; reviewBatch := batch; status := error; progress := 0;
     message := Some errorMsg; resultFileName := None;
     totalEmployees := total; processedEmployees := processed;
     results := None; createdAt := now |}.

(** The three statements of a failure that [processJob] detects itself. *)
Definition failureEvents (errorMsg : string) (total : nat) : list Event :=
  [ JobUpdated (statusUpdate error 0 errorMsg);
    Audited (ANALYSIS_FAILED jobId errorMsg) ]
  ++ sharePointEvents total 0 0 "Failed" (Some errorMsg).

Definition parseFailure : string :=
  Js.orElse (p_error (parseExcelFile env buffer)) "Failed to parse Excel file".

Section Accepted.
Variable employees : list EmployeeData.

Let n : nat := List.length employees.

Definition foundUpdate : JobUpdate :=
  {| u_status := Some running; u_progress := Some 10%Z;
     u_message := Some ("Found " ++ Js.showNat n ++ " employees. Starting analysis...")%string;
     u_resultFileName := None; u_totalEmployees := Some n;
     u_processedEmployees := Some 0%nat |}.

Definition loopUpdate (i : nat) : JobUpdate :=
  {| u_status := None; u_progress := Some (progressAfter i n);
     u_message := Some ("Analyzed " ++ Js.showNat (i + 1) ++ " of " ++
                        Js.showNat n ++ " employees...")%string;
     u_resultFileName := None; u_totalEmployees := None;
     u_processedEmployees := Some (i + 1)%nat |}.

Definition generatingUpdate : JobUpdate :=
  {| u_status := None; u_progress := Some 85%Z;
     u_message := Some "Generating results Excel file...";
     u_resultFileName := None; u_totalEmployees := None;
     u_processedEmployees := None |}.

Definition doneUpdate : JobUpdate :=
  {| u_status := Some done; u_progress := Some 100%Z;
     u_message := Some "Analysis complete";
     u_resultFileName := Some workbookName;
     u_totalEmployees := None; u_processedEmployees := None |}.

(** The row once [i] records are analysed. *)
Definition loopRow (i : nat) : Job :=
  {| id := jobId; reviewBatch := batch; status := running;
     progress := match i with
                 | O => 10
                 | S k => progressAfter k n
                 end;
     message := Some (match i with
                      | O => "Found " ++ Js.showNat n ++ " employees. Starting analysis..."
                      | S k => "Analyzed " ++ Js.showNat (k + 1) ++ " of " ++
                               Js.showNat n ++ " employees..."
                      end)%string;
     resultFileName := None; totalEmployees := Some n;
     processedEmployees := Some i; results := None; createdAt := now |}.

Definition loopTrace (i : nat) : list Event :=
  parsingTrace ++ [ JobUpdated foundUpdate ]
  ++ map (fun k => JobUpdated (loopUpdate k)) (seq 0 i).

Definition analysed : list AnalysisResult := map (analyzeOrFail env) employees.

Definition generatingRow : Job := applyUpdate generatingUpdate (loopRow n).

Definition generatingTrace : list Event := loopTrace n ++ [ JobUpdated generatingUpdate ].

Definition writtenTrace : list Event :=
  generatingTrace ++ [ FileWritten workbookPath (Writer.resultsWorksheet batch analysed) ].

Definition storedTrace : list Event := writtenTrace ++ [ ResultsStored analysed ].

Definition redCount : nat := List.length (filter isRed analysed).
Definition greenCount : nat := List.length (filter isGreen analysed).

Definition doneRow : Job :=
  {| id := jobId; reviewBatch := batch; status := done; progress := 100;
     message := Some "Analysis complete"; resultFileName := Some workbookName;
     totalEmployees := Some n; processedEmployees := Some n;
     results := Some analysed; createdAt := now |}.

Definition doneTrace : list Event :=
  storedTrace
  ++ [ JobUpdated doneUpdate;
       Audited (ANALYSIS_COMPLETED jobId n redCount greenCount) ]
  ++ sharePointEvents n redCount greenCount "Completed" None.

Definition writeFailedTrace (e : Exn) : list Event :=
  generatingTrace ++ failureEvents (writeFailure e) n.

(** *** The written values along the way *)

Lemma loopTrace_S (i : nat) : loopTrace (S i) = loopTrace i ++ [ JobUpdated (loopUpdate i) ].
Proof.
  unfold loopTrace. rewrite seq_S, map_app, !app_assoc. reflexivity.
Qed.

Lemma loopRow_S (i : nat) : applyUpdate (loopUpdate i) (loopRow i) = loopRow (S i).
Proof.
  unfold applyUpdate, loopRow. simpl. now rewrite Nat.add_1_r.
Qed.

Lemma statusWrites_loopTrace (i : nat) : statusWrites (loopTrace i) = [running; running].
Proof.
  unfold loopTrace. rewrite !statusWrites_app, statusWrites_map; reflexivity.
Qed.

Lemma progressWrites_loopTrace (i : nat) :
  progressWrites (loopTrace i) = [5; 10]%Z ++ map (fun k => progressAfter k n) (seq 0 i).
Proof.
  unfold loopTrace.
  rewrite !progressWrites_app,
    (progressWrites_map loopUpdate (fun k => progressAfter k n)); reflexivity.
Qed.

Lemma terminalAudits_loopTrace (i : nat) : terminalAudits (loopTrace i) = [].
Proof.
  unfold loopTrace. rewrite !terminalAudits_app, terminalAudits_map. reflexivity.
Qed.

Lemma terminalAudits_generatingTrace : terminalAudits generatingTrace = [].
Proof.
  unfold generatingTrace. now rewrite terminalAudits_app, terminalAudits_loopTrace.
Qed.

Lemma terminalAudits_storedTrace : terminalAudits storedTrace = [].
Proof.
  unfold storedTrace, writtenTrace.
  now rewrite !terminalAudits_app, terminalAudits_generatingTrace.
Qed.

Lemma terminalAudits_doneTrace :
  terminalAudits doneTrace = [ ANALYSIS_COMPLETED jobId n redCount greenCount ].
Proof.
  unfold doneTrace.
  rewrite !terminalAudits_app, terminalAudits_storedTrace,
    terminalAudits_sharePointEvents.
  reflexivity.
Qed.

Lemma terminalAudits_failureEvents (errorMsg : string) (total : nat) :
  terminalAudits (failureEvents errorMsg total) = [ ANALYSIS_FAILED jobId errorMsg ].
Proof.
  unfold failureEvents. rewrite terminalAudits_app, terminalAudits_sharePointEvents.
  reflexivity.
Qed.

Lemma historyItems_loopTrace (i : nat) : historyItems (loopTrace i) = [].
Proof.
  unfold loopTrace. rewrite !historyItems_app, historyItems_map. reflexivity.
Qed.

Lemma historyItems_generatingTrace : historyItems generatingTrace = [].
Proof.
  unfold generatingTrace. now rewrite historyItems_app, historyItems_loopTrace.
Qed.

Lemma historyItems_storedTrace : historyItems storedTrace = [].
Proof.
  unfold storedTrace, writtenTrace.
  now rewrite !historyItems_app, historyItems_generatingTrace.
Qed.

Lemma historyItems_doneTrace :
  historyItems doneTrace = recorded n redCount greenCount "Completed" None.
Proof.
  unfold doneTrace.
  rewrite !historyItems_app, historyItems_storedTrace, historyItems_sharePointEvents.
  reflexivity.
Qed.

Lemma historyItems_failureEvents (errorMsg : string) (total : nat) :
  historyItems (failureEvents errorMsg total) = recorded total 0 0 "Failed" (Some errorMsg).
Proof.
  unfold failureEvents. rewrite historyItems_app, historyItems_sharePointEvents.
  reflexivity.
Qed.

Lemma statusWrites_generatingTrace : statusWrites generatingTrace = [running; running].
Proof.
  unfold generatingTrace. now rewrite statusWrites_app, statusWrites_loopTrace.
Qed.

Lemma progressWrites_generatingTrace : progressWrites generatingTrace = liveProgress n.
Proof.
  unfold generatingTrace, liveProgress.
  rewrite progressWrites_app, progressWrites_loopTrace, <- app_assoc. reflexivity.
Qed.

Lemma statusWrites_storedTrace : statusWrites storedTrace = [running; running].
Proof.
  unfold storedTrace, writtenTrace.
  now rewrite !statusWrites_app, statusWrites_generatingTrace.
Qed.

Lemma progressWrites_storedTrace : progressWrites storedTrace = liveProgress n.
Proof.
  unfold storedTrace, writtenTrace.
  rewrite !progressWrites_app, progressWrites_generatingTrace. simpl.
  now rewrite !app_nil_r.
Qed.

Lemma statusWrites_doneTrace : statusWrites doneTrace = [running; running; done].
Proof.
  unfold doneTrace.
  rewrite !statusWrites_app, statusWrites_storedTrace,
    (statusWrites_offRow _ (sharePointEvents_offRow _ _ _ _ _)).
  reflexivity.
Qed.

Lemma progressWrites_doneTrace : progressWrites doneTrace = liveProgress n ++ [100]%Z.
Proof.
  unfold doneTrace.
  rewrite !progressWrites_app, progressWrites_storedTrace,
    (progressWrites_offRow _ (sharePointEvents_offRow _ _ _ _ _)).
  reflexivity.
Qed.

Lemma statusWrites_failureEvents (errorMsg : string) (total : nat) :
  statusWrites (failureEvents errorMsg total) = [error].
Proof.
  unfold failureEvents.
  rewrite statusWrites_app, (statusWrites_offRow _ (sharePointEvents_offRow _ _ _ _ _)).
  reflexivity.
Qed.

Lemma progressWrites_failureEvents (errorMsg : string) (total : nat) :
  progressWrites (failureEvents errorMsg total) = [0]%Z.
Proof.
  unfold failureEvents.
  rewrite progressWrites_app, (progressWrites_offRow _ (sharePointEvents_offRow _ _ _ _ _)).
  reflexivity.
Qed.

(** *** The run after an accepted parse *)

Hypothesis accepted : parsed env buffer employees.

Lemma planned_accepted : planned = liveProgress n.
Proof.
  unfold planned. destruct accepted as [-> ->]. reflexivity.
Qed.

Lemma Live_parsing : Live parsingRow parsingTrace.
Proof.
  repeat split.
  - right. split; [reflexivity | now left].
  - rewrite planned_accepted.
    now exists ([10]%Z ++ map (fun k => progressAfter k n) (seq 0 n) ++ [85]%Z).
  - discriminate.
Qed.

Lemma Live_loop (i : nat) : (i <= n)%nat -> Live (loopRow i) (loopTrace i).
Proof.
  intros Hi. repeat split.
  - right. split; [reflexivity|]. right. apply statusWrites_loopTrace.
  - rewrite planned_accepted, progressWrites_loopTrace.
    exists (map (fun k => progressAfter k n) (seq i (n - i)) ++ [85]%Z).
    unfold liveProgress.
    rewrite (seq_split i n Hi), map_app, <- !app_assoc. reflexivity.
  - discriminate.
  - apply terminalAudits_loopTrace.
  - apply historyItems_loopTrace.
Qed.

Lemma Live_generating : Live generatingRow generatingTrace.
Proof.
  repeat split.
  - right. split; [reflexivity|]. right. apply statusWrites_generatingTrace.
  - rewrite planned_accepted, progressWrites_generatingTrace.
    exists []. now rewrite app_nil_r.
  - discriminate.
  - apply terminalAudits_generatingTrace.
  - apply historyItems_generatingTrace.
Qed.

Lemma Live_written : fsFault env = None -> Live generatingRow writtenTrace.
Proof.
  intros Hfs. repeat split.
  - right. split; [reflexivity|]. right.
    unfold writtenTrace. now rewrite statusWrites_app, statusWrites_generatingTrace.
  - rewrite planned_accepted. unfold writtenTrace.
    rewrite progressWrites_app, progressWrites_generatingTrace.
    exists []. simpl. now rewrite !app_nil_r.
  - discriminate.
  - unfold writtenTrace. now rewrite terminalAudits_app, terminalAudits_generatingTrace.
  - unfold writtenTrace. now rewrite historyItems_app, historyItems_generatingTrace.
Qed.

Lemma Kept_stored : fsFault env = None -> Kept analysed storedTrace.
Proof.
  intros Hfs. exists employees. repeat split; try assumption; try apply accepted.
  unfold storedTrace, writtenTrace. rewrite !in_app_iff. left. right. now left.
Qed.

Lemma Live_stored : fsFault env = None -> Live (setResults analysed generatingRow) storedTrace.
Proof.
  intros Hfs. repeat split.
  - right. split; [reflexivity|]. right. apply statusWrites_storedTrace.
  - rewrite planned_accepted, progressWrites_storedTrace.
    exists []. now rewrite app_nil_r.
  - intros rs H. injection H as <-. now apply Kept_stored.
  - apply terminalAudits_storedTrace.
  - apply historyItems_storedTrace.
Qed.

(** The loop, from index [i] on. *)
Lemma analyzeFrom_spec (pending : list EmployeeData) :
  forall (i : nat) (acc : list AnalysisResult),
  (i + List.length pending = n)%nat ->
  spec (At (loopRow i) (loopTrace i))
       (analyzeFrom env n i pending acc)
       (fun rs w => rs = acc ++ map (analyzeOrFail env) pending
                    /\ At (loopRow n) (loopTrace n) w)
       Broken.
Proof.
  induction pending as [|employee rest IH]; intros i acc Hi.
  - simpl in *. apply spec_ret. intros w Hw.
    rewrite app_nil_r. replace n with i by lia. now split.
  - simpl analyzeFrom. simpl in Hi.
    apply spec_bind with (Q := fun _ => At (loopRow (S i)) (loopTrace (S i))).
    + apply spec_updateJob;
        [apply Live_loop; lia | apply loopRow_S | symmetry; apply loopTrace_S].
    + intros _. eapply spec_post; [apply (IH (S i)); lia|].
      intros rs w [-> Hw]. split; [|exact Hw].
      rewrite <- app_assoc. reflexivity.
Qed.

(** How a run ends once its workbook is parsed and no statement
    throws. *)
Definition Succeeded (w : World) : Prop :=
  fsFault env = None /\ At doneRow doneTrace w.

Definition WriteFailed (e : Exn) (w : World) : Prop :=
  fsFault env = Some e
  /\ At (failedRow (writeFailure e) (Some n) (Some n)) (writeFailedTrace e) w.

Lemma analyzeAndWrite_spec :
  spec (At parsingRow parsingTrace)
       (analyzeAndWrite env jobId batch file employees)
       (fun _ w => Succeeded w \/ exists e, WriteFailed e w)
       Broken.
Proof.
  unfold analyzeAndWrite. fold n.
  apply spec_bind with (Q := fun _ => At (loopRow 0) (loopTrace 0)).
  { apply spec_updateJob; [apply Live_parsing | reflexivity | reflexivity]. }
  intros _.
  apply spec_bind with
    (Q := fun rs w => rs = analysed /\ At (loopRow n) (loopTrace n) w).
  { apply (analyzeFrom_spec employees 0 []). reflexivity. }
  intros rs. apply spec_assume. intros ->.
  apply spec_bind with (Q := fun _ => At generatingRow generatingTrace).
  { apply spec_updateJob; [apply Live_loop; lia | reflexivity | reflexivity]. }
  intros _.
  destruct (fsFault env) as [e|] eqn:Efs.
  - (* the workbook cannot be written *)
    apply spec_bind with
      (Q := fun wr w => wr = failedResult e /\ At generatingRow generatingTrace w).
    { now apply spec_generateResultsExcel_failed. }
    intros wr. apply spec_assume. intros ->.
    assert (Js.orElse (Writer.error (failedResult e)) "Failed to generate results file"
            = writeFailure e) as -> by reflexivity.
    cbn [negb Writer.success failedResult].
    apply spec_bind with
      (Q := fun _ => At (failedRow (writeFailure e) (Some n) (Some n))
                        (generatingTrace ++
                         [JobUpdated (statusUpdate error 0 (writeFailure e))])).
    { apply spec_updateJob; [apply Live_generating | reflexivity | reflexivity]. }
    intros _.
    apply spec_bind with
      (Q := fun _ => At (failedRow (writeFailure e) (Some n) (Some n))
                        ((generatingTrace ++
                          [JobUpdated (statusUpdate error 0 (writeFailure e))]) ++
                         [Audited (ANALYSIS_FAILED jobId (writeFailure e))])).
    { apply spec_emit. }
    intros _. eapply spec_post; [apply spec_recordSharePointHistory|].
    intros u w Hw. right. exists e. split; [exact Efs|].
    unfold writeFailedTrace, failureEvents. now rewrite <- !app_assoc in *.
  - (* the workbook is written *)
    apply spec_bind with
      (Q := fun wr w => wr = writtenResult /\ At generatingRow writtenTrace w).
    { now apply spec_generateResultsExcel_written. }
    intros wr. apply spec_assume. intros ->.
    cbn [negb Writer.success writtenResult Writer.fileName].
    apply spec_bind with
      (Q := fun _ => At (setResults analysed generatingRow) storedTrace).
    { apply spec_storeJobResults. now apply Live_written. }
    intros _.
    apply spec_bind with
      (Q := fun _ => At doneRow (storedTrace ++ [JobUpdated doneUpdate])).
    { apply spec_updateJob; [now apply Live_stored | reflexivity | reflexivity]. }
    intros _.
    apply spec_bind with
      (Q := fun _ => At doneRow
                       ((storedTrace ++ [JobUpdated doneUpdate]) ++
                        [Audited (ANALYSIS_COMPLETED jobId n redCount greenCount)])).
    { apply spec_emit. }
    intros _. eapply spec_post; [apply spec_recordSharePointHistory|].
    intros u w Hw. left. split; [exact Efs|].
    unfold doneTrace. now rewrite <- !app_assoc in *.
Qed.

End Accepted.

(** ** The whole run *)

Lemma Live_fresh : Live (createJob jobId now batch) startedTrace.
Proof.
  repeat split.
  - left. now split.
  - now exists planned.
  - discriminate.
Qed.

Lemma Live_rejected : parseRejected env buffer -> Live parsingRow parsingTrace.
Proof.
  intros Hrej. repeat split.
  - right. split; [reflexivity | now left].
  - exists []. unfold planned, parseRejected in *.
    destruct (p_success (parseExcelFile env buffer));
      [destruct (p_employees (parseExcelFile env buffer))|]; try reflexivity.
    destruct Hrej.
  - discriminate.
Qed.

Definition ParseFailed (w : World) : Prop :=
  parseRejected env buffer
  /\ At (failedRow parseFailure None None) (parsingTrace ++ failureEvents parseFailure 0) w.

(** The message the outer [catch] writes for a thrown value. *)
Definition unexpected (e : Exn) : string :=
  errorMessageOr e "An unexpected error occurred".

(** The outer [catch] took over from a live job and recorded the
    failure. *)
Definition Recovered (w : World) : Prop :=
  exists j tr k e,
    Live j tr /\ dbFault env k = Some e
    /\ At (applyUpdate (statusUpdate error 0 (unexpected e)) j)
          (tr ++ [ JobUpdated (statusUpdate error 0 (unexpected e));
                   Audited (ANALYSIS_FAILED jobId (unexpected e)) ]) w.

Definition Ended (w : World) : Prop :=
  (exists employees, parsed env buffer employees /\ Succeeded employees w)
  \/ (exists employees e, parsed env buffer employees /\ WriteFailed employees e w)
  \/ ParseFailed w
  \/ Recovered w.

(** The statement of the outer [catch] threw as well: the job stays
    live for ever. *)
Definition Rejected (e : Exn) (w : World) : Prop :=
  Live (job w) (trace w)
  /\ exists k1 k2 e1,
       (k1 < k2)%nat /\ dbFault env k1 = Some e1 /\ dbFault env k2 = Some e.

Lemma processJob_spec :
  spec (At (createJob jobId now batch) [])
       (processJob env jobId buffer batch file)
       (fun _ => Ended) Rejected.
Proof.
  unfold processJob.
  apply spec_tryCatch with (E' := Broken).
  - apply spec_bind with (Q := fun _ => At (createJob jobId now batch) startedTrace).
    { apply (spec_emit _ _ []). }
    intros _.
    apply spec_bind with (Q := fun _ => At parsingRow parsingTrace).
    { apply spec_updateJob; [apply Live_fresh | reflexivity | reflexivity]. }
    intros _.
    assert (parseRejected env buffer ->
            spec (At parsingRow parsingTrace)
              (updateJob env (statusUpdate error 0 parseFailure) ;;
               audit (ANALYSIS_FAILED jobId parseFailure) ;;
               recordSharePointHistory env jobId batch file 0 0 0 "Failed"
                 (Some parseFailure))%monad
              (fun _ => Ended) Broken) as Hrejected.
    { intros Hrej.
      apply spec_bind with
        (Q := fun _ => At (failedRow parseFailure None None)
                          (parsingTrace ++ [JobUpdated (statusUpdate error 0 parseFailure)])).
      { apply spec_updateJob; [now apply Live_rejected | reflexivity | reflexivity]. }
      intros _.
      apply spec_bind with
        (Q := fun _ => At (failedRow parseFailure None None)
                          ((parsingTrace ++
                            [JobUpdated (statusUpdate error 0 parseFailure)]) ++
                           [Audited (ANALYSIS_FAILED jobId parseFailure)])).
      { apply spec_emit. }
      intros _. eapply spec_post; [apply spec_recordSharePointHistory|].
      intros u w Hw. right. right. left. split; [exact Hrej|].
      unfold failureEvents. now rewrite <- !app_assoc in *. }
    unfold parseRejected, parseFailure in Hrejected.
    destruct (p_success (parseExcelFile env buffer)) eqn:Eok;
      [destruct (p_employees (parseExcelFile env buffer)) as [employees|] eqn:Eemp|].
    + assert (parsed env buffer employees) as Hp
        by (unfold parsed; now rewrite Eok, Eemp).
      eapply spec_post; [apply (analyzeAndWrite_spec employees Hp)|].
      intros u w [H|[e H]].
      * left. now exists employees.
      * right. left. now exists employees, e.
    + apply Hrejected. exact I.
    + apply Hrejected. exact I.
  - intros e. fold (unexpected e).
    intros w [[k [Hk Hf]] HL]. unfold bind, updateJob, statement.
    destruct (dbFault env (dbCalls w)) as [e2|] eqn:Ef.
    + split; [exact HL|]. exists k, (dbCalls w), e. now repeat split.
    + right. right. right. exists (job w), (trace w), k, e.
      split; [exact HL|]. split; [exact Hf|]. split; simpl.
      * reflexivity.
      * now rewrite <- app_assoc.
Qed.

(** Every run, from the row [createJob] inserted. *)
Lemma runJob_ending :
  match runJob env jobId now buffer batch file with
  | (inr _, w) => Ended w
  | (inl e, w) => Rejected e w
  end.
Proof.
  unfold runJob. apply processJob_spec. now split.
Qed.

End Run.
End Lifecycle.

(* ================================================================== *)
(** * The orchestrator: outcomes of a run *)
(* ================================================================== *)

Module Outcomes.
Import Storage Routes Hoare RoutesFacts Lifecycle.

Lemma nondecreasing_prefix (l1 l2 : list Z) : nondecreasing (l1 ++ l2) -> nondecreasing l1.
Proof.
  unfold nondecreasing. induction l1 as [|x l1 IH]; simpl; intros H; [constructor|].
  apply StronglySorted_inv in H. destruct H as [Hs Hx].
  constructor; [now apply IH|]. apply Forall_app in Hx. apply Hx.
Qed.

(** Every result is red or green, never both. *)
Lemma red_green_partition (rs : list AnalysisResult) :
  (List.length (filter isRed rs) + List.length (filter isGreen rs) = List.length rs)%nat.
Proof.
  induction rs as [|r rs IH]; simpl; [reflexivity|].
  unfold isRed, isGreen in *. destruct (aiRecommendation r); simpl; lia.
Qed.

(** The progress of a live job lies between 5 and 85. *)
Definition inLiveRange (p : Z) : Prop := (5 <= p <= 85)%Z.

(** Reads the fields of the rows a run ends with. *)
Ltac row_fields :=
  cbn [status progress message resultFileName results totalEmployees processedEmployees
       doneRow failedRow applyUpdate statusUpdate orKeep orKeepOpt
       u_status u_progress u_message u_resultFileName u_totalEmployees
       u_processedEmployees].

Section Run.
Context {F : Type} {arith : JsNumber F}.
Variable env : Env.
Variables jobId buffer batch file : string.
Variable now : nat.

Lemma Live_status (j : Job) (tr : list Event) :
  Live env jobId buffer batch j tr ->
  (status j = queued \/ status j = running)
  /\ status j = last (statusWrites tr) queued
  /\ (statusWrites tr = [] \/ statusWrites tr = [running]
      \/ statusWrites tr = [running; running]).
Proof.
  intros [[[Hs Hw]|[Hs [Hw|Hw]]] _]; rewrite Hs, Hw; simpl; tauto.
Qed.

(** What the outer [catch] leaves of a live job. *)
Lemma recovered_row (j : Job) (e : Exn) :
  let j' := applyUpdate (statusUpdate error 0 (unexpected e)) j in
  status j' = error /\ progress j' = 0%Z /\ message j' = Some (unexpected e)
  /\ resultFileName j' = resultFileName j /\ results j' = results j.
Proof.
  repeat split.
Qed.

Lemma recovered_trace (tr : list Event) (e : Exn) :
  let tr' := tr ++ [ JobUpdated (statusUpdate error 0 (unexpected e));
                     Audited (ANALYSIS_FAILED jobId (unexpected e)) ] in
  statusWrites tr' = statusWrites tr ++ [error]
  /\ progressWrites tr' = progressWrites tr ++ [0]%Z
  /\ terminalAudits tr' = terminalAudits tr ++ [ANALYSIS_FAILED jobId (unexpected e)]
  /\ historyItems tr' = historyItems tr.
Proof.
  simpl.
  rewrite statusWrites_app, progressWrites_app, terminalAudits_app, historyItems_app.
  simpl. now rewrite app_nil_r.
Qed.

(** An item that [recordSharePointHistory] got recorded. *)
Lemma recorded_In (total red green : nat) (st : string) (msg : option string)
  (item : RunHistoryItem) :
  In item (recorded env jobId batch file total red green st msg) ->
  item = historyItem jobId batch file total red green st msg.
Proof.
  unfold recorded. destruct (sharePoint env) as [create|]; [|intros []].
  destruct (create _); [intros [] | intros [<-|[]]; reflexivity].
Qed.

Lemma recorded_length (total red green : nat) (st : string) (msg : option string) :
  (List.length (recorded env jobId batch file total red green st msg) <= 1)%nat.
Proof.
  unfold recorded. destruct (sharePoint env) as [create|]; [|simpl; lia].
  destruct (create _); simpl; lia.
Qed.

Section Steady.
Hypothesis formula : steady arith.

Lemma liveProgress_sorted (n : nat) :
  safe n -> nondecreasing (liveProgress n) /\ Forall inLiveRange (liveProgress n).
Proof.
  intros Hn. split.
  - apply (nondecreasing_prefix _ [100]%Z).
    unfold liveProgress. rewrite <- !app_assoc. simpl.
    apply (progressSequence_nondecreasing formula n Hn).
  - unfold liveProgress. rewrite !Forall_app. repeat split.
    + repeat constructor; unfold inLiveRange; lia.
    + rewrite Forall_forall. intros p Hp. apply in_map_iff in Hp.
      destruct Hp as [i [<- Hi]]. apply in_seq in Hi.
      pose proof (progressAfter_lower formula i n ltac:(lia) Hn).
      pose proof (progressAfter_upper formula i n ltac:(lia) Hn).
      unfold inLiveRange. lia.
    + repeat constructor; unfold inLiveRange; lia.
Qed.

Lemma planned_sorted :
  (forall employees, parsed env buffer employees -> safe (List.length employees)) ->
  nondecreasing (planned env buffer) /\ Forall inLiveRange (planned env buffer).
Proof.
  intros Hsafe. unfold planned, parsed in *.
  destruct (p_success (parseExcelFile env buffer));
    [destruct (p_employees (parseExcelFile env buffer)) as [employees|]|].
  - apply liveProgress_sorted, Hsafe. now split.
  - split; repeat constructor; unfold inLiveRange; lia.
  - split; repeat constructor; unfold inLiveRange; lia.
Qed.

Lemma prefix_sorted (l rest : list Z) :
  nondecreasing (l ++ rest) /\ Forall inLiveRange (l ++ rest) ->
  nondecreasing l /\ Forall inLiveRange l.
Proof.
  intros [Hs Hr]. split; [now apply nondecreasing_prefix in Hs|].
  apply Forall_app in Hr. apply Hr.
Qed.

End Steady.
End Run.
End Outcomes.

Import Lifecycle Outcomes.

(** Some runs to look at: the database fails once, at its fourth
    statement; it fails at the third and fourth; the workbook is
    rejected by the parser. *)
Definition oneFaultEnv : Env :=
  {| parseExcelFile := parseExcelFile sampleEnv;
     llmProvider := llmProvider sampleEnv;
     dbFault := fun k => if (k =? 3)%nat then Some (ErrorObject "connection reset") else None;
     fsFault := None;
     cwd := "/srv/app";
     sharePoint := None |}.

Definition twoFaultsEnv : Env :=
  {| parseExcelFile := parseExcelFile sampleEnv;
     llmProvider := llmProvider sampleEnv;
     dbFault := fun k => if (k =? 2)%nat then Some (ErrorObject "connection reset")
                         else if (k =? 3)%nat then Some (ErrorObject "connection refused")
                         else None;
     fsFault := None;
     cwd := "/srv/app";
     sharePoint := None |}.

Definition rejectingEnv : Env :=
  {| parseExcelFile := fun _ =>
       {| p_success := false; p_employees := None;
          p_error := Some "No worksheet found in the Excel file" |};
     llmProvider := llmProvider sampleEnv;
     dbFault := fun _ => None;
     fsFault := None;
     cwd := "/srv/app";
     sharePoint := Some (fun _ => Some (ErrorObject "403 Forbidden")) |}.

Definition fullDiskEnv : Env :=
  {| parseExcelFile := parseExcelFile sampleEnv;
     llmProvider := llmProvider sampleEnv;
     dbFault := fun _ => None;
     fsFault := Some (ErrorObject "ENOSPC: no space left on device");
     cwd := "/srv/app";
     sharePoint := None |}.

Definition runOf (env : Env) : (Exn + unit) * World :=
  runJob (arith := ExactArith.exactNumber) env "job-1" 0 "xlsx" "2024-H1" "reviews.xlsx".

Definition worldOf (env : Env) : World :=
  finalWorld (arith := ExactArith.exactNumber) env "job-1" "xlsx" "2024-H1"
    "reviews.xlsx" 0.

(** When [processJob] resolves, the job is in a terminal status, [done]
    or [error].  It rejects only when two database statements threw, the
    second one being the update of its own [catch]; the job is then left
    [queued] or [running] and nothing will ever change that. *)
Theorem processJob_settles_or_rejects {F : Type} {arith : JsNumber F} (env : Env)
  (jobId buffer batch file : string) (now : nat) :
  match runJob env jobId now buffer batch file with
  | (inr _, w) => status (job w) = done \/ status (job w) = error
  | (inl e, w) =>
      (status (job w) = queued \/ status (job w) = running)
      /\ exists k1 k2 e1,
           (k1 < k2)%nat /\ dbFault env k1 = Some e1 /\ dbFault env k2 = Some e
  end.
Proof.
  pose proof (runJob_ending env jobId buffer batch file now) as H.
  destruct (runJob env jobId now buffer batch file) as [[e|u] w].
  - destruct H as [HL Hf]. split; [apply (Live_status _ _ _ _ _ _ HL) | exact Hf].
  - destruct H as [[employees [_ [_ [Hj _]]]]|[[employees [e [_ [_ [Hj _]]]]]
                   |[[_ [Hj _]]|[j [tr [k [e [_ [_ [Hj _]]]]]]]]]];
      rewrite Hj; [now left | now right | now right | now right].
Qed.

(** Both cases occur: one database failure is recorded on the row, two
    leave the job running. *)
Example processJob_settles_or_rejects_cases :
  fst (runOf oneFaultEnv) = inr tt
  /\ status (job (snd (runOf oneFaultEnv))) = error
  /\ message (job (snd (runOf oneFaultEnv))) = Some "connection reset"
  /\ fst (runOf twoFaultsEnv) = inl (ErrorObject "connection refused")
  /\ status (job (snd (runOf twoFaultsEnv))) = running.
Proof.
  vm_compute. repeat split.
Qed.

(** The statuses written to the row are [running] at most twice and then
    at most one terminal status, which is the last write; [done] is only
    written after both [running] writes.  The status of the row is the
    last one written, or [queued] when nothing was written. *)
Theorem status_written_in_order {F : Type} {arith : JsNumber F} (env : Env)
  (jobId buffer batch file : string) (now : nat) :
  let w := finalWorld env jobId buffer batch file now in
  exists live terminal,
    statusWrites (trace w) = live ++ terminal
    /\ (live = [] \/ live = [running] \/ live = [running; running])
    /\ (terminal = [] \/ terminal = [error]
        \/ (terminal = [done] /\ live = [running; running]))
    /\ status (job w) = last (statusWrites (trace w)) queued.
Proof.
  intros w. subst w. unfold finalWorld.
  pose proof (runJob_ending env jobId buffer batch file now) as H.
  destruct (runJob env jobId now buffer batch file) as [[e|u] w]; simpl.
  - destruct H as [HL _]. apply Live_status in HL. destruct HL as [_ [Hs Hw]].
    exists (statusWrites (trace w)), []. rewrite app_nil_r. tauto.
  - destruct H as [[employees [_ [_ [Hj Ht]]]]|[[employees [e [_ [_ [Hj Ht]]]]]
                   |[[_ [Hj Ht]]|[j [tr [k [e [HL [_ [Hj Ht]]]]]]]]]];
      rewrite Hj, Ht.
    + exists [running; running], [done]. rewrite statusWrites_doneTrace.
      repeat split; tauto.
    + exists [running; running], [error]. unfold writeFailedTrace.
      rewrite Hoare.statusWrites_app, statusWrites_generatingTrace, statusWrites_failureEvents.
      repeat split; tauto.
    + exists [running], [error].
      rewrite Hoare.statusWrites_app, statusWrites_failureEvents.
      repeat split; tauto.
    + apply Live_status in HL. destruct HL as [_ [_ Hw]].
      exists (statusWrites tr), [error].
      destruct (recovered_trace jobId tr e) as [-> _].
      rewrite last_last. repeat split; tauto.
Qed.

(** A job that ends in [error] has progress 0, a message and no result
    file name.  The message is the parser's (or the fixed fallback) when
    the parse was rejected, the writer's when the workbook could not be
    written, and otherwise that of an exception thrown by a database
    statement; in the first two cases no results are stored. *)
Theorem failed_job_row {F : Type} {arith : JsNumber F} (env : Env)
  (jobId buffer batch file : string) (now : nat) :
  let w := finalWorld env jobId buffer batch file now in
  status (job w) = error ->
  progress (job w) = 0%Z
  /\ resultFileName (job w) = None
  /\ exists msg,
       message (job w) = Some msg
       /\ ((parseRejected env buffer /\ results (job w) = None
            /\ msg = Js.orElse (p_error (parseExcelFile env buffer))
                       "Failed to parse Excel file")
           \/ (exists e, fsFault env = Some e /\ results (job w) = None
                 /\ msg = ("Failed to generate results Excel: " ++
                           errorMessageOr e "Unknown error")%string)
           \/ (exists k e, dbFault env k = Some e
                 /\ msg = errorMessageOr e "An unexpected error occurred")).
Proof.
  intros w. subst w. unfold finalWorld.
  pose proof (runJob_ending env jobId buffer batch file now) as H.
  destruct (runJob env jobId now buffer batch file) as [[e|u] w]; simpl.
  - destruct H as [HL _]. apply Live_status in HL. destruct HL as [[Hs|Hs] _];
      rewrite Hs; discriminate.
  - destruct H as [[employees [_ [_ [Hj Ht]]]]|[[employees [e [_ [Hfs [Hj Ht]]]]]
                   |[[Hrej [Hj Ht]]|[j [tr [k [e [HL [Hf [Hj Ht]]]]]]]]]];
      rewrite Hj; row_fields; intros Hs; try discriminate Hs.
    + split; [reflexivity|]. split; [reflexivity|].
      eexists. split; [reflexivity|]. right. left. now exists e.
    + split; [reflexivity|]. split; [reflexivity|].
      eexists. split; [reflexivity|]. now left.
    + destruct HL as [_ [_ [Hn _]]]. split; [reflexivity|]. split; [exact Hn|].
      eexists. split; [reflexivity|]. right. right. now exists k, e.
Qed.

Lemma failed_job_row_witness :
  let w := worldOf fullDiskEnv in
  progress (job w) = 0%Z
  /\ resultFileName (job w) = None
  /\ exists msg,
       message (job w) = Some msg
       /\ ((parseRejected fullDiskEnv "xlsx" /\ results (job w) = None
            /\ msg = Js.orElse (p_error (parseExcelFile fullDiskEnv "xlsx"))
                       "Failed to parse Excel file")
           \/ (exists e, fsFault fullDiskEnv = Some e /\ results (job w) = None
                 /\ msg = ("Failed to generate results Excel: " ++
                           errorMessageOr e "Unknown error")%string)
           \/ (exists k e, dbFault fullDiskEnv k = Some e
                 /\ msg = errorMessageOr e "An unexpected error occurred")).
Proof.
  apply (failed_job_row (arith := ExactArith.exactNumber) fullDiskEnv
           "job-1" "xlsx" "2024-H1" "reviews.xlsx" 0).
  vm_compute. reflexivity.
Defined.

(** In every run, the values of [progress] written before the terminal
    update never decrease and lie between 5 and 85; the terminal update
    writes 100 for [done] and 0 for [error], so a failure takes the
    progress back to 0.  The arithmetic is binary64; the number of
    records is a safe integer. *)
Theorem progress_until_terminal (env : Env)
  (jobId buffer batch file : string) (now : nat) :
  (forall employees, parsed env buffer employees -> safe (List.length employees)) ->
  let w := finalWorld (arith := Binary64.binary64) env jobId buffer batch file now in
  exists live terminal,
    progressWrites (trace w) = live ++ terminal
    /\ nondecreasing live
    /\ Forall inLiveRange live
    /\ terminal = match status (job w) with
                  | done => [100]%Z
                  | error => [0]%Z
                  | _ => []
                  end.
Proof.
  intros Hsafe w. subst w. unfold finalWorld.
  pose proof (planned_sorted env buffer binary64_steady Hsafe) as Hplan.
  pose proof (runJob_ending (arith := Binary64.binary64) env jobId buffer batch file now)
    as H.
  destruct (runJob env jobId now buffer batch file) as [[e|u] w]; simpl.
  - destruct H as [HL _]. pose proof (Live_status _ _ _ _ _ _ HL) as [Hs _].
    destruct HL as [_ [[rest Hp] _]]. rewrite Hp in Hplan.
    apply prefix_sorted in Hplan.
    exists (progressWrites (trace w)), []. rewrite app_nil_r.
    repeat split; try apply Hplan.
    destruct Hs as [-> | ->]; reflexivity.
  - destruct H as [[employees [Hp [_ [Hj Ht]]]]|[[employees [e [Hp [_ [Hj Ht]]]]]
                   |[[Hrej [Hj Ht]]|[j [tr [k [e [HL [_ [Hj Ht]]]]]]]]]];
      rewrite Hj, Ht.
    + exists (liveProgress (arith := Binary64.binary64) (List.length employees)), [100]%Z.
      rewrite progressWrites_doneTrace.
      rewrite (planned_accepted env buffer employees Hp) in Hplan.
      repeat split; apply Hplan.
    + exists (liveProgress (arith := Binary64.binary64) (List.length employees)), [0]%Z.
      unfold writeFailedTrace.
      rewrite Hoare.progressWrites_app, progressWrites_generatingTrace,
        progressWrites_failureEvents.
      rewrite (planned_accepted env buffer employees Hp) in Hplan.
      repeat split; apply Hplan.
    + exists [5]%Z, [0]%Z.
      rewrite Hoare.progressWrites_app, progressWrites_failureEvents.
      repeat split; repeat constructor; unfold inLiveRange; lia.
    + destruct HL as [_ [[rest Hp] _]]. rewrite Hp in Hplan.
      apply prefix_sorted in Hplan.
      exists (progressWrites tr), [0]%Z.
      destruct (recovered_trace jobId tr e) as [_ [-> _]].
      repeat split; apply Hplan.
Qed.

Lemma progress_until_terminal_witness :
  let w := finalWorld (arith := Binary64.binary64) oneFaultEnv "job-1" "xlsx" "2024-H1"
             "reviews.xlsx" 0 in
  exists live terminal,
    progressWrites (trace w) = live ++ terminal
    /\ nondecreasing live
    /\ Forall inLiveRange live
    /\ terminal = match status (job w) with
                  | done => [100]%Z
                  | error => [0]%Z
                  | _ => []
                  end.
Proof.
  apply (progress_until_terminal oneFaultEnv
           "job-1" "xlsx" "2024-H1" "reviews.xlsx" 0).
  intros employees [_ H]. injection H as <-. vm_compute. reflexivity.
Defined.

(** Results are stored only for a whole batch and only after the
    workbook holding them was written: whenever the row has results, in
    whatever status, they are the results of all parsed records in
    order, and the trace has the write of the workbook made of exactly
    these results. *)
Theorem stored_results_have_workbook {F : Type} {arith : JsNumber F} (env : Env)
  (jobId buffer batch file : string) (now : nat) (rs : list AnalysisResult) :
  let w := finalWorld env jobId buffer batch file now in
  results (job w) = Some rs ->
  exists employees,
    parsed env buffer employees
    /\ rs = map (analyzeOrFail env) employees
    /\ fsFault env = None
    /\ In (FileWritten
             (Path.join [Path.join [cwd env; "tmp"];
                         ("analysis-results-" ++ jobId ++ ".xlsx")%string])
             (Writer.resultsWorksheet batch rs)) (trace w).
Proof.
  intros w. subst w. unfold finalWorld.
  pose proof (runJob_ending env jobId buffer batch file now) as H.
  destruct (runJob env jobId now buffer batch file) as [[e|u] w]; simpl.
  - destruct H as [[_ [_ [_ [Hk _]]]] _]. exact (Hk rs).
  - destruct H as [[employees [Hp [Hfs [Hj Ht]]]]|[[employees [e [_ [_ [Hj Ht]]]]]
                   |[[_ [Hj Ht]]|[j [tr [k [e [HL [_ [Hj Ht]]]]]]]]]];
      rewrite Hj, Ht; row_fields; intros Hr; try discriminate Hr.
    + injection Hr as <-. exists employees.
      split; [exact Hp|]. split; [reflexivity|]. split; [exact Hfs|].
      unfold doneTrace. apply in_or_app. left.
      destruct (Kept_stored env jobId buffer batch employees Hp Hfs)
        as [es [_ [_ [_ Hin]]]].
      exact Hin.
    + destruct HL as [_ [_ [_ [Hk _]]]].
      destruct (Hk rs Hr) as [employees [Hp [Hrs [Hfs Hin]]]].
      exists employees.
      split; [exact Hp|]. split; [exact Hrs|]. split; [exact Hfs|].
      apply in_or_app. now left.
Qed.

Lemma stored_results_have_workbook_witness :
  exists employees,
    parsed sampleEnv "xlsx" employees
    /\ map (analyzeOrFail sampleEnv) sampleEmployees = map (analyzeOrFail sampleEnv) employees
    /\ fsFault sampleEnv = None
    /\ In (FileWritten
             (Path.join [Path.join [cwd sampleEnv; "tmp"];
                         ("analysis-results-" ++ "job-1" ++ ".xlsx")%string])
             (Writer.resultsWorksheet "2024-H1" (map (analyzeOrFail sampleEnv) sampleEmployees)))
          (trace sampleWorld).
Proof.
  apply (stored_results_have_workbook (arith := ExactArith.exactNumber) sampleEnv
           "job-1" "xlsx" "2024-H1" "reviews.xlsx" 0
           (map (analyzeOrFail sampleEnv) sampleEmployees)).
  vm_compute. reflexivity.
Defined.

(** The audit trail agrees with the row.  A [done] job has exactly one
    closing audit event, ANALYSIS_COMPLETED, whose counts are those of
    the stored results: every result is counted once, as red or as
    green.  An [error] job has exactly one, ANALYSIS_FAILED, with the
    message of the row.  A job left live has none. *)
Theorem audit_agrees_with_status {F : Type} {arith : JsNumber F} (env : Env)
  (jobId buffer batch file : string) (now : nat) :
  let w := finalWorld env jobId buffer batch file now in
  match status (job w) with
  | done =>
      exists rs,
        results (job w) = Some rs
        /\ terminalAudits (trace w) =
             [ ANALYSIS_COMPLETED jobId (List.length rs)
                 (List.length (filter isRed rs)) (List.length (filter isGreen rs)) ]
        /\ (List.length (filter isRed rs) + List.length (filter isGreen rs)
            = List.length rs)%nat
  | error =>
      exists msg,
        message (job w) = Some msg
        /\ terminalAudits (trace w) = [ ANALYSIS_FAILED jobId msg ]
  | _ => terminalAudits (trace w) = []
  end.
Proof.
  intros w. subst w. unfold finalWorld.
  pose proof (runJob_ending env jobId buffer batch file now) as H.
  destruct (runJob env jobId now buffer batch file) as [[e|u] w]; simpl.
  - destruct H as [HL _]. pose proof (Live_status _ _ _ _ _ _ HL) as [Hs _].
    destruct HL as [_ [_ [_ [_ [Ha _]]]]].
    destruct Hs as [-> | ->]; exact Ha.
  - destruct H as [[employees [Hp [Hfs [Hj Ht]]]]|[[employees [e [_ [_ [Hj Ht]]]]]
                   |[[_ [Hj Ht]]|[j [tr [k [e [HL [_ [Hj Ht]]]]]]]]]];
      rewrite Hj, Ht; row_fields.
    + exists (analysed env employees). split; [reflexivity|].
      rewrite terminalAudits_doneTrace. unfold analysed. rewrite length_map.
      split; [reflexivity|].
      rewrite <- (length_map (analyzeOrFail env) employees).
      apply red_green_partition.
    + eexists. split; [reflexivity|]. unfold writeFailedTrace.
      now rewrite terminalAudits_app, terminalAudits_generatingTrace,
        terminalAudits_failureEvents.
    + eexists. split; [reflexivity|].
      now rewrite terminalAudits_app, terminalAudits_failureEvents.
    + eexists. split; [reflexivity|].
      destruct (recovered_trace jobId tr e) as [_ [_ [-> _]]].
      destruct HL as [_ [_ [_ [_ [-> _]]]]]. reflexivity.
Qed.

(** What reaches the SharePoint run history agrees with the row.  A run
    records at most one item.  The item names the job, its batch, the
    uploaded file and the download link; for a [done] job it says
    Completed, without an error message, with the counts of the stored
    results; for an [error] job it says Failed, with the message of the
    row and no red or green count.  A Failed item is recorded only for a
    failure that [processJob] detected itself, a rejected parse or an
    unwritable workbook: a failure caught by the outer [catch] records
    nothing. *)
Theorem history_item_agrees_with_row {F : Type} {arith : JsNumber F} (env : Env)
  (jobId buffer batch file : string) (now : nat) :
  let w := finalWorld env jobId buffer batch file now in
  (List.length (historyItems (trace w)) <= 1)%nat
  /\ (forall item, In item (historyItems (trace w)) ->
        h_runId item = jobId /\ h_reviewBatch item = batch /\ h_fileName item = file
        /\ h_outputFileUrl item = ("/api/jobs/" ++ jobId ++ "/download")%string
        /\ match status (job w) with
           | done =>
               h_status item = "Completed" /\ h_errorMessage item = None
               /\ totalEmployees (job w) = Some (h_totalEmployees item)
               /\ exists rs,
                    results (job w) = Some rs
                    /\ h_totalEmployees item = List.length rs
                    /\ h_redCount item = List.length (filter isRed rs)
                    /\ h_greenCount item = List.length (filter isGreen rs)
           | error =>
               h_status item = "Failed" /\ h_errorMessage item = message (job w)
               /\ h_redCount item = 0%nat /\ h_greenCount item = 0%nat
               /\ results (job w) = None
               /\ (parseRejected env buffer \/ fsFault env <> None)
           | _ => False
           end).
Proof.
  intros w. subst w. unfold finalWorld.
  pose proof (runJob_ending env jobId buffer batch file now) as H.
  destruct (runJob env jobId now buffer batch file) as [[e|u] w]; simpl.
  - destruct H as [[_ [_ [_ [_ [_ Hh]]]]] _]. rewrite Hh. simpl.
    split; [lia | intros item []].
  - destruct H as [[employees [Hp [Hfs [Hj Ht]]]]|[[employees [e [_ [Hfs [Hj Ht]]]]]
                   |[[Hrej [Hj Ht]]|[j [tr [k [e [HL [_ [Hj Ht]]]]]]]]]];
      rewrite Hj, Ht.
    + rewrite historyItems_doneTrace. split; [apply recorded_length|].
      intros item Hin. apply recorded_In in Hin. subst item. row_fields.
      repeat split. exists (analysed env employees). unfold analysed.
      rewrite length_map. repeat split.
    + unfold writeFailedTrace.
      rewrite historyItems_app, historyItems_generatingTrace, historyItems_failureEvents.
      split; [apply recorded_length|].
      intros item Hin. apply recorded_In in Hin. subst item. row_fields.
      repeat split. right. rewrite Hfs. discriminate.
    + rewrite historyItems_app, historyItems_failureEvents.
      split; [apply recorded_length|].
      intros item Hin. apply recorded_In in Hin. subst item. row_fields.
      repeat split. now left.
    + destruct (recovered_trace jobId tr e) as [_ [_ [_ ->]]].
      destruct HL as [_ [_ [_ [_ [_ ->]]]]]. simpl.
      split; [lia | intros item []].
Qed.

(** The item recorded for the run of [sampleEnv]. *)
Example history_item_of_sample_run :
  historyItems (trace sampleWorld) =
  [ {| h_reviewBatch := "2024-H1"; h_runId := "job-1"; h_submittedBy := "System";
       h_fileName := "reviews.xlsx"; h_totalEmployees := 3;
       h_redCount := 2; h_greenCount := 1; h_status := "Completed";
       h_outputFileUrl := "/api/jobs/job-1/download"; h_errorMessage := None |} ].
Proof.
  vm_compute. reflexivity.
Qed.

(* ================================================================== *)
(** * The orchestrator: SharePoint cannot change the outcome *)
(* ================================================================== *)

Module Independence.
Import Storage Routes.

(** The same collaborators, with another SharePoint. *)
Definition withSharePoint (sp : option (RunHistoryItem -> option Exn)) (env : Env) : Env :=
  {| parseExcelFile := parseExcelFile env;
     llmProvider := llmProvider env;
     dbFault := dbFault env;
     fsFault := fsFault env;
     cwd := cwd env;
     sharePoint := sp |}.

(** The events of [recordSharePointHistory]. *)
Definition sharePointEvent (ev : Event) : bool :=
  match ev with
  | HistoryRecorded _ => true
  | Audited (SHAREPOINT_WRITE_SUCCESS _) => true
  | Audited (SHAREPOINT_WRITE_FAILED _ _) => true
  | _ => false
  end.

Definition withoutSharePoint (tr : list Event) : list Event :=
  filter (fun ev => negb (sharePointEvent ev)) tr.

(** Two worlds that differ in SharePoint events only. *)
Definition alike (w1 w2 : World) : Prop :=
  job w1 = job w2 /\ dbCalls w1 = dbCalls w2
  /\ withoutSharePoint (trace w1) = withoutSharePoint (trace w2).

(** From alike worlds, [m1] and [m2] return or throw the same value and
    end in alike worlds. *)
Definition sim {A} (m1 m2 : M A) : Prop :=
  forall w1 w2, alike w1 w2 ->
    fst (m1 w1) = fst (m2 w2) /\ alike (snd (m1 w1)) (snd (m2 w2)).

Lemma withoutSharePoint_app (t1 t2 : list Event) :
  withoutSharePoint (t1 ++ t2) = withoutSharePoint t1 ++ withoutSharePoint t2.
Proof.
  apply filter_app.
Qed.

Lemma sim_ret {A} (a : A) : sim (ret a) (ret a).
Proof.
  intros w1 w2 H. now split.
Qed.

Lemma sim_bind {A B} (m1 m2 : M A) (k1 k2 : A -> M B) :
  sim m1 m2 -> (forall a, sim (k1 a) (k2 a)) -> sim (bind m1 k1) (bind m2 k2).
Proof.
  intros Hm Hk w1 w2 H. unfold bind. specialize (Hm w1 w2 H). revert Hm.
  destruct (m1 w1) as [[e1|a1] w1'], (m2 w2) as [[e2|a2] w2']; simpl;
    intros [Hr Hw]; try discriminate Hr.
  - injection Hr as ->. now split.
  - injection Hr as <-. now apply Hk.
Qed.

Lemma sim_tryCatch {A} (b1 b2 : M A) (h1 h2 : Exn -> M A) :
  sim b1 b2 -> (forall e, sim (h1 e) (h2 e)) -> sim (tryCatch b1 h1) (tryCatch b2 h2).
Proof.
  intros Hb Hh w1 w2 H. unfold tryCatch. specialize (Hb w1 w2 H). revert Hb.
  destruct (b1 w1) as [[e1|a1] w1'], (b2 w2) as [[e2|a2] w2']; simpl;
    intros [Hr Hw]; try discriminate Hr.
  - injection Hr as <-. now apply Hh.
  - split; assumption.
Qed.

Lemma sim_emit (ev : Event) : sim (emit ev) (emit ev).
Proof.
  intros w1 w2 [Hj [Hc Ht]]. split; [reflexivity|]. unfold alike. simpl.
  now rewrite !withoutSharePoint_app, Ht.
Qed.

Section Run.
Context {F : Type} {arith : JsNumber F}.
Variable env : Env.
Variable sp : option (RunHistoryItem -> option Exn).
Variables jobId buffer batch file : string.

Let env' : Env := withSharePoint sp env.

Lemma sim_statement (change : Job -> Job) (ev : Event) :
  sim (statement env' change ev) (statement env change ev).
Proof.
  intros w1 w2 [Hj [Hc Ht]]. unfold statement, alike. cbn [dbFault env' withSharePoint].
  rewrite Hc. destruct (dbFault env (dbCalls w2)) as [e|]; simpl.
  - now rewrite Hj.
  - now rewrite !withoutSharePoint_app, Hj, Ht.
Qed.

Lemma sim_updateJob (updates : JobUpdate) :
  sim (updateJob env' updates) (updateJob env updates).
Proof.
  apply sim_statement.
Qed.

Lemma withoutSharePoint_sharePointEvents (e : Env) total red green st msg :
  withoutSharePoint (Lifecycle.sharePointEvents e jobId batch file total red green st msg)
  = [].
Proof.
  unfold Lifecycle.sharePointEvents. destruct (sharePoint e) as [create|]; [|reflexivity].
  destruct (create _); reflexivity.
Qed.

(** Whatever the two SharePoints do, the call returns and the worlds
    stay alike. *)
Lemma sim_recordSharePointHistory total red green st msg :
  sim (recordSharePointHistory env' jobId batch file total red green st msg)
      (recordSharePointHistory env jobId batch file total red green st msg).
Proof.
  intros w1 w2 [Hj [Hc Ht]]. rewrite !Lifecycle.recordSharePointHistory_run.
  split; [reflexivity|]. unfold alike. simpl.
  now rewrite !withoutSharePoint_app, !withoutSharePoint_sharePointEvents, Ht.
Qed.

Lemma sim_generateResultsExcel (rs : list AnalysisResult) :
  sim (Writer.generateResultsExcel env' batch rs jobId)
      (Writer.generateResultsExcel env batch rs jobId).
Proof.
  unfold Writer.generateResultsExcel. cbn [fsFault cwd env' withSharePoint].
  apply sim_tryCatch; [|intros e; apply sim_ret].
  destruct (fsFault env) as [e|].
  - intros w1 w2 H. now split.
  - apply sim_bind; [apply sim_emit | intros _; apply sim_ret].
Qed.

Lemma sim_analyzeFrom (n : nat) (pending : list EmployeeData) :
  forall (i : nat) (acc : list AnalysisResult),
  sim (analyzeFrom env' n i pending acc) (analyzeFrom env n i pending acc).
Proof.
  induction pending as [|employee rest IH]; intros i acc; simpl.
  - apply sim_ret.
  - apply sim_bind; [apply sim_updateJob | intros _; apply IH].
Qed.

Lemma sim_analyzeAndWrite (employees : list EmployeeData) :
  sim (analyzeAndWrite env' jobId batch file employees)
      (analyzeAndWrite env jobId batch file employees).
Proof.
  unfold analyzeAndWrite.
  apply sim_bind; [apply sim_updateJob | intros _].
  apply sim_bind; [apply sim_analyzeFrom | intros rs].
  apply sim_bind; [apply sim_updateJob | intros _].
  apply sim_bind; [apply sim_generateResultsExcel | intros wr].
  destruct (negb (Writer.success wr)).
  - apply sim_bind; [apply sim_updateJob | intros _].
    apply sim_bind; [apply sim_emit | intros _].
    apply sim_recordSharePointHistory.
  - apply sim_bind; [apply sim_statement | intros _].
    apply sim_bind; [apply sim_updateJob | intros _].
    apply sim_bind; [apply sim_emit | intros _].
    apply sim_recordSharePointHistory.
Qed.

Lemma sim_processJob :
  sim (processJob env' jobId buffer batch file) (processJob env jobId buffer batch file).
Proof.
  unfold processJob. cbn [parseExcelFile env' withSharePoint].
  apply sim_tryCatch.
  - apply sim_bind; [apply sim_emit | intros _].
    apply sim_bind; [apply sim_updateJob | intros _].
    destruct (p_success (parseExcelFile env buffer));
      [destruct (p_employees (parseExcelFile env buffer)) as [employees|]|].
    + apply sim_analyzeAndWrite.
    + apply sim_bind; [apply sim_updateJob | intros _].
      apply sim_bind; [apply sim_emit | intros _].
      apply sim_recordSharePointHistory.
    + apply sim_bind; [apply sim_updateJob | intros _].
      apply sim_bind; [apply sim_emit | intros _].
      apply sim_recordSharePointHistory.
  - intros e.
    apply sim_bind; [apply sim_updateJob | intros _]. apply sim_emit.
Qed.

End Run.
End Independence.

Import Independence.

(** SharePoint cannot change the outcome of a run.  With any other
    SharePoint in place of the configured one (none, one that accepts
    every item, one that throws), [processJob] resolves or rejects with
    the same value, leaves the same row, sends the same number of
    statements to the database, and leaves the same trace up to the
    events of [recordSharePointHistory] itself. *)
Theorem sharePoint_cannot_change_the_outcome {F : Type} {arith : JsNumber F} (env : Env)
  (sp : option (RunHistoryItem -> option Exn))
  (jobId buffer batch file : string) (now : nat) :
  let r := runJob env jobId now buffer batch file in
  let r' := runJob (withSharePoint sp env) jobId now buffer batch file in
  fst r' = fst r
  /\ job (snd r') = job (snd r)
  /\ dbCalls (snd r') = dbCalls (snd r)
  /\ withoutSharePoint (trace (snd r')) = withoutSharePoint (trace (snd r)).
Proof.
  intros r r'. subst r r'. unfold runJob.
  apply (sim_processJob env sp jobId buffer batch file). repeat split.
Qed.

(** The run of [rejectingEnv], whose SharePoint throws, next to the
    same run without SharePoint: the trace differs by one audit event. *)
Example sharePoint_failure_is_logged_only :
  let w := worldOf rejectingEnv in
  let w' := worldOf (withSharePoint None rejectingEnv) in
  job w = job w'
  /\ trace w = trace w' ++ [ Audited (SHAREPOINT_WRITE_FAILED "job-1" "403 Forbidden") ].
Proof.
  vm_compute. split; reflexivity.
Qed.

(* ================================================================== *)
(** * From the workbook to the download *)
(* ================================================================== *)

Module Pipeline.
Import Storage Routes RoutesFacts Lifecycle.

(** The loop of [getStats] adds to its two counters. *)
Lemma tally_from (completed : list Job) (a r : nat) :
  JobTable.tally completed a r =
  ((a + fst (JobTable.tally completed 0 0))%nat,
   (r + snd (JobTable.tally completed 0 0))%nat).
Proof.
  revert a r. induction completed as [|j rest IH]; intros a r; simpl.
  - now rewrite !Nat.add_0_r.
  - destruct (results j) as [rs|].
    + rewrite (IH (a + _)%nat), (IH (List.length rs)).
      simpl. now rewrite !Nat.add_assoc.
    + apply IH.
Qed.

Lemma tally_bound (completed : list Job) :
  (snd (JobTable.tally completed 0 0) <= fst (JobTable.tally completed 0 0))%nat.
Proof.
  induction completed as [|j rest IH]; simpl; [lia|].
  destruct (results j) as [rs|]; [|exact IH].
  rewrite tally_from. simpl.
  pose proof (filter_length_le isRed rs). lia.
Qed.

(** What a row adds to the statistics. *)
Definition contribution (j : Job) : JobTable.JobStats :=
  match status j, results j with
  | done, Some rs =>
      {| JobTable.totalAnalyzed := List.length rs;
         JobTable.totalRedFlags := List.length (filter isRed rs);
         JobTable.completedJobs := 1 |}
  | done, None =>
      {| JobTable.totalAnalyzed := 0; JobTable.totalRedFlags := 0;
         JobTable.completedJobs := 1 |}
  | _, _ =>
      {| JobTable.totalAnalyzed := 0; JobTable.totalRedFlags := 0;
         JobTable.completedJobs := 0 |}
  end.

Definition plus (s t : JobTable.JobStats) : JobTable.JobStats :=
  {| JobTable.totalAnalyzed := JobTable.totalAnalyzed s + JobTable.totalAnalyzed t;
     JobTable.totalRedFlags := JobTable.totalRedFlags s + JobTable.totalRedFlags t;
     JobTable.completedJobs := JobTable.completedJobs s + JobTable.completedJobs t |}.

Lemma getStats_cons (j : Job) (table : list Job) :
  JobTable.getStats (j :: table) = plus (contribution j) (JobTable.getStats table).
Proof.
  unfold JobTable.getStats, contribution, plus, JobTable.isDone. simpl.
  destruct (status j); simpl; try reflexivity.
  destruct (results j) as [rs|]; simpl; [|reflexivity].
  rewrite tally_from. reflexivity.
Qed.

(** The environments of the deployed service: the workbook parser and
    the rule engine are the collaborators. *)
Definition deployed (load : string -> Exn + list Parser.Sheet) (env : Env) : Prop :=
  (forall buffer, parseExcelFile env buffer = Parser.parseExcelFile load buffer)
  /\ (forall employee, llmProvider env employee = inr (Provider.analyze employee)).

Definition healthy (env : Env) : Prop :=
  (forall k, dbFault env k = None) /\ fsFault env = None.

Lemma analysed_deployed (load : string -> Exn + list Parser.Sheet) (env : Env)
  (employees : list EmployeeData) :
  deployed load env -> analysed env employees = map Provider.analyze employees.
Proof.
  intros [_ Hllm]. unfold analysed. apply map_ext. intros e.
  unfold analyzeOrFail. now rewrite Hllm.
Qed.

End Pipeline.

Import Pipeline.

(** The job of a run that ended [done] can be downloaded: given the row
    and a disk that still holds what the run wrote, the handler sends
    the file named on the row, from the path the writer wrote it to, and
    that file is the workbook of the results stored on the row. *)
Theorem done_job_is_downloadable {F : Type} {arith : JsNumber F} (env : Env)
  (jobId buffer batch file : string) (now : nat) (existsSync : string -> bool) :
  let w := finalWorld env jobId buffer batch file now in
  status (job w) = done ->
  (forall path sheet, In (FileWritten path sheet) (trace w) -> existsSync path = true) ->
  exists name rs,
    resultFileName (job w) = Some name
    /\ results (job w) = Some rs
    /\ In (FileWritten (Path.join [cwd env; "tmp"; name])
             (Writer.resultsWorksheet batch rs)) (trace w)
    /\ Api.download (fun _ => inr (Some (job w))) (cwd env) existsSync jobId
       = Api.Attachment (Path.join [cwd env; "tmp"; name]) name.
Proof.
  intros w. subst w. unfold finalWorld.
  pose proof (runJob_ending env jobId buffer batch file now) as H.
  destruct (runJob env jobId now buffer batch file) as [[e|u] w]; simpl.
  - destruct H as [HL _]. apply Live_status in HL. destruct HL as [[Hs|Hs] _];
      rewrite Hs; discriminate.
  - destruct H as [[employees [Hp [Hfs [Hj Ht]]]]|[[employees [e [_ [_ [Hj Ht]]]]]
                   |[[_ [Hj Ht]]|[j [tr [k [e [HL [_ [Hj Ht]]]]]]]]]];
      intros Hs; rewrite Hj in Hs; try discriminate Hs.
    intros Hdisk.
    destruct (Kept_stored env jobId buffer batch employees Hp Hfs)
      as [es [_ [_ [_ Hin]]]].
    assert (In (FileWritten (workbookPath env jobId)
                  (Writer.resultsWorksheet batch (analysed env employees))) (trace w))
      as Hw by (rewrite Ht; unfold doneTrace; apply in_or_app; now left).
    unfold workbookPath in Hw.
    rewrite PathFacts.join_in_steps in Hw by discriminate.
    exists (workbookName jobId), (analysed env employees).
    split; [now rewrite Hj|]. split; [now rewrite Hj|]. split; [exact Hw|].
    unfold Api.download. rewrite Hj. cbn [status resultFileName doneRow].
    change (Some (workbookName jobId))
      with (Some (String "a" ("nalysis-results-" ++ jobId ++ ".xlsx"))).
    cbv iota beta.
    change (String "a" ("nalysis-results-" ++ jobId ++ ".xlsx")) with (workbookName jobId).
    rewrite (Hdisk _ _ Hw). reflexivity.
Qed.

Lemma done_job_is_downloadable_witness :
  exists name rs,
    resultFileName (job sampleWorld) = Some name
    /\ results (job sampleWorld) = Some rs
    /\ In (FileWritten (Path.join [cwd sampleEnv; "tmp"; name])
             (Writer.resultsWorksheet "2024-H1" rs)) (trace sampleWorld)
    /\ Api.download (fun _ => inr (Some (job sampleWorld))) (cwd sampleEnv)
         (fun _ => true) "job-1"
       = Api.Attachment (Path.join [cwd sampleEnv; "tmp"; name]) name.
Proof.
  apply (done_job_is_downloadable (arith := ExactArith.exactNumber) sampleEnv
           "job-1" "xlsx" "2024-H1" "reviews.xlsx" 0 (fun _ => true)).
  - vm_compute. reflexivity.
  - reflexivity.
Defined.

(** In the statistics, red flags never outnumber the analysed records
    and completed jobs never outnumber the rows; and a row counts only
    once its status is [done]: a row in any other status, with or
    without stored results, changes nothing. *)
Theorem stats_count_done_rows_only (j : Job) (table : list Job) :
  (JobTable.totalRedFlags (JobTable.getStats table)
   <= JobTable.totalAnalyzed (JobTable.getStats table))%nat
  /\ (JobTable.completedJobs (JobTable.getStats table) <= List.length table)%nat
  /\ match status j with
     | done =>
         JobTable.completedJobs (JobTable.getStats (j :: table))
         = S (JobTable.completedJobs (JobTable.getStats table))
     | _ => JobTable.getStats (j :: table) = JobTable.getStats table
     end.
Proof.
  split; [|split].
  - apply tally_bound.
  - apply filter_length_le.
  - rewrite getStats_cons. unfold contribution.
    destruct (status j); try (now destruct (JobTable.getStats table)).
    now destruct (results j).
Qed.

(** What a run adds to the statistics.  The row it leaves adds nothing
    unless the run ended [done]; then it adds one completed job, one
    analysed record per parsed employee, and as red flags the red count
    of the run's ANALYSIS_COMPLETED audit event. *)
Theorem stats_of_a_run {F : Type} {arith : JsNumber F} (env : Env)
  (jobId buffer batch file : string) (now : nat) (table : list Job) :
  let w := finalWorld env jobId buffer batch file now in
  let before := JobTable.getStats table in
  let after := JobTable.getStats (job w :: table) in
  match status (job w) with
  | done =>
      exists employees red green,
        parsed env buffer employees
        /\ terminalAudits (trace w) =
             [ ANALYSIS_COMPLETED jobId (List.length employees) red green ]
        /\ JobTable.totalAnalyzed after
           = (List.length employees + JobTable.totalAnalyzed before)%nat
        /\ JobTable.totalRedFlags after = (red + JobTable.totalRedFlags before)%nat
        /\ JobTable.completedJobs after = S (JobTable.completedJobs before)
  | _ => after = before
  end.
Proof.
  intros w before after. subst w before after. rewrite getStats_cons.
  unfold finalWorld.
  pose proof (runJob_ending env jobId buffer batch file now) as H.
  destruct (runJob env jobId now buffer batch file) as [[e|u] w]; simpl.
  - destruct H as [HL _]. apply Live_status in HL. destruct HL as [[Hs|Hs] _];
      unfold contribution; rewrite Hs; now destruct (JobTable.getStats table).
  - destruct H as [[employees [Hp [Hfs [Hj Ht]]]]|[[employees [e [_ [_ [Hj Ht]]]]]
                   |[[_ [Hj Ht]]|[j [tr [k [e [HL [_ [Hj Ht]]]]]]]]]];
      unfold contribution; rewrite Hj; Outcomes.row_fields;
      try (now destruct (JobTable.getStats table)).
    exists employees, (redCount env employees), (greenCount env employees).
    rewrite Ht, terminalAudits_doneTrace.
    unfold analysed, redCount, analysed. rewrite length_map.
    split; [exact Hp|]. repeat split.
Qed.

(** End to end.  With the workbook parser and the rule engine as
    collaborators and a database and a file system that do not fail, a
    run ends [done] exactly when the parser returns employees: then there
    is at least one, the stored results are the engine's results for them
    in order, with their identifiers, and none carries [AnalysisError].
    Otherwise the run ends [error] with the parser's own message, never
    the orchestrator's fallback text, and stores nothing. *)
Theorem workbook_to_results {F : Type} {arith : JsNumber F} (env : Env)
  (load : string -> Exn + list Parser.Sheet)
  (jobId buffer batch file : string) (now : nat) :
  deployed load env -> healthy env ->
  let w := finalWorld env jobId buffer batch file now in
  match p_employees (Parser.parseExcelFile load buffer) with
  | Some employees =>
      status (job w) = done
      /\ results (job w) = Some (map Provider.analyze employees)
      /\ totalEmployees (job w) = Some (List.length employees)
      /\ (0 < List.length employees)%nat
      /\ map r_employeeId (map Provider.analyze employees) = map employeeId employees
      /\ (forall r, In r (map Provider.analyze employees) ->
            ~ In "AnalysisError" (flagsTriggered r))
  | None =>
      status (job w) = error
      /\ results (job w) = None
      /\ message (job w) = p_error (Parser.parseExcelFile load buffer)
      /\ p_error (Parser.parseExcelFile load buffer) <> None
  end.
Proof.
  intros Hd [Hdb Hfs] w. subst w. unfold finalWorld.
  pose proof Hd as [Hparse _].
  pose proof (runJob_ending env jobId buffer batch file now) as H.
  destruct (runJob env jobId now buffer batch file) as [[e|u] w]; simpl.
  - destruct H as [_ [k1 [k2 [e1 [_ [Hf _]]]]]]. rewrite Hdb in Hf. discriminate Hf.
  - destruct H as [[employees [Hp [_ [Hj Ht]]]]|[[employees [e [_ [Hf [Hj Ht]]]]]
                   |[[Hrej [Hj Ht]]|[j [tr [k [e [HL [Hf [Hj Ht]]]]]]]]]].
    + destruct Hp as [Hok Hemp]. rewrite Hparse in Hok, Hemp. rewrite Hemp, Hj.
      Outcomes.row_fields. rewrite (analysed_deployed load env employees Hd).
      split; [reflexivity|]. split; [reflexivity|]. split; [reflexivity|].
      split; [|split].
      * destruct (ExtractFacts.parseExcelFile_shape load buffer)
          as [[_ [_ [es [Hes Hne]]]]|[_ [Hnone _]]].
        -- rewrite Hemp in Hes. injection Hes as <-.
           destruct employees; [now destruct Hne | simpl; lia].
        -- rewrite Hemp in Hnone. discriminate Hnone.
      * rewrite map_map. apply map_ext. intros a.
        apply RuleEngineMore.analyze_employeeId.
      * intros r Hin. apply in_map_iff in Hin. destruct Hin as [a [<- _]].
        apply FlagSet.no_AnalysisError.
    + rewrite Hfs in Hf. discriminate Hf.
    + unfold parseRejected in Hrej. rewrite Hj. unfold parseFailure.
      rewrite Hparse in *. Outcomes.row_fields.
      destruct (ExtractFacts.parseExcelFile_shape load buffer)
        as [[Hok [_ [es [Hes _]]]]|[_ [Hnone [m [Hm Hne]]]]].
      * rewrite Hok, Hes in Hrej. destruct Hrej.
      * rewrite Hnone, Hm. split; [reflexivity|]. split; [reflexivity|].
        split; [|discriminate]. now destruct m.
    + rewrite Hdb in Hf. discriminate Hf.
Qed.

(** The deployed collaborators over a workbook whose second row has a
    blank identifier. *)
Definition sheetEnv : Env :=
  {| parseExcelFile := Parser.parseExcelFile (fun _ => inr [paddedSheet]);
     llmProvider := fun e => inr (Provider.analyze e);
     dbFault := fun _ => None;
     fsFault := None;
     cwd := "/srv/app";
     sharePoint := None |}.

Lemma workbook_to_results_witness :
  let employees :=
    [ record "E-1" None None None None (Some "Meets") None
        (Some "Delivered the quarterly plan on schedule.");
      record "E-2" None None None None None None None ] in
  status (job (worldOf sheetEnv)) = done
  /\ results (job (worldOf sheetEnv)) = Some (map Provider.analyze employees)
  /\ totalEmployees (job (worldOf sheetEnv)) = Some (List.length employees)
  /\ (0 < List.length employees)%nat
  /\ map r_employeeId (map Provider.analyze employees) = map employeeId employees
  /\ (forall r, In r (map Provider.analyze employees) ->
        ~ In "AnalysisError" (flagsTriggered r)).
Proof.
  apply (workbook_to_results (arith := ExactArith.exactNumber) sheetEnv
           (fun _ => inr [paddedSheet]) "job-1" "xlsx" "2024-H1" "reviews.xlsx" 0).
  - split; reflexivity.
  - split; reflexivity.
Defined.

(* ================================================================== *)
(** * The audit log: what a reader gets *)
(* ================================================================== *)

Module AuditLogFacts.
Import AuditLog.

(** The events of the log that a call selects, oldest first. *)
Definition selected (eventType : option string) (lines : list (option Entry))
  : list Entry :=
  match eventType with
  | None | Some EmptyString => parsedEvents lines
  | Some wanted => filter (fun e => String.eqb (AuditLog.eventType e) wanted)
                          (parsedEvents lines)
  end.

Lemma getEvents_selected (top : Z) (eventType : option string)
  (lines : list (option Entry)) :
  getEvents top eventType (inr (Some lines)) =
  rev (sliceFrom (- top) (selected eventType lines)).
Proof.
  unfold getEvents, selected. now destruct eventType as [[|c s]|].
Qed.

Lemma sliceFrom_suffix {A} (start : Z) (xs : list A) :
  exists older, xs = older ++ sliceFrom start xs.
Proof.
  unfold sliceFrom. eexists. symmetry. apply firstn_skipn.
Qed.

Lemma sliceFrom_length {A} (start : Z) (xs : list A) :
  List.length (sliceFrom start xs) =
  if (start <? 0)%Z then Nat.min (Z.to_nat (- start)) (List.length xs)
  else (List.length xs - Z.to_nat start)%nat.
Proof.
  unfold sliceFrom. rewrite length_skipn.
  destruct (start <? 0)%Z eqn:E.
  - apply Z.ltb_lt in E. lia.
  - apply Z.ltb_ge in E. lia.
Qed.

Lemma selected_eventType (wanted : string) (lines : list (option Entry)) (e : Entry) :
  wanted <> EmptyString -> In e (selected (Some wanted) lines) ->
  AuditLog.eventType e = wanted.
Proof.
  intros Hne Hin. unfold selected in Hin.
  destruct wanted as [|c s]; [now destruct Hne|].
  apply filter_In in Hin. destruct Hin as [_ Hin]. now apply String.eqb_eq in Hin.
Qed.

End AuditLogFacts.

Import AuditLogFacts.

(** [getEvents] returns the newest selected events, newest first: read
    backwards, its result is the end of the selected events of the log.
    For a positive [top] it has [top] entries, or all of them when the
    log has fewer.  For [top] 0 it has all of them, and for a negative
    [top] all but the [-top] oldest: [top] is then no bound at all.  With
    an event type given, every entry returned has that type. *)
Theorem getEvents_newest_first (top : Z) (eventType : option string)
  (lines : list (option AuditLog.Entry)) :
  let result := AuditLog.getEvents top eventType (inr (Some lines)) in
  (exists older, selected eventType lines = older ++ rev result)
  /\ List.length result =
       (if (0 <? top)%Z then Nat.min (Z.to_nat top) (List.length (selected eventType lines))
        else (List.length (selected eventType lines) - Z.to_nat (- top))%nat)
  /\ match eventType with
     | None | Some EmptyString => True
     | Some wanted => Forall (fun e => AuditLog.eventType e = wanted) result
     end.
Proof.
  intros result. subst result. rewrite getEvents_selected, rev_involutive, length_rev.
  split; [apply sliceFrom_suffix|]. split.
  - rewrite sliceFrom_length.
    destruct (0 <? top)%Z eqn:E.
    + apply Z.ltb_lt in E. replace (- top <? 0)%Z with true by (symmetry; apply Z.ltb_lt; lia).
      now rewrite Z.opp_involutive.
    + apply Z.ltb_ge in E. now replace (- top <? 0)%Z with false by (symmetry; apply Z.ltb_ge; lia).
  - destruct eventType as [[|c s]|]; try exact I.
    rewrite Forall_forall. intros e Hin. apply in_rev in Hin.
    apply (selected_eventType (String c s) lines); [discriminate|].
    destruct (sliceFrom_suffix (- top) (selected (Some (String c s)) lines)) as [older Heq].
    rewrite Heq. apply in_or_app. now right.
Qed.

(** A log of three events, with one line that does not parse. *)
Definition sampleLog : list (option AuditLog.Entry) :=
  [ Some {| AuditLog.entryId := "audit-1"; AuditLog.timestamp := "2024-05-01T09:00:00Z";
            AuditLog.eventType := "FILE_UPLOADED"; AuditLog.details := "reviews.xlsx" |};
    None;
    Some {| AuditLog.entryId := "audit-2"; AuditLog.timestamp := "2024-05-01T09:00:01Z";
            AuditLog.eventType := "ANALYSIS_STARTED"; AuditLog.details := "job-1" |};
    Some {| AuditLog.entryId := "audit-3"; AuditLog.timestamp := "2024-05-01T09:00:09Z";
            AuditLog.eventType := "ANALYSIS_COMPLETED"; AuditLog.details := "job-1" |} ].

(** The two newest; everything for [top] 0; all but the oldest for
    [top] -1; nothing when the file is missing or cannot be read. *)
Example getEvents_on_sampleLog :
  map AuditLog.entryId (AuditLog.getEvents 2 None (inr (Some sampleLog)))
    = [ "audit-3"; "audit-2" ]
  /\ map AuditLog.entryId (AuditLog.getEvents 0 None (inr (Some sampleLog)))
    = [ "audit-3"; "audit-2"; "audit-1" ]
  /\ map AuditLog.entryId (AuditLog.getEvents (-1) None (inr (Some sampleLog)))
    = [ "audit-3"; "audit-2" ]
  /\ AuditLog.getEvents 2 None (inr None) = []
  /\ AuditLog.getEvents 2 None (inl (ErrorObject "EACCES")) = [].
Proof.
  repeat split.
Qed.
